(** * Order lifecycle coordinator of [server.js]

    A shallow embedding of the Express/Telegram order server: the in-memory
    order store ([orders], a JS [Map]), the worker directory ([masters]),
    the API endpoints that write it, the three Telegram handlers and the helper
    functions [extractCityFromAddress], [saveToGoogleSheets],
    [updateGoogleSheet] and [scheduleNotifications].

    Conventions of the model.
    - A JS string is a [string] holding its UTF-8 bytes.  On well-formed
      text a byte-level containment test agrees with the code-unit test of
      [String.prototype.includes].
    - Instants are [Z] milliseconds since the epoch; an ISO timestamp written
      by [new Date().toISOString()] is [toISOString t].
    - Every handler runs to completion.  Collaborator calls ([bot.*],
      [sheets.*]) are answered by an oracle that says, call by call, whether
      the call rejects, how long it takes and what it returns.
    - The callback of a reminder timer runs as an event of its own, between
      two handlers, when the timer is due; the sequence of events says which
      due timer runs next and how late.
    - The body of a create-order request is spread into the stored order.
      Where it has a key that a handler assigns later, the value is taken to
      be of the kind that the handler writes there; [photos] may also hold a
      truthy primitive.  A body whose [photos] is an array is outside the
      model.
    - The text of outgoing messages is abstracted to a tag. *)

From Stdlib Require Import ZArith List String Ascii Bool Lia.
From Stdlib Require Import DecimalString.
From Stdlib Require DecimalZ DecimalFacts.
Import ListNotations.
Local Open Scope string_scope.
Local Open Scope Z_scope.

(** ** JS strings *)

Module JsString.

(** [includes s needle] is [s.includes(needle)]. *)
Fixpoint includes (s needle : string) : bool :=
  if String.prefix needle s then true
  else match s with
       | EmptyString => false
       | String _ s' => includes s' needle
       end.

(** [startsWith s p] is [s.startsWith(p)]. *)
Definition startsWith (s p : string) : bool := String.prefix p s.

(** [drop n s] removes the first [n] bytes of [s]. *)
Fixpoint drop (n : nat) (s : string) : string :=
  match n, s with
  | O, _ => s
  | S _, EmptyString => EmptyString
  | S n', String _ s' => drop n' s'
  end.

(** [replace_prefix p s] is [s.replace(p, '')] for an [s] that starts with
    [p]: the first occurrence of [p] is the prefix itself. *)
Definition replace_prefix (p s : string) : string := drop (String.length p) s.

(** Occurrence of [needle] somewhere inside [s]. *)
Definition occurs_in (needle s : string) : Prop :=
  exists pre post, s = pre ++ needle ++ post.

End JsString.

(** ** JS values used as identities and map keys *)

Inductive jsval : Type :=
| JUndef
| JNum (n : Z)
| JStr (s : string).

(** Strict equality [===], which on these values is also the SameValueZero
    comparison of [Map] keys: a number never equals a string. *)
Definition js_eqb (a b : jsval) : bool :=
  match a, b with
  | JUndef, JUndef => true
  | JNum x, JNum y => Z.eqb x y
  | JStr x, JStr y => String.eqb x y
  | _, _ => false
  end.

(** [Number.prototype.toString] on an integer identity. *)
Definition num_toString (n : Z) : string := NilZero.string_of_int (Z.to_int n).

(** Builtins the server relies on and that are left abstract: Unicode
    lower-casing, ISO rendering of an instant and [Date] parsing (with [None]
    for an Invalid Date). *)
Record JsRuntime : Type := {
  toLowerCase : string -> string;
  toISOString : Z -> string;
  Date_parse : string -> option Z
}.

(** ** Region routing *)

(** [Object.keys(CITY_CHANNELS)] with the channel of each key, in insertion
    order. *)
Definition CITY_CHANNELS : list (string * string) :=
  [ ("Москва", "@apexclean_moscow");
    ("Санкт-Петербург", "@apexclean_spb");
    ("Казань", "@apexclean_kazan") ].

Definition DEFAULT_CITY : string := "Москва".

Section Routing.
Context (rt : JsRuntime).

(** The [for (const city of cities)] loop with its early [return]. *)
Fixpoint city_loop (address : string) (cities : list string) : option string :=
  match cities with
  | [] => None
  | city :: rest =>
      if JsString.includes (toLowerCase rt address) (toLowerCase rt city)
      then Some city
      else city_loop address rest
  end.

Definition extractCityFromAddress (address : string) : string :=
  match city_loop address (map fst CITY_CHANNELS) with
  | Some city => city
  | None => "Москва"
  end.

(** [CITY_CHANNELS[city] || CITY_CHANNELS['Москва']]. *)
Fixpoint channel_of (city : string) (tbl : list (string * string)) : option string :=
  match tbl with
  | [] => None
  | (c, ch) :: rest => if String.eqb c city then Some ch else channel_of city rest
  end.

Definition channel_for (city : string) : string :=
  match channel_of city CITY_CHANNELS with
  | Some ch => ch
  | None => "@apexclean_moscow"
  end.

End Routing.

(** ** Photo stage classification *)

Inductive Stage : Type := OnSite | Chemistry | Before | After.

(** The [if / else if] chain of the photo handler; [None] is the empty
    string left in [type]. *)
Definition classify (text : string) : option Stage :=
  if JsString.includes text "на месте" then Some OnSite
  else if JsString.includes text "химия" then Some Chemistry
  else if JsString.includes text "до" then Some Before
  else if JsString.includes text "после" then Some After
  else None.


Definition stage_key (s : Stage) : string :=
  match s with
  | OnSite => "on_site"
  | Chemistry => "chemistry"
  | Before => "before"
  | After => "after"
  end.

(** ** Data model *)

Inductive Status : Type := pending | taken | completed.

Definition status_str (s : Status) : string :=
  match s with
  | pending => "pending"
  | taken => "taken"
  | completed => "completed"
  end.

Definition status_eqb (a b : Status) : bool :=
  match a, b with
  | pending, pending | taken, taken | completed, completed => true
  | _, _ => false
  end.

(** What [order.photos] holds: nothing (the key is absent, or the body
    gave it a falsy value); a truthy primitive that came with the body (a
    non-empty string, a non-zero number or [true]); or an ordinary object,
    not an array, given by its own properties, whose values are taken to
    be strings. *)
Inductive Photos : Type :=
| NoPhotos
| PrimitivePhotos
| PhotoObject (entries : list (string * string)).

(** The fields of a create-order request body that the server reads.
    [customerAddress] is [None] when the body has no such field.  The body
    is spread into the stored order, so a body that has one of the keys
    which the handlers assign later ([telegramMessageId], [telegramChatId],
    [masterId], [masterName], [takenAt], [completedAt], [photos]) puts its
    value on the new order: the [body_] fields are these values, [None],
    [JUndef] or [NoPhotos] when the body has no such key.  The keys [id],
    [status] and [createdAt] of a body are overwritten by the literal. *)
Record OrderData : Type := {
  manager : string;
  customerName : string;
  customerPhone : string;
  customerAddress : option string;
  customerFlat : string;
  area : string;
  cleaningType : string;
  difficulty : string;
  orderDate : string;
  orderTime : string;
  orderTotal : string;
  masterPay : string;
  pets : string;
  equipment : string;
  chemistry : string;
  worksDescription : string;
  body_telegramMessageId : option Z;
  body_telegramChatId : option Z;
  body_masterId : jsval;
  body_masterName : option string;
  body_takenAt : option Z;
  body_completedAt : option Z;
  body_photos : Photos
}.

(** An order object of the [orders] map.  Optional fields are the
    properties that a handler adds later or that came with the body.  No
    statement of the program assigns [completedAt]; the field is kept so
    that this can be stated. *)
Record Order : Type := {
  body : OrderData;
  id : string;
  status : Status;
  createdAt : Z;
  telegramMessageId : option Z;
  telegramChatId : option Z;
  masterId : jsval;
  masterName : option string;
  takenAt : option Z;
  completedAt : option Z;
  photos : Photos
}.

Definition with_status (s : Status) (o : Order) : Order :=
  {| body := body o; id := id o; status := s; createdAt := createdAt o;
     telegramMessageId := telegramMessageId o; telegramChatId := telegramChatId o;
     masterId := masterId o; masterName := masterName o; takenAt := takenAt o;
     completedAt := completedAt o; photos := photos o |}.

Definition with_telegram (mid cid : Z) (o : Order) : Order :=
  {| body := body o; id := id o; status := status o; createdAt := createdAt o;
     telegramMessageId := Some mid; telegramChatId := Some cid;
     masterId := masterId o; masterName := masterName o; takenAt := takenAt o;
     completedAt := completedAt o; photos := photos o |}.

(** The four assignments of a claim. *)
Definition with_claim (m : jsval) (name : string) (t : Z) (o : Order) : Order :=
  {| body := body o; id := id o; status := taken; createdAt := createdAt o;
     telegramMessageId := telegramMessageId o; telegramChatId := telegramChatId o;
     masterId := m; masterName := Some name; takenAt := Some t;
     completedAt := completedAt o; photos := photos o |}.

(** [obj[key] = value] on a plain object kept as an association list. *)
Fixpoint obj_set (key value : string) (obj : list (string * string)) : list (string * string) :=
  match obj with
  | [] => [(key, value)]
  | (k, v) :: rest =>
      if String.eqb k key then (k, value) :: rest else (k, v) :: obj_set key value rest
  end.

Fixpoint obj_get (key : string) (obj : list (string * string)) : option string :=
  match obj with
  | [] => None
  | (k, v) :: rest => if String.eqb k key then Some v else obj_get key rest
  end.

(** [key] is an own property of the object. *)
Definition has_own (key : string) (obj : list (string * string)) : bool :=
  match obj_get key obj with
  | Some _ => true
  | None => false
  end.

(** [obj[key] = value] with a string [value] on an ordinary object.  The key
    [__proto__], when the object has no own property of that name, is the
    accessor inherited from [Object.prototype], whose setter ignores a
    value that is not an object: nothing is stored. *)
Definition assign (key value : string) (obj : list (string * string))
  : list (string * string) :=
  if String.eqb key "__proto__" && negb (has_own key obj) then obj
  else obj_set key value obj.

(** [if (!order.photos) order.photos = {}; order.photos[type] = photoUrl].
    The file is not in strict mode: the assignment to a property of a
    primitive is dropped without an error. *)
Definition record_photo (type photoUrl : string) (p : Photos) : Photos :=
  match p with
  | NoPhotos => PhotoObject (assign type photoUrl [])
  | PrimitivePhotos => PrimitivePhotos
  | PhotoObject entries => PhotoObject (assign type photoUrl entries)
  end.

Definition with_photo (type photoUrl : string) (o : Order) : Order :=
  {| body := body o; id := id o; status := status o; createdAt := createdAt o;
     telegramMessageId := telegramMessageId o; telegramChatId := telegramChatId o;
     masterId := masterId o; masterName := masterName o; takenAt := takenAt o;
     completedAt := completedAt o;
     photos := record_photo type photoUrl (photos o) |}.

(** *** JS [Map] with insertion order *)

Section JsMap.
Context {K V : Type} (eqb : K -> K -> bool).

Fixpoint map_get (k : K) (m : list (K * V)) : option V :=
  match m with
  | [] => None
  | (k', v) :: rest => if eqb k' k then Some v else map_get k rest
  end.

(** [Map.prototype.set]: an existing key keeps its position. *)
Fixpoint map_set (k : K) (v : V) (m : list (K * V)) : list (K * V) :=
  match m with
  | [] => [(k, v)]
  | (k', v') :: rest =>
      if eqb k' k then (k', v) :: rest else (k', v') :: map_set k v rest
  end.

(** Mutation of the object stored under [k], seen through every alias. *)
Fixpoint map_update (k : K) (f : V -> V) (m : list (K * V)) : list (K * V) :=
  match m with
  | [] => []
  | (k', v) :: rest =>
      if eqb k' k then (k', f v) :: rest else (k', v) :: map_update k f rest
  end.
End JsMap.

(** *** Ledger sheet, timers, outgoing traffic *)

Inductive ReminderKind : Type := Reminder24h | Reminder2h.

(** A [setTimeout] registration: the delay argument as the program computed
    it ([None] for NaN) and the clock value at registration. *)
Record Timer : Type := {
  t_chat : Z;
  t_kind : ReminderKind;
  t_order : string;
  t_delay : option Z;
  t_armedAt : Z
}.

Definition TIMEOUT_MAX : Z := 2147483647.

(** Node's [setTimeout]: a delay that is NaN, below 1 or above
    [TIMEOUT_MAX] is replaced by 1 ms. *)
Definition node_delay (d : option Z) : Z :=
  match d with
  | None => 1
  | Some d => if (d <? 1) || (TIMEOUT_MAX <? d) then 1 else d
  end.

Definition fires_at (t : Timer) : Z := t_armedAt t + node_delay (t_delay t).

(** Collaborator entry points. *)
Inductive Call : Type :=
| BotSendMessage | BotDeleteMessage | BotAnswerCallbackQuery | BotGetFile
| SheetsGet | SheetsAppend | SheetsUpdate.

Inductive Err : Type :=
| TypeError
| Rejected (c : Call).

Inductive Message : Type :=
| MsgOffer (orderId : string)
| MsgFullInfo (o : Order)
| MsgWelcome (userName : string)
| MsgPhotoSaved
| MsgOrderCompleted
| MsgManager (o : Order)
| MsgReminder (k : ReminderKind) (orderId : string).

Inductive CallbackText : Type := TextAccepted | TextAlreadyTaken | TextRejected.

(** [Uncaught e] is an exception that leaves a timer callback. *)
Inductive Effect : Type :=
| Sent (target : jsval) (m : Message)
| Deleted (chat : option Z) (messageId : option Z)
| Answered (callbackId : string) (t : CallbackText)
| Uncaught (e : Err).

(** What a collaborator answers to one call. *)
Record Reply : Type := {
  rejects : bool;
  latency : N;
  message_id : Z;
  chat_id : Z;
  file_path : string
}.

Record World : Type := {
  orders : list (string * Order);
  masters : list (jsval * Z);
  sheet : list (list string);
  timers : list Timer;
  outbox : list Effect;
  now : Z;
  calls : nat
}.

Definition set_orders (f : list (string * Order) -> list (string * Order)) (w : World) : World :=
  {| orders := f (orders w); masters := masters w; sheet := sheet w; timers := timers w;
     outbox := outbox w; now := now w; calls := calls w |}.

Definition set_masters (f : list (jsval * Z) -> list (jsval * Z)) (w : World) : World :=
  {| orders := orders w; masters := f (masters w); sheet := sheet w; timers := timers w;
     outbox := outbox w; now := now w; calls := calls w |}.

Definition set_sheet (f : list (list string) -> list (list string)) (w : World) : World :=
  {| orders := orders w; masters := masters w; sheet := f (sheet w); timers := timers w;
     outbox := outbox w; now := now w; calls := calls w |}.

Definition set_timers (f : list Timer -> list Timer) (w : World) : World :=
  {| orders := orders w; masters := masters w; sheet := sheet w; timers := f (timers w);
     outbox := outbox w; now := now w; calls := calls w |}.

Definition add_timer (t : Timer) (w : World) : World :=
  {| orders := orders w; masters := masters w; sheet := sheet w; timers := timers w ++ [t];
     outbox := outbox w; now := now w; calls := calls w |}.

Definition log (e : Effect) (w : World) : World :=
  {| orders := orders w; masters := masters w; sheet := sheet w; timers := timers w;
     outbox := outbox w ++ [e]; now := now w; calls := calls w |}.

Definition answered (l : N) (w : World) : World :=
  {| orders := orders w; masters := masters w; sheet := sheet w; timers := timers w;
     outbox := outbox w; now := now w + Z.of_N l; calls := S (calls w) |}.

(** ** A state-and-exception monad for the handlers *)

Inductive Res (A : Type) : Type :=
| Ok (a : A)
| Throw (e : Err).
Arguments Ok {A} a.
Arguments Throw {A} e.

Definition M (A : Type) : Type := World -> Res A * World.

Definition ret {A : Type} (a : A) : M A := fun w => (Ok a, w).

Definition bind {A B : Type} (m : M A) (k : A -> M B) : M B :=
  fun w =>
    match m w with
    | (Ok a, w') => k a w'
    | (Throw e, w') => (Throw e, w')
    end.

Definition throw {A : Type} (e : Err) : M A := fun w => (Throw e, w).

Definition get : M World := fun w => (Ok w, w).

Definition modify (f : World -> World) : M unit := fun w => (Ok tt, f w).

(** [try { m } catch (e) { h e }]: what [m] wrote before throwing stays. *)
Definition try_catch {A : Type} (m : M A) (h : Err -> M A) : M A :=
  fun w =>
    match m w with
    | (Ok a, w') => (Ok a, w')
    | (Throw e, w') => h e w'
    end.

Declare Scope js_scope.
Delimit Scope js_scope with js.
Notation "x <- c1 ;; c2" := (bind c1 (fun x => c2))
  (at level 100, c1 at next level, right associativity) : js_scope.
Notation "c1 ;; c2" := (bind c1 (fun _ => c2))
  (at level 100, right associativity) : js_scope.
Local Open Scope js_scope.

Inductive Response : Type :=
| Success
| Created (orderId link : string)
| NotFound
| ServerError (e : Err).

(** [Array.prototype.findIndex], with [-1] for no match. *)
Fixpoint findIndex {A : Type} (p : A -> bool) (l : list A) : Z :=
  match l with
  | [] => -1
  | x :: rest =>
      if p x then 0
      else let i := findIndex p rest in if i <? 0 then -1 else i + 1
  end.

(** [Array.prototype.find] over [Array.from(map.values())]. *)
Fixpoint find_entry {K V : Type} (p : V -> bool) (m : list (K * V)) : option (K * V) :=
  match m with
  | [] => None
  | (k, v) :: rest => if p v then Some (k, v) else find_entry p rest
  end.

(** Writing [vs] into a row from column [col] on; a short row is padded. *)
Fixpoint put_at (col : nat) (vs row : list string) : list string :=
  match col with
  | O => vs ++ skipn (List.length vs) row
  | S col' =>
      match row with
      | [] => "" :: put_at col' vs []
      | c :: r => c :: put_at col' vs r
      end
  end.

Fixpoint write_row (r : nat) (col : nat) (vs : list string) (sh : list (list string))
  : list (list string) :=
  match r, sh with
  | O, [] => [put_at col vs []]
  | O, row :: rest => put_at col vs row :: rest
  | S r', [] => [] :: write_row r' col vs []
  | S r', row :: rest => row :: write_row r' col vs rest
  end.

(** Column K, the first of [K:T], as a zero-based index; also the [row[10]]
    that the stats endpoint reads as the status. *)
Definition COL_K : nat := 10.

(** The three counters of [/api/stats] over the sheet rows. *)
Definition count_status (s : Status) (rows : list (list string)) : nat :=
  List.length (filter (fun row =>
                         match nth_error row COL_K with
                         | Some c => String.eqb c (status_str s)
                         | None => false
                         end) rows).

Definition truthy (chat : Z) : bool := negb (Z.eqb chat 0).

(** ** The server *)

Section Server.
Context (rt : JsRuntime).
(** Answer of the collaborators to the [n]-th call of the run. *)
Context (oracle : nat -> Reply).
Context (TELEGRAM_BOT_TOKEN : string).

(** An awaited collaborator call: time passes, and the call either
    resolves with a reply or rejects, which throws at the [await]. *)
Definition await (c : Call) : M Reply :=
  fun w =>
    let r := oracle (calls w) in
    if rejects r then (Throw (Rejected c), answered (latency r) w)
    else (Ok r, answered (latency r) w).

Definition bot_sendMessage (target : jsval) (m : Message) : M Reply :=
  r <- await BotSendMessage ;;
  modify (log (Sent target m)) ;;
  ret r.

(** [bot.sendMessage(...)] without [await]: a rejection is not seen by
    the handler. *)
Definition bot_sendMessage_detached (target : jsval) (m : Message) : M unit :=
  modify (log (Sent target m)).

Definition bot_deleteMessage (chat messageId : option Z) : M unit :=
  await BotDeleteMessage ;;
  modify (log (Deleted chat messageId)).

Definition bot_answerCallbackQuery (callbackId : string) (t : CallbackText) : M unit :=
  await BotAnswerCallbackQuery ;;
  modify (log (Answered callbackId t)).

Definition bot_getFile (file_id : string) : M string :=
  r <- await BotGetFile ;;
  ret (file_path r).

(** *** Helper functions *)

Definition saveToGoogleSheets (orderData : OrderData) (orderId : string) (st : Status)
  : M unit :=
  w <- get ;;
  let values :=
    [ toISOString rt (now w); orderId; manager orderData; customerName orderData;
      customerPhone orderData;
      match customerAddress orderData with Some a => a | None => "" end;
      customerFlat orderData; area orderData; cleaningType orderData;
      difficulty orderData; status_str st; orderDate orderData; orderTime orderData;
      orderTotal orderData; masterPay orderData; pets orderData; equipment orderData;
      chemistry orderData; worksDescription orderData; ""; ""; ""; "" ] in
  await SheetsAppend ;;
  modify (set_sheet (fun sh => (sh ++ [values])%list)).

(** The [row => row[1] === orderId] test of the row lookup. *)
Definition row_has_id (orderId : string) (row : list string) : bool :=
  match nth_error row 1 with
  | Some c => String.eqb c orderId
  | None => false
  end.

(** [updates] is the object literal passed by the caller, as its entries
    in insertion order; [Object.values] keeps that order since no key of
    the callers is an integer index. *)
Definition updateGoogleSheet (orderId : string) (updates : list (string * string))
  : M unit :=
  await SheetsGet ;;
  w <- get ;;
  match sheet w with
  | [] => throw TypeError
  | sh =>
      let rows := map (firstn 2) sh in
      let rowIndex := findIndex (row_has_id orderId) rows + 1 in
      if 0 <? rowIndex then
        let values := map snd updates in
        r <- await SheetsUpdate ;;
        if (10 <? List.length values)%nat then throw (Rejected SheetsUpdate)
        else modify (set_sheet (write_row (Z.to_nat (rowIndex - 1)) COL_K values))
      else ret tt
  end.

Definition setTimeout (chat : Z) (k : ReminderKind) (orderId : string) (delay : option Z)
  : M unit :=
  w <- get ;;
  modify (add_timer {| t_chat := chat; t_kind := k; t_order := orderId;
                       t_delay := delay; t_armedAt := now w |}).

Definition scheduleNotifications (orderId date time : string) : M unit :=
  w <- get ;;
  let orderDateTime := Date_parse rt (date ++ "T" ++ time) in
  match map_get String.eqb orderId (orders w) with
  | None => throw TypeError
  | Some o =>
      match map_get js_eqb (masterId o) (masters w) with
      | Some masterChatId =>
          if truthy masterChatId then
            let reminder24h := option_map (fun t => t - 24 * 60 * 60 * 1000) orderDateTime in
            setTimeout masterChatId Reminder24h orderId
              (option_map (fun r => r - now w) reminder24h) ;;
            let reminder2h := option_map (fun t => t - 2 * 60 * 60 * 1000) orderDateTime in
            setTimeout masterChatId Reminder2h orderId
              (option_map (fun r => r - now w) reminder2h)
          else ret tt
      | None => ret tt
      end
  end.

Definition notifyManager (o : Order) : M unit :=
  bot_sendMessage (JStr "@apexclean_managers") (MsgManager o) ;;
  ret tt.

(** *** API endpoints *)

(** [{...orderData, id: orderId, status: 'pending', createdAt: ...}]. *)
Definition new_order (orderData : OrderData) (orderId : string) (t : Z) : Order :=
  {| body := orderData; id := orderId; status := pending; createdAt := t;
     telegramMessageId := body_telegramMessageId orderData;
     telegramChatId := body_telegramChatId orderData;
     masterId := body_masterId orderData;
     masterName := body_masterName orderData;
     takenAt := body_takenAt orderData;
     completedAt := body_completedAt orderData;
     photos := body_photos orderData |}.

(** [POST /api/create-order]. *)
Definition create_order (orderData : OrderData) : M Response :=
  try_catch
    (w <- get ;;
     let orderId := "CLN-" ++ num_toString (now w) in
     modify (set_orders (map_set String.eqb orderId (new_order orderData orderId (now w)))) ;;
     city <- match customerAddress orderData with
             | Some address => ret (extractCityFromAddress rt address)
             | None => throw TypeError
             end ;;
     let channel := channel_for city in
     message <- bot_sendMessage (JStr channel) (MsgOffer orderId) ;;
     modify (set_orders (map_update String.eqb orderId
                           (with_telegram (message_id message) (chat_id message)))) ;;
     saveToGoogleSheets orderData orderId pending ;;
     ret (Created orderId
            ("https://t.me/" ++ JsString.replace_prefix "@" channel ++ "/"
               ++ num_toString (message_id message))))
    (fun e => ret (ServerError e)).

(** [POST /api/take-order]. *)
Definition take_order (orderId : string) (masterId' : jsval) (masterName' : string)
  : M Response :=
  try_catch
    (w <- get ;;
     match map_get String.eqb orderId (orders w) with
     | None => ret NotFound
     | Some order =>
         modify (set_orders (map_update String.eqb orderId
                               (with_claim masterId' masterName' (now w)))) ;;
         bot_deleteMessage (telegramChatId order) (telegramMessageId order) ;;
         match map_get js_eqb masterId' (masters w) with
         | Some masterChatId =>
             if truthy masterChatId then
               bot_sendMessage (JNum masterChatId)
                 (MsgFullInfo (with_claim masterId' masterName' (now w) order)) ;;
               ret tt
             else ret tt
         | None => ret tt
         end ;;
         updateGoogleSheet orderId
           [ ("status", "taken"); ("masterName", masterName');
             ("takenAt", toISOString rt (now w)) ] ;;
         scheduleNotifications orderId (orderDate (body order)) (orderTime (body order)) ;;
         ret Success
     end)
    (fun e => ret (ServerError e)).

(** [POST /api/upload-photo]. *)
Definition upload_photo (orderId type photoUrl : string) : M Response :=
  try_catch
    (w <- get ;;
     match map_get String.eqb orderId (orders w) with
     | None => ret NotFound
     | Some order =>
         modify (set_orders (map_update String.eqb orderId (with_photo type photoUrl))) ;;
         updateGoogleSheet orderId
           [ ("photo_" ++ type, photoUrl); (type ++ "_at", toISOString rt (now w)) ] ;;
         (if String.eqb type "after" then notifyManager (with_photo type photoUrl order)
          else ret tt) ;;
         ret Success
     end)
    (fun e => ret (ServerError e)).

(** *** Telegram handlers *)

(** [bot.onText(/\/start/)]: the directory key is [userId.toString()]. *)
Definition start (chatId userId : Z) (userName : string) : M unit :=
  modify (set_masters (map_set js_eqb (JStr (num_toString userId)) chatId)) ;;
  bot_sendMessage_detached (JNum chatId) (MsgWelcome userName).

Record CallbackQuery : Type := {
  cq_id : string;
  cq_chat : Z;
  cq_message_id : Z;
  cq_data : string;
  cq_from : Z;
  cq_first_name : string
}.

(** [bot.on('callback_query')].  A [Throw] is an unhandled rejection. *)
Definition callback_query (q : CallbackQuery) : M unit :=
  let chatId := cq_chat q in
  let messageId := cq_message_id q in
  let data := cq_data q in
  let masterId' := JNum (cq_from q) in
  let masterName' := cq_first_name q in
  (if JsString.startsWith data "take_" then
     let orderId := JsString.replace_prefix "take_" data in
     w <- get ;;
     let already_taken := bot_answerCallbackQuery (cq_id q) TextAlreadyTaken in
     match map_get String.eqb orderId (orders w) with
     | Some order =>
         if status_eqb (status order) pending then
           modify (set_orders (map_update String.eqb orderId
                                 (with_claim masterId' masterName' (now w)))) ;;
           bot_deleteMessage (Some chatId) (Some messageId) ;;
           bot_sendMessage
             (match map_get js_eqb masterId' (masters w) with
              | Some c => JNum c
              | None => JUndef
              end)
             (MsgFullInfo (with_claim masterId' masterName' (now w) order)) ;;
           updateGoogleSheet orderId
             [ ("status", "taken"); ("masterName", masterName');
               ("takenAt", toISOString rt (now w)) ] ;;
           bot_answerCallbackQuery (cq_id q) TextAccepted ;;
           scheduleNotifications orderId (orderDate (body order)) (orderTime (body order))
         else already_taken
     | None => already_taken
     end
   else ret tt) ;;
  (if JsString.startsWith data "reject_" then
     bot_answerCallbackQuery (cq_id q) TextRejected
   else ret tt).

Record PhotoMessage : Type := {
  pm_chat : Z;
  pm_from : Z;
  pm_caption : option string;
  pm_file_id : string
}.

(** [msg.caption || '']. *)
Definition caption_text (msg : PhotoMessage) : string :=
  match pm_caption msg with Some c => c | None => "" end.

(** The body of [if (type === 'after')] in the photo handler. *)
Definition photo_after_branch (key : string) (order : Order) (chatId : Z) : M unit :=
  modify (set_orders (map_update String.eqb key (with_status completed))) ;;
  updateGoogleSheet (id order) [ ("status", "completed") ] ;;
  bot_sendMessage_detached (JNum chatId) MsgOrderCompleted.

(** The test [o => o.masterId === msg.from.id && o.status === 'taken']. *)
Definition assigned_taken (from : Z) (o : Order) : bool :=
  js_eqb (masterId o) (JNum from) && status_eqb (status o) taken.

(** The download address built from the bot token and the file path. *)
Definition photo_url (path : string) : string :=
  "https://api.telegram.org/file/bot" ++ TELEGRAM_BOT_TOKEN ++ "/" ++ path.

(** [bot.on('photo')]. *)
Definition photo (msg : PhotoMessage) : M unit :=
  let chatId := pm_chat msg in
  let text := caption_text msg in
  match classify text with
  | Some stage =>
      let type := stage_key stage in
      path <- bot_getFile (pm_file_id msg) ;;
      let photoUrl := photo_url path in
      w <- get ;;
      match find_entry (assigned_taken (pm_from msg)) (orders w) with
      | Some (key, order) =>
          modify (set_orders (map_update String.eqb key (with_photo type photoUrl))) ;;
          updateGoogleSheet (id order)
            [ ("photo_" ++ type, photoUrl); (type ++ "_at", toISOString rt (now w)) ] ;;
          bot_sendMessage_detached (JNum chatId) MsgPhotoSaved ;;
          if String.eqb type "after" then photo_after_branch key order chatId
          else ret tt
      | None => ret tt
      end
  | None => ret tt
  end.

(** *** Reminder callbacks *)

(** The callback that [scheduleNotifications] hands to [setTimeout]: it
    reads the order, which throws a [TypeError] that nothing catches when
    the map has none under the id, and sends the reminder without awaiting
    the send. *)
Definition reminder (t : Timer) (w : World) : World :=
  match map_get String.eqb (t_order t) (orders w) with
  | Some _ => log (Sent (JNum (t_chat t)) (MsgReminder (t_kind t) (t_order t))) w
  | None => log (Uncaught TypeError) w
  end.

Fixpoint remove_nth {A : Type} (i : nat) (l : list A) : list A :=
  match i, l with
  | _, [] => []
  | O, _ :: rest => rest
  | S i', x :: rest => x :: remove_nth i' rest
  end.

(** The event loop runs the [i]-th armed timer: a timer is one-shot, and
    it does not run before its time. *)
Definition fire (i : nat) (w : World) : World :=
  match nth_error (timers w) i with
  | Some t =>
      if fires_at t <=? now w then reminder t (set_timers (remove_nth i) w) else w
  | None => w
  end.

(** *** Sequences of operations *)

(** The requests, the Telegram updates and the turns of the event loop:
    [Idle ms] lets [ms] milliseconds pass, [TimerFires i] runs the callback
    of the [i]-th armed timer if it is due.  Which due timer runs next, and
    how late, is left to the sequence. *)
Inductive Event : Type :=
| CreateOrder (orderData : OrderData)
| TakeOrder (orderId : string) (masterId' : jsval) (masterName' : string)
| UploadPhoto (orderId type photoUrl : string)
| Start (chatId userId : Z) (userName : string)
| Callback (q : CallbackQuery)
| Photo (msg : PhotoMessage)
| Idle (ms : N)
| TimerFires (i : nat).

Definition handle (e : Event) (w : World) : World :=
  match e with
  | CreateOrder d => snd (create_order d w)
  | TakeOrder o m n => snd (take_order o m n w)
  | UploadPhoto o t u => snd (upload_photo o t u w)
  | Start c u n => snd (start c u n w)
  | Callback q => snd (callback_query q w)
  | Photo msg => snd (photo msg w)
  | Idle ms =>
      {| orders := orders w; masters := masters w; sheet := sheet w; timers := timers w;
         outbox := outbox w; now := now w + Z.of_N ms; calls := calls w |}
  | TimerFires i => fire i w
  end.

Definition run (es : list Event) (w : World) : World := fold_left (fun w e => handle e w) es w.

End Server.

(** The process right after start-up: both maps empty. *)
Definition boot (sh : list (list string)) (t : Z) : World :=
  {| orders := []; masters := []; sheet := sh; timers := []; outbox := [];
     now := t; calls := 0 |}.

(** ** Vocabulary of the statements *)

(** [x] is the first element of [l] that satisfies [P]. *)
Definition first_match {A : Type} (P : A -> Prop) (l : list A) (x : A) : Prop :=
  exists l1 l2, l = (l1 ++ x :: l2)%list /\ P x /\ forall y, In y l1 -> ~ P y.

Definition no_match {A : Type} (P : A -> Prop) (l : list A) : Prop :=
  forall y, In y l -> ~ P y.

(** The region name [city] occurs in [address], letter case aside. *)
Definition city_matches (rt : JsRuntime) (address city : string) : Prop :=
  JsString.occurs_in (toLowerCase rt city) (toLowerCase rt address).


(** The cell of the sheet at zero-based row [r] and column [c]. *)
Definition cell (sh : list (list string)) (r c : nat) : option string :=
  match nth_error sh r with
  | Some row => nth_error row c
  | None => None
  end.


(** [o] is the order that create-order writes for [orderData] at instant
    [t]: the spread body with the three fields of the literal, before or
    after the two Telegram ids of the offer are put on it. *)
Definition freshly_created (orderId : string) (orderData : OrderData) (t : Z) (o : Order)
  : Prop :=
  o = new_order orderData orderId t
  \/ exists mid cid, o = with_telegram mid cid (new_order orderData orderId t).

(** The order created from [orderData] at instant [t] is stored under
    [orderId], still pending. *)
Definition created_pending (orderId : string) (orderData : OrderData) (t : Z) (w : World)
  : Prop :=
  exists o, map_get String.eqb orderId (orders w) = Some o
            /\ freshly_created orderId orderData t o.

(** Every key of the worker directory is a string. *)
Definition string_keys (m : list (jsval * Z)) : Prop :=
  forall k v, In (k, v) m -> exists s, k = JStr s.

(** The order stored under [orderId]. *)
Definition order_of (orderId : string) (w : World) : option Order :=
  map_get String.eqb orderId (orders w).

(** The computation [m] leaves the component [f] of the state as it was,
    whether it returns or throws. *)
Definition preserves {A B : Type} (f : World -> B) (m : M A) : Prop :=
  forall w, f (snd (m w)) = f w.

(** [f] is a component of the state that neither the clock, the call
    counter nor the outgoing traffic log belongs to. *)
Definition store_part {B : Type} (f : World -> B) : Prop :=
  (forall l w, f (answered l w) = f w) /\ (forall e w, f (log e w) = f w).

(** Every value that [m] can return satisfies [P]. *)
Definition returns_only {A : Type} (P : A -> Prop) (m : M A) : Prop :=
  forall w a w', m w = (Ok a, w') -> P a.

(** The two answers of an API endpoint to a request that names a stored
    order: success, or a 500 carrying the error that was caught. *)
Definition success_or_500 (r : Response) : Prop :=
  r = Success \/ exists e, r = ServerError e.

(** The order map, the worker directory and the armed timers together. *)
Definition core (w : World) : list (string * Order) * list (jsval * Z) * list Timer :=
  (orders w, masters w, timers w).

(** The computation [m] keeps the invariant [I], whether it returns or
    throws. *)
Definition maintains {A : Type} (I : World -> Prop) (m : M A) : Prop :=
  forall w, I w -> I (snd (m w)).

(** [I] does not depend on the clock, the call counter, the traffic log,
    the sheet or the timers. *)
Definition data_invariant (I : World -> Prop) : Prop :=
  forall w w', orders w' = orders w -> masters w' = masters w -> I w -> I w'.

(** No two entries of the order map have the same key. *)
Definition unique_keys (w : World) : Prop := NoDup (map fst (orders w)).

(** The completion time of every stored order is the one that its
    create-order body carried, none when the body had none. *)
Definition completedAt_as_given (w : World) : Prop :=
  Forall (fun p => completedAt (snd p) = body_completedAt (body (snd p))) (orders w).

(** Every directory key is a string. *)
Definition directory_by_string (w : World) : Prop := string_keys (masters w).

(** ** A concrete runtime and concrete collaborators, for evaluation *)

Module Demo.

(** Lower-casing of ASCII letters and of the Cyrillic capitals
    U+0400..U+042F in UTF-8. *)
Fixpoint lower (s : string) : string :=
  match s with
  | EmptyString => EmptyString
  | String a rest =>
      let n := nat_of_ascii a in
      if ((65 <=? n) && (n <=? 90))%nat then String (ascii_of_nat (n + 32)) (lower rest)
      else if (n =? 208)%nat then
        match rest with
        | String b rest' =>
            let m := nat_of_ascii b in
            if ((144 <=? m) && (m <=? 159))%nat
            then String a (String (ascii_of_nat (m + 32)) (lower rest'))
            else if ((160 <=? m) && (m <=? 175))%nat
            then String (ascii_of_nat 209) (String (ascii_of_nat (m - 32)) (lower rest'))
            else if ((128 <=? m) && (m <=? 143))%nat
            then String (ascii_of_nat 209) (String (ascii_of_nat (m + 16)) (lower rest'))
            else String a (String b (lower rest'))
        | EmptyString => String a EmptyString
        end
      else String a (lower rest)
  end.

(** A stand-in for ISO rendering: the decimal instant. *)
Definition iso (t : Z) : string := "t=" ++ num_toString t.

(** A stand-in for [Date] parsing that knows one appointment,
    2030-01-10 12:00 taken as instant [1000000000]. *)
Definition parse (s : string) : option Z :=
  if String.eqb s "2030-01-10T12:00" then Some 1000000000 else None.

Definition rt : JsRuntime :=
  {| toLowerCase := lower; toISOString := iso; Date_parse := parse |}.

(** Collaborators that always resolve, each call taking 5 ms. *)
Definition calm (n : nat) : Reply :=
  {| rejects := false; latency := 5; message_id := 700 + Z.of_nat n;
     chat_id := -100; file_path := "photos/file.jpg" |}.

(** As [calm], but the [k]-th call of the run rejects. *)
Definition failing (k : nat) (n : nat) : Reply :=
  {| rejects := Nat.eqb n k; latency := 5; message_id := 700 + Z.of_nat n;
     chat_id := -100; file_path := "photos/file.jpg" |}.

Definition job : OrderData :=
  {| manager := "Anna"; customerName := "Ivan"; customerPhone := "+70000000000";
     customerAddress := Some "МОСКВА, ул. Ленина 5"; customerFlat := "12";
     area := "50"; cleaningType := "general"; difficulty := "2";
     orderDate := "2030-01-10"; orderTime := "12:00"; orderTotal := "9000";
     masterPay := "4000"; pets := "no"; equipment := ""; chemistry := "";
     worksDescription := "";
     body_telegramMessageId := None; body_telegramChatId := None;
     body_masterId := JUndef; body_masterName := None; body_takenAt := None;
     body_completedAt := None; body_photos := NoPhotos |}.

Definition header : list string := [ "timestamp"; "orderId" ].

(** The process at instant [1000] with a sheet that has its header row. *)
Definition w0 : World := boot [header] 1000.

Definition TOKEN : string := "TOKEN".

(** A tap on the inline "take" button of the offer of order [CLN-1000]. *)
Definition tap (from : Z) (name : string) : CallbackQuery :=
  {| cq_id := "q"; cq_chat := -100; cq_message_id := 700;
     cq_data := "take_CLN-1000"; cq_from := from; cq_first_name := name |}.

(** A photo sent to the bot with a caption. *)
Definition snap (from : Z) (caption : string) : PhotoMessage :=
  {| pm_chat := 55; pm_from := from; pm_caption := Some caption; pm_file_id := "f1" |}.

(** One order created and still pending. *)
Definition w_pending : World := run rt calm TOKEN [CreateOrder job] w0.

(** The order claimed through the API by the unregistered worker ["42"]. *)
Definition w_taken_api : World :=
  run rt calm TOKEN [TakeOrder "CLN-1000" (JStr "42") "Petr"] w_pending.

(** Worker 42 registered with [/start] and claimed through the inline
    action. *)
Definition w_taken_inline : World :=
  run rt calm TOKEN [Start 55 42 "Petr"; Callback (tap 42 "Petr")] w_pending.

(** The same worker then sent the [после] photo. *)
Definition w_completed : World :=
  run rt calm TOKEN [Photo (snap 42 "после")] w_taken_inline.

(** Worker 42 registered; the order still pending. *)
Definition w_registered : World := run rt calm TOKEN [Start 55 42 "Petr"] w_pending.

(** The registered worker's claim written on the order under the string
    identity that the directory uses. *)
Definition w_claim_written : World :=
  set_orders (map_update String.eqb "CLN-1000" (with_claim (JStr "42") "Petr" 1010))
    w_registered.

End Demo.

(** ** The statistics endpoint *)

Record Stats : Type := {
  total : Z;
  stats_pending : nat;
  stats_taken : nat;
  stats_completed : nat
}.

Inductive StatsResponse : Type :=
| StatsOk (stats : Stats)
| StatsError (e : Err).

Section Statistics.
Context (oracle : nat -> Reply).

(** [GET /api/stats]: the rows of [A:Z], the first of them the header. *)
Definition get_stats : M StatsResponse :=
  try_catch
    (await oracle SheetsGet ;;
     w <- get ;;
     match sheet w with
     | [] => throw TypeError
     | sh =>
         let rows := map (firstn 26) sh in
         ret (StatsOk {| total := Z.of_nat (List.length rows) - 1;
                         stats_pending := count_status pending rows;
                         stats_taken := count_status taken rows;
                         stats_completed := count_status completed rows |})
     end)
    (fun e => ret (StatsError e)).

End Statistics.

(** ** Vocabulary of the further statements *)

(** [l'] is [l] with elements added at its end. *)
Definition extends {A : Type} (l l' : list A) : Prop :=
  exists more, l' = (l ++ more)%list.

(** Every run of [m] takes a state to one related to it by [R]. *)
Definition advances {A : Type} (R : World -> World -> Prop) (m : M A) : Prop :=
  forall w, R w (snd (m w)).

(** The timers armed before are still armed, in the same order. *)
Definition timers_extended (w w' : World) : Prop := extends (timers w) (timers w').

(** The clock has not gone back, and a timer armed before is still armed
    unless its time has come. *)
Definition timers_kept (w w' : World) : Prop :=
  now w <= now w'
  /\ forall t, In t (timers w) -> In t (timers w') \/ fires_at t <= now w'.

(** The order ids stored before are still stored, in the same order. *)
Definition keys_kept (w w' : World) : Prop :=
  extends (map fst (orders w)) (map fst (orders w')).

(** Every order is stored under its own [id]. *)
Definition filed_under_id (w : World) : Prop :=
  Forall (fun p => id (snd p) = fst p) (orders w).

(** An order that was claimed has a [takenAt]; a pending order has the
    [takenAt] that came with its body. *)
Definition claim_recorded (o : Order) : Prop :=
  (status o <> pending -> takenAt o <> None)
  /\ (status o = pending -> takenAt o = body_takenAt (body o)).

Definition lifecycle_consistent (w : World) : Prop :=
  Forall (fun p => claim_recorded (snd p)) (orders w).

(** The own properties of [order.photos]; none when it is not an object. *)
Definition photos_of (o : Order) : list (string * string) :=
  match photos o with
  | PhotoObject entries => entries
  | _ => []
  end.

(** [order.photos] is an object with an entry for [after]. *)
Definition has_after_photo (o : Order) : Prop :=
  exists entries url,
    photos o = PhotoObject entries /\ obj_get "after" entries = Some url.

(** [order.photos] is a truthy primitive, which only the body can give. *)
Definition primitive_photos (o : Order) : Prop :=
  photos o = PrimitivePhotos /\ body_photos (body o) = PrimitivePhotos.

(** The photos of a stored order: a primitive only when the body gave one,
    and an [after] entry, or such a primitive, on a completed order. *)
Definition photos_recorded (o : Order) : Prop :=
  (photos o = PrimitivePhotos -> body_photos (body o) = PrimitivePhotos)
  /\ (status o = completed -> has_after_photo o \/ primitive_photos o).

Definition completed_with_photo (w : World) : Prop :=
  Forall (fun p => photos_recorded (snd p)) (orders w).

(** What a cell shows: an absent cell reads as the empty string. *)
Definition cell_text (sh : list (list string)) (r c : nat) : string :=
  match cell sh r c with
  | Some s => s
  | None => ""
  end.

(** No row of the sheet has [orderId] in column B. *)
Definition no_ledger_row (orderId : string) (sh : list (list string)) : Prop :=
  Forall (fun row => nth_error row 1 <> Some orderId) sh.

(** The zero-based index of the row that [updateGoogleSheet] locates. *)
Definition ledger_row (orderId : string) (sh : list (list string)) : Z :=
  findIndex (row_has_id orderId) (map (firstn 2) sh).

(** One of the three status words of the ledger. *)
Definition status_word (c : string) : bool :=
  String.eqb c "pending" || String.eqb c "taken" || String.eqb c "completed".

(** Collaborators that resolve within the same millisecond. *)
Definition instant_replies (n : nat) : Reply :=
  {| rejects := false; latency := 0; message_id := 700 + Z.of_nat n;
     chat_id := -100; file_path := "photos/file.jpg" |}.

(** An order created at instant [1000] and claimed through the API, the
    clock still at [1000]. *)
Definition w_same_millisecond : World :=
  run Demo.rt instant_replies Demo.TOKEN
    [CreateOrder Demo.job; TakeOrder "CLN-1000" (JStr "42") "Petr"] (boot [Demo.header] 1000).

(** The rows that one of the three counters of [/api/stats] counts. *)
Definition counted_row (row : list string) : bool :=
  match nth_error row COL_K with
  | Some c => status_word c
  | None => false
  end.

(** The text read in column B of a row, the order id. *)
Definition column_B (row : list string) : string :=
  match nth_error row 1 with
  | Some s => s
  | None => ""
  end.

(** The id column of the sheet only grows at its end. *)
Definition ledger_kept (w w' : World) : Prop :=
  extends (map column_B (sheet w)) (map column_B (sheet w')).

(** Every order-details message in the outbox of [w'] was already in the
    outbox of [w] or is addressed to [undefined]. *)
Definition details_undelivered (w w' : World) : Prop :=
  forall target o,
    In (Sent target (MsgFullInfo o)) (outbox w') ->
    In (Sent target (MsgFullInfo o)) (outbox w) \/ target = JUndef.

(** Nothing leaves the outbox. *)
Definition outbox_kept (w w' : World) : Prop :=
  forall e, In e (outbox w) -> In e (outbox w').

(** Between [w] and [w']: no order id is lost, every timer that is new
    names a stored order, and no exception has left a timer callback. *)
Definition callbacks_safe (w w' : World) : Prop :=
  keys_kept w w'
  /\ (forall t, In t (timers w') ->
        In t (timers w) \/ In (t_order t) (map fst (orders w')))
  /\ (forall e, In (Uncaught e) (outbox w') -> In (Uncaught e) (outbox w)).

(** Every armed timer names a stored order, and no exception has left a
    timer callback. *)
Definition timers_name_orders (w : World) : Prop :=
  Forall (fun t => In (t_order t) (map fst (orders w))) (timers w)
  /\ forall e, ~ In (Uncaught e) (outbox w).

(** * Properties *)

(** ** Strings *)

Lemma prefix_iff (p s : string) :
  String.prefix p s = true <-> exists post, s = p ++ post.
Proof.
  revert s; induction p as [|a p IH]; intros s.
  - split; [intros _; now exists s | intros _; now destruct s].
  - destruct s as [|b s]; simpl.
    + split; [discriminate | intros [post H]; discriminate].
    + destruct (ascii_dec a b) as [->|Hab].
      * rewrite IH. split; intros [post H]; exists post.
        -- now rewrite H.
        -- now inversion H.
      * split; [discriminate | intros [post H]; congruence].
Qed.

Lemma includes_iff (s needle : string) :
  JsString.includes s needle = true <-> JsString.occurs_in needle s.
Proof.
  unfold JsString.occurs_in.
  induction s as [|a s IH].
  - change (JsString.includes "" needle)
      with (if String.prefix needle "" then true else false).
    destruct (String.prefix needle "") eqn:E.
    + split; [intros _ | reflexivity].
      apply prefix_iff in E. destruct E as [post E]. now exists "", post.
    + split; [discriminate |].
      intros [pre [post H]]. destruct pre; simpl in H.
      * assert (String.prefix needle "" = true) by (apply prefix_iff; now exists post).
        congruence.
      * discriminate.
  - change (JsString.includes (String a s) needle)
      with (if String.prefix needle (String a s) then true
            else JsString.includes s needle).
    destruct (String.prefix needle (String a s)) eqn:E.
    + split; [intros _ | reflexivity].
      apply prefix_iff in E. destruct E as [post E]. now exists "", post.
    + rewrite IH. split.
      * intros [pre [post H]]. exists (String a pre), post. simpl. now rewrite H.
      * intros [pre [post H]]. destruct pre as [|b pre]; simpl in H.
        -- assert (String.prefix needle (String a s) = true)
             by (apply prefix_iff; now exists post).
           congruence.
        -- inversion H. now exists pre, post.
Qed.

Lemma includes_false_iff (s needle : string) :
  JsString.includes s needle = false <-> ~ JsString.occurs_in needle s.
Proof.
  pose proof (includes_iff s needle) as H.
  destruct (JsString.includes s needle); split; intros H'.
  - discriminate.
  - exfalso. apply H'. now apply H.
  - intros Ho. apply H in Ho. discriminate.
  - reflexivity.
Qed.

Lemma first_match_head {A : Type} (P : A -> Prop) (x : A) (l : list A) :
  P x -> first_match P (x :: l) x.
Proof.
  intros Hx. exists [], l.
  split; [reflexivity|]. split; [assumption|]. intros y [].
Qed.

Lemma first_match_tail {A : Type} (P : A -> Prop) (x y : A) (l : list A) :
  ~ P x -> first_match P l y -> first_match P (x :: l) y.
Proof.
  intros Hx (l1 & l2 & -> & Hy & Hl1).
  exists (x :: l1), l2.
  split; [reflexivity|]. split; [assumption|].
  intros z [<-|Hz]; auto.
Qed.

(** The first match is unique, so "the first" names one element. *)
Lemma first_match_unique {A : Type} (P : A -> Prop) (l : list A) (x y : A) :
  first_match P l x -> first_match P l y -> x = y.
Proof.
  intros (l1 & l2 & -> & Hx & H1) (l1' & l2' & E & Hy & H1').
  revert l1' E H1'. induction l1 as [|a l1 IH]; intros l1' E H1'.
  - destruct l1' as [|b l1']; simpl in E; injection E as E1 E2.
    + exact E1.
    + exfalso. apply (H1' x); [left; now symmetry | exact Hx].
  - destruct l1' as [|b l1']; simpl in E; injection E as E1 E2.
    + exfalso. apply (H1 y); [now left | exact Hy].
    + apply (IH (fun z Hz => H1 z (or_intror Hz)) l1'); [exact E2|].
      intros z Hz. apply H1'. now right.
Qed.

Lemma no_match_cons {A : Type} (P : A -> Prop) (x : A) (l : list A) :
  ~ P x -> no_match P l -> no_match P (x :: l).
Proof.
  intros Hx Hl y [<-|Hy]; auto.
Qed.

(** ** Region routing *)

Lemma city_loop_spec (rt : JsRuntime) (address : string) (cities : list string) :
  match city_loop rt address cities with
  | Some city => first_match (city_matches rt address) cities city
  | None => no_match (city_matches rt address) cities
  end.
Proof.
  induction cities as [|c rest IH]; simpl.
  - intros y [].
  - destruct (JsString.includes (toLowerCase rt address) (toLowerCase rt c)) eqn:E.
    + apply first_match_head. now apply includes_iff.
    + apply includes_false_iff in E.
      destruct (city_loop rt address rest).
      * now apply first_match_tail.
      * now apply no_match_cons.
Qed.

(** C6.  [extractCityFromAddress] is a function of the address alone: it
    returns the first configured region, in the order Moscow, Saint
    Petersburg, Kazan, whose lower-cased name occurs in the lower-cased
    address, and the default region [Москва] when no name occurs; equal
    addresses give equal regions. *)
Theorem extractCityFromAddress_first_match (rt : JsRuntime) (address : string) :
  let cities := map fst CITY_CHANNELS in
  (first_match (city_matches rt address) cities (extractCityFromAddress rt address)
   \/ (no_match (city_matches rt address) cities
       /\ extractCityFromAddress rt address = DEFAULT_CITY))
  /\ (forall address', address' = address ->
        extractCityFromAddress rt address' = extractCityFromAddress rt address).
Proof.
  intros cities. split.
  - unfold extractCityFromAddress. fold cities.
    pose proof (city_loop_spec rt address cities) as H.
    destruct (city_loop rt address cities); [left | right]; auto.
  - now intros address' ->.
Qed.

(** On the running example: a capitalised name is found, the order of the
    configured regions decides between two names, and an address without a
    known name goes to the default. *)
Lemma extractCityFromAddress_examples :
  extractCityFromAddress Demo.rt "г. КАЗАНЬ, ул. Баумана 1" = "Казань"
  /\ extractCityFromAddress Demo.rt "Санкт-Петербург, Московский пр. (не Москва)"
     = "Москва"
  /\ extractCityFromAddress Demo.rt "Тверь, ул. Советская 3" = "Москва".
Proof.
  vm_compute. repeat split; reflexivity.
Qed.

(** ** Photo stage classification *)


(** [до] wins over [после] when both occur, and [на месте] over every
    other marker. *)
Lemma classify_examples :
  classify "после уборки" = Some After
  /\ classify "до и после" = Some Before
  /\ classify "химия на месте" = Some OnSite
  /\ classify "готово" = None
  /\ classify "" = None.
Proof.
  vm_compute. repeat split; reflexivity.
Qed.

(** ** Framing: what a computation leaves alone *)

Lemma bind_get {A : Type} (k : World -> M A) (w : World) :
  bind get k w = k w w.
Proof. reflexivity. Qed.

Lemma bind_modify {A : Type} (f : World -> World) (k : unit -> M A) (w : World) :
  bind (modify f) k w = k tt (f w).
Proof. reflexivity. Qed.

Lemma snd_try_catch {A : Type} (m : M A) (g : Err -> A) (w : World) :
  snd (try_catch m (fun e => ret (g e)) w) = snd (m w).
Proof.
  unfold try_catch, ret. destruct (m w) as [[a|e] w']; reflexivity.
Qed.

Section Frames.
Context {B : Type} (f : World -> B).

Lemma preserves_ret {A : Type} (a : A) : preserves f (ret a).
Proof. intros w; reflexivity. Qed.

Lemma preserves_throw {A : Type} (e : Err) : preserves f (@throw A e).
Proof. intros w; reflexivity. Qed.

Lemma preserves_get : preserves f get.
Proof. intros w; reflexivity. Qed.

Lemma preserves_modify (g : World -> World) :
  (forall w, f (g w) = f w) -> preserves f (modify g).
Proof. intros H w; apply H. Qed.

Lemma preserves_bind {A C : Type} (m : M A) (k : A -> M C) :
  preserves f m -> (forall a, preserves f (k a)) -> preserves f (bind m k).
Proof.
  intros Hm Hk w. unfold bind. specialize (Hm w).
  destruct (m w) as [[a|e] w']; simpl in *.
  - now rewrite Hk.
  - exact Hm.
Qed.

Lemma preserves_try_catch {A : Type} (m : M A) (g : Err -> A) :
  preserves f m -> preserves f (try_catch m (fun e => ret (g e))).
Proof. intros Hm w. rewrite snd_try_catch. apply Hm. Qed.

Lemma preserves_await (oracle : nat -> Reply) (c : Call) :
  store_part f -> preserves f (await oracle c).
Proof.
  intros [Ha _] w. unfold await. destruct (rejects (oracle (calls w))); apply Ha.
Qed.

Lemma preserves_log {A : Type} (e : Effect) :
  store_part f -> preserves f (modify (log e)).
Proof. intros [_ Hl]. apply preserves_modify. apply Hl. Qed.

End Frames.

Lemma store_part_orders : store_part orders.
Proof. split; reflexivity. Qed.

Lemma store_part_masters : store_part masters.
Proof. split; reflexivity. Qed.

Lemma store_part_timers : store_part timers.
Proof. split; reflexivity. Qed.

Lemma store_part_sheet : store_part sheet.
Proof. split; reflexivity. Qed.

Create HintDb frame.

#[local] Hint Resolve store_part_orders store_part_masters store_part_timers
  store_part_sheet : frame.

(** Decomposes a computation along its binds and branches. *)
Ltac frame :=
  repeat first
    [ apply preserves_ret
    | apply preserves_throw
    | apply preserves_get
    | apply preserves_await; solve [auto with frame]
    | apply preserves_log; solve [auto with frame]
    | apply preserves_modify; intros ?; reflexivity
    | apply preserves_try_catch
    | apply preserves_bind; [|intros ?]
    | match goal with
      | |- preserves _ (match ?x with _ => _ end) => destruct x
      | |- preserves _ (let _ := _ in _) => cbv zeta
      end ].

Section Collaborators.
Context (rt : JsRuntime) (oracle : nat -> Reply) (token : string).

Lemma bot_sendMessage_store {B : Type} (f : World -> B) target m :
  store_part f -> preserves f (bot_sendMessage oracle target m).
Proof. intros Hf. unfold bot_sendMessage. frame. Qed.

Lemma bot_deleteMessage_store {B : Type} (f : World -> B) chat mid :
  store_part f -> preserves f (bot_deleteMessage oracle chat mid).
Proof. intros Hf. unfold bot_deleteMessage. frame. Qed.

Lemma bot_answerCallbackQuery_store {B : Type} (f : World -> B) cid t :
  store_part f -> preserves f (bot_answerCallbackQuery oracle cid t).
Proof. intros Hf. unfold bot_answerCallbackQuery. frame. Qed.

Lemma bot_getFile_store {B : Type} (f : World -> B) fid :
  store_part f -> preserves f (bot_getFile oracle fid).
Proof. intros Hf. unfold bot_getFile. frame. Qed.

Lemma notifyManager_store {B : Type} (f : World -> B) o :
  store_part f -> preserves f (notifyManager oracle o).
Proof. intros Hf. unfold notifyManager. frame. Qed.

(** The ledger routine touches the sheet only. *)
Lemma updateGoogleSheet_orders orderId updates :
  preserves orders (updateGoogleSheet oracle orderId updates).
Proof. unfold updateGoogleSheet. frame. Qed.

Lemma updateGoogleSheet_masters orderId updates :
  preserves masters (updateGoogleSheet oracle orderId updates).
Proof. unfold updateGoogleSheet. frame. Qed.

Lemma updateGoogleSheet_timers orderId updates :
  preserves timers (updateGoogleSheet oracle orderId updates).
Proof. unfold updateGoogleSheet. frame. Qed.

Lemma scheduleNotifications_orders orderId date time :
  preserves orders (scheduleNotifications rt orderId date time).
Proof. unfold scheduleNotifications, setTimeout. frame. Qed.

Lemma scheduleNotifications_masters orderId date time :
  preserves masters (scheduleNotifications rt orderId date time).
Proof. unfold scheduleNotifications, setTimeout. frame. Qed.

End Collaborators.

(** ** The order map *)

Lemma map_get_update_same {V : Type} (k : string) (f : V -> V) (m : list (string * V)) :
  map_get String.eqb k (map_update String.eqb k f m)
  = option_map f (map_get String.eqb k m).
Proof.
  induction m as [|[k' v] m IH]; simpl; [reflexivity|].
  destruct (String.eqb k' k) eqn:E; simpl; rewrite E; auto.
Qed.

Lemma map_get_update_other {V : Type} (k k2 : string) (f : V -> V) (m : list (string * V)) :
  k2 <> k ->
  map_get String.eqb k2 (map_update String.eqb k f m) = map_get String.eqb k2 m.
Proof.
  intros Hne. induction m as [|[k' v] m IH]; simpl; [reflexivity|].
  destruct (String.eqb k' k) eqn:E; simpl.
  - apply String.eqb_eq in E. subst k'.
    destruct (String.eqb k k2) eqn:E2; [|reflexivity].
    apply String.eqb_eq in E2. congruence.
  - destruct (String.eqb k' k2); auto.
Qed.

Lemma map_update_keys {V : Type} (k : string) (f : V -> V) (m : list (string * V)) :
  map fst (map_update String.eqb k f m) = map fst m.
Proof.
  induction m as [|[k' v] m IH]; simpl; [reflexivity|].
  destruct (String.eqb k' k); simpl; congruence.
Qed.

(** ** Return values *)

Lemma returns_only_ret {A : Type} (P : A -> Prop) (a : A) : P a -> returns_only P (ret a).
Proof. intros H w a' w' E. inversion E. now subst. Qed.

Lemma returns_only_bind {A C : Type} (P : C -> Prop) (m : M A) (k : A -> M C) :
  (forall a, returns_only P (k a)) -> returns_only P (bind m k).
Proof.
  intros Hk w c w' E. unfold bind in E.
  destruct (m w) as [[a|e] w1]; [|discriminate].
  exact (Hk a w1 c w' E).
Qed.

Lemma try_catch_returns {A : Type} (P : A -> Prop) (m : M A) (g : Err -> A) (w : World) :
  (forall a w', m w = (Ok a, w') -> P a) -> (forall e, P (g e)) ->
  exists a, fst (try_catch m (fun e => ret (g e)) w) = Ok a /\ P a.
Proof.
  intros Hm Hg. unfold try_catch, ret.
  destruct (m w) as [[a|e] w1] eqn:E; simpl.
  - exists a. split; [reflexivity|]. exact (Hm a w1 eq_refl).
  - exists (g e). split; [reflexivity|]. apply Hg.
Qed.

(** Follows a computation to the value it returns at its end. *)
Ltac returns :=
  repeat first
    [ apply returns_only_ret
    | apply returns_only_bind; intros ?
    | match goal with
      | |- returns_only _ (match ?x with _ => _ end) => destruct x
      end ].

Lemma startsWith_take (x : string) : JsString.startsWith ("take_" ++ x) "take_" = true.
Proof. unfold JsString.startsWith. apply prefix_iff. now exists x. Qed.

(** ** What each handler does to the order map *)

Section Handlers.
Context (rt : JsRuntime) (oracle : nat -> Reply) (token : string).

Lemma take_order_store orderId m n o w :
  order_of orderId w = Some o ->
  orders (snd (take_order rt oracle orderId m n w))
  = map_update String.eqb orderId (with_claim m n (now w)) (orders w).
Proof.
  unfold order_of. intros Ho. unfold take_order.
  rewrite snd_try_catch, bind_get, Ho, bind_modify.
  match goal with
  | |- orders (snd (?rest ?w1)) = _ =>
      assert (H : preserves orders rest); [| now rewrite H]
  end.
  frame.
Qed.

Lemma take_order_missing orderId m n w :
  order_of orderId w = None ->
  take_order rt oracle orderId m n w = (Ok NotFound, w).
Proof.
  unfold order_of. intros Ho. unfold take_order, try_catch.
  rewrite bind_get, Ho. reflexivity.
Qed.

Lemma take_order_response orderId m n o w :
  order_of orderId w = Some o ->
  exists r, fst (take_order rt oracle orderId m n w) = Ok r /\ success_or_500 r.
Proof.
  unfold order_of. intros Ho. unfold take_order.
  apply try_catch_returns; [| intros e; right; now exists e].
  intros a w'. rewrite bind_get, Ho.
  match goal with
  | |- ?m w = (Ok a, w') -> _ =>
      intros E; assert (H : returns_only success_or_500 m); [| exact (H w a w' E)]
  end.
  returns. now left.
Qed.

Lemma upload_photo_store orderId type photoUrl o w :
  order_of orderId w = Some o ->
  orders (snd (upload_photo rt oracle orderId type photoUrl w))
  = map_update String.eqb orderId (with_photo type photoUrl) (orders w).
Proof.
  unfold order_of. intros Ho. unfold upload_photo.
  rewrite snd_try_catch, bind_get, Ho, bind_modify.
  match goal with
  | |- orders (snd (?rest ?w1)) = _ =>
      assert (H : preserves orders rest); [| now rewrite H]
  end.
  frame.
Qed.

Lemma upload_photo_missing orderId type photoUrl w :
  order_of orderId w = None ->
  upload_photo rt oracle orderId type photoUrl w = (Ok NotFound, w).
Proof.
  unfold order_of. intros Ho. unfold upload_photo, try_catch.
  rewrite bind_get, Ho. reflexivity.
Qed.

Lemma upload_photo_response orderId type photoUrl o w :
  order_of orderId w = Some o ->
  exists r, fst (upload_photo rt oracle orderId type photoUrl w) = Ok r /\ success_or_500 r.
Proof.
  unfold order_of. intros Ho. unfold upload_photo.
  apply try_catch_returns; [| intros e; right; now exists e].
  intros a w'. rewrite bind_get, Ho.
  match goal with
  | |- ?m w = (Ok a, w') -> _ =>
      intros E; assert (H : returns_only success_or_500 m); [| exact (H w a w' E)]
  end.
  returns. now left.
Qed.

(** The inline action on a pending order: the claim is written before the
    first collaborator call and nothing after it touches the order map. *)
Lemma callback_query_claims q orderId o w :
  cq_data q = "take_" ++ orderId ->
  order_of orderId w = Some o ->
  status o = pending ->
  orders (snd (callback_query rt oracle q w))
  = map_update String.eqb orderId
      (with_claim (JNum (cq_from q)) (cq_first_name q) (now w)) (orders w).
Proof.
  unfold order_of. intros Hd Ho Hs. unfold callback_query.
  rewrite Hd, startsWith_take.
  change (JsString.replace_prefix "take_" ("take_" ++ orderId)) with orderId.
  change (JsString.startsWith ("take_" ++ orderId) "reject_") with false.
  cbv iota.
  match goal with
  | |- orders (snd (bind (bind get ?k) ?k2 w)) = _ =>
      change (bind (bind get k) k2 w) with (bind (k w) k2 w)
  end.
  cbv beta zeta. rewrite Ho, Hs. cbv iota beta delta [status_eqb].
  match goal with
  | |- orders (snd (bind (bind (modify ?g) ?k) ?k2 w)) = _ =>
      change (bind (bind (modify g) k) k2 w) with (bind (k tt) k2 (g w))
  end.
  match goal with
  | |- orders (snd (?rest ?w1)) = _ =>
      assert (H : preserves orders rest); [| now rewrite H]
  end.
  frame.
Qed.

(** The inline action on an order that is not pending, or on an unknown
    order: nothing is written, and the only collaborator call is the
    "already taken" answer. *)
Lemma callback_query_conflict q orderId w :
  cq_data q = "take_" ++ orderId ->
  (forall o, order_of orderId w = Some o -> status o <> pending) ->
  callback_query rt oracle q w
  = (bot_answerCallbackQuery oracle (cq_id q) TextAlreadyTaken ;; ret tt) w.
Proof.
  unfold order_of. intros Hd Ho. unfold callback_query.
  rewrite Hd, startsWith_take.
  change (JsString.replace_prefix "take_" ("take_" ++ orderId)) with orderId.
  change (JsString.startsWith ("take_" ++ orderId) "reject_") with false.
  cbv iota.
  match goal with
  | |- bind (bind get ?k) ?k2 w = _ =>
      change (bind (bind get k) k2 w) with (bind (k w) k2 w)
  end.
  cbv beta zeta.
  destruct (map_get String.eqb orderId (orders w)) as [o|]; [|reflexivity].
  specialize (Ho o eq_refl). destruct (status o); [congruence| |]; reflexivity.
Qed.

Lemma photo_after_branch_store key order chatId w :
  orders (snd (photo_after_branch oracle key order chatId w))
  = map_update String.eqb key (with_status completed) (orders w).
Proof.
  unfold photo_after_branch. rewrite bind_modify.
  match goal with
  | |- orders (snd (?rest ?w1)) = _ =>
      assert (H : preserves orders rest); [| now rewrite H]
  end.
  frame.
Qed.

Lemma bind_ok_inv {A C : Type} (m : M A) (k : A -> M C) (w w' : World) (c : C) :
  bind m k w = (Ok c, w') ->
  exists a w1, m w = (Ok a, w1) /\ k a w1 = (Ok c, w').
Proof.
  unfold bind. destruct (m w) as [[a|e] w1]; [|discriminate].
  intros H. now exists a, w1.
Qed.

Lemma bot_getFile_ok fid w path w1 :
  bot_getFile oracle fid w = (Ok path, w1) ->
  path = file_path (oracle (calls w)) /\ orders w1 = orders w.
Proof.
  unfold bot_getFile, bind, await, ret.
  destruct (rejects (oracle (calls w))); [discriminate|].
  intros H. inversion H. split; reflexivity.
Qed.

Lemma find_entry_In {V : Type} (p : V -> bool) (m : list (string * V)) k v :
  find_entry p m = Some (k, v) -> In (k, v) m /\ p v = true.
Proof.
  induction m as [|[k' v'] m IH]; simpl; [discriminate|].
  destruct (p v') eqn:E.
  - intros H. inversion H; subst. auto.
  - intros H. destruct (IH H). auto.
Qed.

(** On a map without repeated keys, the entry that [find] returns is the
    one stored under its key. *)
Lemma find_entry_get {V : Type} (p : V -> bool) (m : list (string * V)) k v :
  NoDup (map fst m) ->
  find_entry p m = Some (k, v) -> map_get String.eqb k m = Some v.
Proof.
  induction m as [|[k' v'] m IH]; simpl; [discriminate|].
  intros Hnd H. inversion Hnd as [|? ? Hnotin Hnd']; subst.
  destruct (p v').
  - inversion H; subst. now rewrite String.eqb_refl.
  - destruct (String.eqb k' k) eqn:E.
    + apply String.eqb_eq in E. subst k'. exfalso. apply Hnotin.
      apply find_entry_In in H. destruct H as [H _].
      apply (in_map fst) in H. exact H.
    + now apply IH.
Qed.

(** The photo handler that runs to its end on an [after] caption has
    recorded the photo and then completed the order it found. *)
Lemma photo_after_store msg key o w w' :
  classify (caption_text msg) = Some After ->
  find_entry (assigned_taken (pm_from msg)) (orders w) = Some (key, o) ->
  photo rt oracle token msg w = (Ok tt, w') ->
  orders w'
  = map_update String.eqb key (with_status completed)
      (map_update String.eqb key
         (with_photo "after" (photo_url token (file_path (oracle (calls w))))) (orders w)).
Proof.
  intros Hc Hf H. unfold photo in H. rewrite Hc in H. cbv zeta in H.
  apply bind_ok_inv in H. destruct H as (path & w1 & Hg & H).
  apply bot_getFile_ok in Hg. destruct Hg as [-> Ho1].
  rewrite bind_get, Ho1, Hf, bind_modify in H.
  apply bind_ok_inv in H. destruct H as ([] & w2 & Hu & H).
  apply bind_ok_inv in H. destruct H as ([] & w3 & Hl & H).
  change (String.eqb (stage_key After) "after") with true in H. cbv iota in H.
  pose proof (photo_after_branch_store key o (pm_chat msg) w3) as Hb.
  rewrite H in Hb. simpl in Hb. rewrite Hb.
  unfold bot_sendMessage_detached, modify in Hl. inversion Hl; subst w3.
  pose proof (updateGoogleSheet_orders oracle (id o)
    [ ("photo_" ++ stage_key After, photo_url token (file_path (oracle (calls w))));
      (stage_key After ++ "_at", toISOString rt (now w1)) ]
    (set_orders (map_update String.eqb key
       (with_photo (stage_key After) (photo_url token (file_path (oracle (calls w)))))) w1))
    as Hu'.
  rewrite Hu in Hu'. simpl in Hu'. simpl. rewrite Hu', Ho1. reflexivity.
Qed.

End Handlers.

Lemma order_of_update_same orderId f w :
  map_get String.eqb orderId (map_update String.eqb orderId f (orders w))
  = option_map f (order_of orderId w).
Proof. apply map_get_update_same. Qed.

(** ** Invariants of the running server *)

Section Invariants.
Context (I : World -> Prop) (HI : data_invariant I).

Lemma maintains_ret {A : Type} (a : A) : maintains I (ret a).
Proof. intros w H; exact H. Qed.

Lemma maintains_throw {A : Type} (e : Err) : maintains I (@throw A e).
Proof. intros w H; exact H. Qed.

Lemma maintains_get : maintains I get.
Proof. intros w H; exact H. Qed.

Lemma maintains_modify (g : World -> World) :
  (forall w, I w -> I (g w)) -> maintains I (modify g).
Proof. intros H w Hw. now apply H. Qed.

Lemma maintains_modify_data (g : World -> World) :
  (forall w, orders (g w) = orders w) -> (forall w, masters (g w) = masters w) ->
  maintains I (modify g).
Proof. intros Ho Hm w Hw. exact (HI w (g w) (Ho w) (Hm w) Hw). Qed.

Lemma maintains_bind {A C : Type} (m : M A) (k : A -> M C) :
  maintains I m -> (forall a, maintains I (k a)) -> maintains I (bind m k).
Proof.
  intros Hm Hk w Hw. unfold bind. specialize (Hm w Hw).
  destruct (m w) as [[a|e] w']; simpl in *.
  - now apply Hk.
  - exact Hm.
Qed.

Lemma maintains_try_catch {A : Type} (m : M A) (g : Err -> A) :
  maintains I m -> maintains I (try_catch m (fun e => ret (g e))).
Proof. intros Hm w Hw. rewrite snd_try_catch. now apply Hm. Qed.

Lemma maintains_await (oracle : nat -> Reply) (c : Call) : maintains I (await oracle c).
Proof.
  intros w Hw. unfold await.
  destruct (rejects (oracle (calls w))); simpl;
    exact (HI w (answered (latency (oracle (calls w))) w) eq_refl eq_refl Hw).
Qed.

End Invariants.

(** A timer callback writes neither to the order map nor to the
    directory. *)
Lemma fire_data i w : orders (fire i w) = orders w /\ masters (fire i w) = masters w.
Proof.
  unfold fire, reminder. destruct (nth_error (timers w) i) as [t|]; [|now split].
  destruct (fires_at t <=? now w); [|now split].
  cbn [orders set_timers].
  destruct (map_get String.eqb (t_order t) (orders w)); now split.
Qed.

Lemma fire_sheet i w : sheet (fire i w) = sheet w.
Proof.
  unfold fire, reminder. destruct (nth_error (timers w) i) as [t|]; [|reflexivity].
  destruct (fires_at t <=? now w); [|reflexivity].
  cbn [orders set_timers].
  destruct (map_get String.eqb (t_order t) (orders w)); reflexivity.
Qed.

Lemma maintains_fire (I : World -> Prop) i w : data_invariant I -> I w -> I (fire i w).
Proof.
  intros HI. destruct (fire_data i w) as [Ho Hm]. exact (HI w (fire i w) Ho Hm).
Qed.

Lemma unique_keys_data : data_invariant unique_keys.
Proof. intros w w' Ho _. unfold unique_keys. now rewrite Ho. Qed.

Lemma completedAt_as_given_data : data_invariant completedAt_as_given.
Proof. intros w w' Ho _. unfold completedAt_as_given. now rewrite Ho. Qed.

Lemma directory_by_string_data : data_invariant directory_by_string.
Proof. intros w w' _ Hm. unfold directory_by_string. now rewrite Hm. Qed.

Lemma map_set_keys {V : Type} (k : string) (v : V) (m : list (string * V)) :
  NoDup (map fst m) -> NoDup (map fst (map_set String.eqb k v m)).
Proof.
  induction m as [|[k' v'] m IH]; simpl; intros H.
  - constructor; [intros [] | constructor].
  - destruct (String.eqb k' k) eqn:E; simpl; [exact H|].
    inversion H as [|? ? Hnotin Hnd]; subst. constructor; [|now apply IH].
    intros Hin. apply Hnotin. clear - Hin E.
    induction m as [|[k2 v2] m IH]; simpl in *.
    + destruct Hin as [->|[]]. rewrite String.eqb_refl in E. discriminate.
    + destruct (String.eqb k2 k); simpl in Hin; [exact Hin|].
      destruct Hin as [->|Hin]; [now left | right; now apply IH].
Qed.

Lemma Forall_map_update {V : Type} (P : string * V -> Prop) k (f : V -> V) m :
  (forall k' v, P (k', v) -> P (k', f v)) ->
  Forall P m -> Forall P (map_update String.eqb k f m).
Proof.
  intros Hf. induction 1 as [|[k' v] m Hx Hm IH]; simpl; [constructor|].
  destruct (String.eqb k' k); constructor; auto.
Qed.

Lemma Forall_map_set {V : Type} (P : string * V -> Prop) k (v : V) m :
  (forall k', P (k', v)) -> Forall P m -> Forall P (map_set String.eqb k v m).
Proof.
  intros Hv. induction 1 as [|[k' v'] m Hx Hm IH]; simpl.
  - constructor; [apply Hv | constructor].
  - destruct (String.eqb k' k); constructor; auto.
Qed.

Lemma string_keys_set (s : string) (chat : Z) (m : list (jsval * Z)) :
  string_keys m -> string_keys (map_set js_eqb (JStr s) chat m).
Proof.
  unfold string_keys. induction m as [|[k' v'] m IH]; simpl; intros H k v Hin.
  - destruct Hin as [Hin|[]]. inversion Hin. now exists s.
  - destruct (js_eqb k' (JStr s)).
    + destruct Hin as [Hin|Hin].
      * inversion Hin; subst. apply (H k v'). now left.
      * apply (H k v). now right.
    + destruct Hin as [Hin|Hin].
      * apply (H k v). now left.
      * refine (IH _ k v Hin). intros k0 v0 H0. apply (H k0 v0). now right.
Qed.

Lemma string_keys_no_number (n : Z) (m : list (jsval * Z)) :
  string_keys m -> map_get js_eqb (JNum n) m = None.
Proof.
  unfold string_keys. induction m as [|[k v] m IH]; simpl; intros H; [reflexivity|].
  destruct (H k v (or_introl eq_refl)) as [s ->]. simpl.
  apply IH. intros k0 v0 H0. apply (H k0 v0). now right.
Qed.

(** Decomposes a computation along its binds and branches; [write] deals
    with the writes to the order map and to the directory. *)
Ltac invariant_with HI write :=
  repeat first
    [ apply maintains_ret
    | apply maintains_throw
    | apply maintains_get
    | apply (maintains_await _ HI)
    | apply (maintains_modify_data _ HI); intros ?; reflexivity
    | apply maintains_modify; intros ? ?; write
    | apply maintains_try_catch
    | apply maintains_bind; [|intros ?]
    | match goal with
      | |- maintains _ (match ?x with _ => _ end) => destruct x
      | |- maintains _ (let _ := _ in _) => cbv zeta
      end ].

Ltac write_keys :=
  unfold unique_keys in *; simpl;
  first [ rewrite map_update_keys; assumption | apply map_set_keys; assumption ].

Ltac write_completedAt :=
  unfold completedAt_as_given in *; simpl;
  first [ apply Forall_map_update; [intros ? ? Hx; exact Hx | assumption]
        | apply Forall_map_set; [intros ?; reflexivity | assumption] ].

Ltac write_directory :=
  unfold directory_by_string in *; simpl;
  first [ assumption | apply string_keys_set; assumption ].

(** Turns a goal about [handle] into one about the handler it runs. *)
Ltac as_maintains w :=
  revert w;
  match goal with
  | |- forall w, ?I w -> ?I (snd (?m w)) => change (maintains I m)
  end;
  unfold create_order, take_order, upload_photo, start, callback_query, photo.

Section Reachable.
Context (rt : JsRuntime) (oracle : nat -> Reply) (token : string).

Lemma handle_unique_keys e w :
  unique_keys w -> unique_keys (handle rt oracle token e w).
Proof.
  destruct e; cbn [handle]; try (intros H; exact H);
    try (apply maintains_fire; exact unique_keys_data); as_maintains w;
    invariant_with unique_keys_data write_keys.
Qed.

Lemma handle_completedAt_as_given e w :
  completedAt_as_given w -> completedAt_as_given (handle rt oracle token e w).
Proof.
  destruct e; cbn [handle]; try (intros H; exact H);
    try (apply maintains_fire; exact completedAt_as_given_data); as_maintains w;
    invariant_with completedAt_as_given_data write_completedAt.
Qed.

Lemma handle_directory_by_string e w :
  directory_by_string w -> directory_by_string (handle rt oracle token e w).
Proof.
  destruct e; cbn [handle]; try (intros H; exact H);
    try (apply maintains_fire; exact directory_by_string_data); as_maintains w;
    invariant_with directory_by_string_data write_directory.
Qed.

Lemma run_invariant (I : World -> Prop) :
  (forall e w, I w -> I (handle rt oracle token e w)) ->
  forall es w, I w -> I (run rt oracle token es w).
Proof.
  intros Hstep es. unfold run. induction es as [|e es IH]; simpl; intros w Hw.
  - exact Hw.
  - apply IH. now apply Hstep.
Qed.

(** From start-up on: keys are unique, the completion time of an order
    is the one its body carried, and the directory is keyed by strings. *)
Lemma reachable_invariants es sh t :
  let w := run rt oracle token es (boot sh t) in
  unique_keys w /\ completedAt_as_given w /\ directory_by_string w.
Proof.
  intros w. subst w. repeat split.
  - apply (run_invariant unique_keys); [exact handle_unique_keys |]. constructor.
  - apply (run_invariant completedAt_as_given); [exact handle_completedAt_as_given |]. constructor.
  - apply (run_invariant directory_by_string); [exact handle_directory_by_string |].
    intros k v [].
Qed.

End Reachable.

(** ** Claiming *)

(** C1.  The take-order endpoint has no status test.  In the run below an
    order already taken by worker ["42"] is claimed again through the API by
    worker ["43"]: the endpoint answers success when its collaborators
    resolve, and a 500 when the second retraction of the offer rejects; in
    both cases the order now belongs to ["43"] with a new [takenAt].  The
    inline action, on the same taken order, answers "already taken" and
    writes nothing. *)
Theorem api_claim_on_taken_order_reassigns :
  option_map status (order_of "CLN-1000" Demo.w_taken_api) = Some taken
  /\ option_map masterId (order_of "CLN-1000" Demo.w_taken_api) = Some (JStr "42")
  /\ (let r := take_order Demo.rt Demo.calm "CLN-1000" (JStr "43") "Oleg" Demo.w_taken_api in
      fst r = Ok Success
      /\ option_map masterId (order_of "CLN-1000" (snd r)) = Some (JStr "43")
      /\ option_map takenAt (order_of "CLN-1000" (snd r))
         <> option_map takenAt (order_of "CLN-1000" Demo.w_taken_api))
  /\ (let r := take_order Demo.rt (Demo.failing 5) "CLN-1000" (JStr "43") "Oleg"
                 Demo.w_taken_api in
      fst r = Ok (ServerError (Rejected BotDeleteMessage))
      /\ option_map masterId (order_of "CLN-1000" (snd r)) = Some (JStr "43"))
  /\ (let r := callback_query Demo.rt Demo.calm (Demo.tap 43 "Oleg") Demo.w_taken_api in
      orders (snd r) = orders Demo.w_taken_api
      /\ outbox (snd r)
         = (outbox Demo.w_taken_api ++ [Answered "q" TextAlreadyTaken])%list).
Proof.
  vm_compute. repeat split; try reflexivity. discriminate.
Qed.

(** C2.  The status does not only move forward.  In the run below the order
    goes pending, taken, completed through creation, the inline claim and the
    [после] photo, and a take-order request then sets the completed order
    back to taken. *)
Theorem api_claim_reopens_completed_order :
  option_map status (order_of "CLN-1000" Demo.w_pending) = Some pending
  /\ option_map status (order_of "CLN-1000" Demo.w_taken_inline) = Some taken
  /\ option_map status (order_of "CLN-1000" Demo.w_completed) = Some completed
  /\ (let r := take_order Demo.rt Demo.calm "CLN-1000" (JStr "43") "Oleg" Demo.w_completed in
      fst r = Ok Success
      /\ option_map status (order_of "CLN-1000" (snd r)) = Some taken).
Proof.
  vm_compute. repeat split; reflexivity.
Qed.

(** The defect behind C1 and C2 in general: whatever the status of a stored
    order, the take-order endpoint writes the claim. *)
Lemma take_order_overwrites rt oracle orderId m n o w :
  order_of orderId w = Some o ->
  order_of orderId (snd (take_order rt oracle orderId m n w))
  = Some (with_claim m n (now w) o).
Proof.
  intros Ho. unfold order_of at 1. rewrite (take_order_store rt oracle orderId m n o w Ho).
  rewrite order_of_update_same, Ho. reflexivity.
Qed.

(** The inline action, for its part, is guarded: on an order that is not
    pending it leaves the order map as it is. *)
Lemma callback_query_guarded rt oracle q orderId w :
  cq_data q = "take_" ++ orderId ->
  (forall o, order_of orderId w = Some o -> status o <> pending) ->
  orders (snd (callback_query rt oracle q w)) = orders w.
Proof.
  intros Hd Ho. rewrite (callback_query_conflict rt oracle q orderId w Hd Ho).
  assert (H : preserves orders
                (bot_answerCallbackQuery oracle (cq_id q) TextAlreadyTaken ;; ret tt))
    by frame.
  apply H.
Qed.

(** Of the taps on the offer of a pending order, the first one claims it
    and every later one is refused: the order map after all of them is the
    map after the first. *)
Lemma inline_claims_exactly_once rt oracle token q qs orderId o w :
  Forall (fun q' => cq_data q' = "take_" ++ orderId) (q :: qs) ->
  order_of orderId w = Some o ->
  status o = pending ->
  orders (run rt oracle token (map Callback (q :: qs)) w)
  = map_update String.eqb orderId
      (with_claim (JNum (cq_from q)) (cq_first_name q) (now w)) (orders w).
Proof.
  intros Hall Ho Hs. inversion Hall as [|? ? Hq Hqs]; subst.
  unfold run. cbn [map fold_left handle].
  rewrite <- (callback_query_claims rt oracle q orderId o w Hq Ho Hs).
  set (w1 := snd (callback_query rt oracle q w)).
  assert (H1 : forall o1, order_of orderId w1 = Some o1 -> status o1 <> pending).
  { intros o1. unfold order_of, w1.
    rewrite (callback_query_claims rt oracle q orderId o w Hq Ho Hs).
    rewrite order_of_update_same, Ho. cbn. intros E. inversion E. discriminate. }
  clearbody w1. clear - Hqs H1. revert w1 H1.
  induction Hqs as [|q' qs Hq' Hqs IH]; intros w1 H1; [reflexivity|].
  cbn [map fold_left handle].
  pose proof (callback_query_guarded rt oracle q' orderId w1 Hq' H1) as Hsame.
  rewrite IH.
  - exact Hsame.
  - intros o2. unfold order_of. rewrite Hsame. apply H1.
Qed.

(** ** Recording photos *)

Lemma upload_photo_result rt oracle orderId type photoUrl o w :
  order_of orderId w = Some o ->
  order_of orderId (snd (upload_photo rt oracle orderId type photoUrl w))
  = Some (with_photo type photoUrl o).
Proof.
  intros Ho. unfold order_of at 1.
  rewrite (upload_photo_store rt oracle orderId type photoUrl o w Ho).
  rewrite order_of_update_same, Ho. reflexivity.
Qed.

Lemma upload_photo_other_orders rt oracle orderId type photoUrl o other w :
  order_of orderId w = Some o ->
  other <> orderId ->
  order_of other (snd (upload_photo rt oracle orderId type photoUrl w))
  = order_of other w.
Proof.
  intros Ho Hne. unfold order_of at 1.
  rewrite (upload_photo_store rt oracle orderId type photoUrl o w Ho).
  now apply map_get_update_other.
Qed.

(** *** Assignments to [order.photos] *)

Lemma obj_get_set_same key value obj : obj_get key (obj_set key value obj) = Some value.
Proof.
  induction obj as [|[k v] obj IH]; simpl.
  - now rewrite String.eqb_refl.
  - destruct (String.eqb k key) eqn:E; simpl; rewrite E; auto.
Qed.

Lemma obj_get_set_other key key' value obj :
  key' <> key -> obj_get key' (obj_set key value obj) = obj_get key' obj.
Proof.
  intros Hne. induction obj as [|[k v] obj IH]; simpl.
  - destruct (String.eqb key key') eqn:E; [|reflexivity].
    apply String.eqb_eq in E. congruence.
  - destruct (String.eqb k key) eqn:E; simpl.
    + apply String.eqb_eq in E. subst k.
      destruct (String.eqb key key') eqn:E2; [|reflexivity].
      apply String.eqb_eq in E2. congruence.
    + destruct (String.eqb k key'); auto.
Qed.

Lemma obj_set_keys_same key value value' obj :
  map fst (obj_set key value' (obj_set key value obj)) = map fst (obj_set key value obj).
Proof.
  induction obj as [|[k v] obj IH]; simpl.
  - now rewrite String.eqb_refl.
  - destruct (String.eqb k key) eqn:E; simpl; rewrite E; simpl; [reflexivity|].
    now rewrite IH.
Qed.

(** Any key but [__proto__] is written as an own property. *)
Lemma assign_plain key value obj :
  key <> "__proto__" -> assign key value obj = obj_set key value obj.
Proof.
  intros Hne. unfold assign.
  destruct (String.eqb key "__proto__") eqn:E; [|reflexivity].
  apply String.eqb_eq in E. congruence.
Qed.

(** An own property stays under every later assignment. *)
Lemma assign_keeps key key' value obj v :
  obj_get key' obj = Some v -> exists v', obj_get key' (assign key value obj) = Some v'.
Proof.
  intros H. unfold assign.
  destruct (String.eqb key "__proto__" && negb (has_own key obj)); [now exists v|].
  destruct (String.eqb key key') eqn:E.
  - apply String.eqb_eq in E. subst key'. exists value. apply obj_get_set_same.
  - exists v. rewrite obj_get_set_other; [exact H|].
    intros ->. now rewrite String.eqb_refl in E.
Qed.

(** On photos that are absent or an object, a key other than [__proto__]
    holds the address after the assignment. *)
Lemma record_photo_stored key url p :
  key <> "__proto__" -> p <> PrimitivePhotos ->
  exists entries,
    record_photo key url p = PhotoObject entries /\ obj_get key entries = Some url.
Proof.
  intros Hk Hp. destruct p as [| |entries]; [|congruence|]; cbn [record_photo];
    rewrite (assign_plain _ _ _ Hk); eexists; (split; [reflexivity|]);
    apply obj_get_set_same.
Qed.

(** C3.  The upload-photo endpoint has no test of the status.  On the
    pending order of the running example, and on the completed one, it
    answers success and writes the photo on the order; the photo handler,
    which looks for a taken order of the sender, leaves both orders as they
    are. *)
Theorem upload_photo_on_pending_and_completed_records :
  (option_map status (order_of "CLN-1000" Demo.w_pending) = Some pending
   /\ option_map photos (order_of "CLN-1000" Demo.w_pending) = Some NoPhotos
   /\ (let r := upload_photo Demo.rt Demo.calm "CLN-1000" "before" "http://x/1.jpg"
                  Demo.w_pending in
       fst r = Ok Success
       /\ option_map photos (order_of "CLN-1000" (snd r))
          = Some (PhotoObject [("before", "http://x/1.jpg")]))
   /\ orders (snd (photo Demo.rt Demo.calm Demo.TOKEN (Demo.snap 42 "до") Demo.w_pending))
      = orders Demo.w_pending)
  /\ (option_map status (order_of "CLN-1000" Demo.w_completed) = Some completed
      /\ (let r := upload_photo Demo.rt Demo.calm "CLN-1000" "before" "http://x/1.jpg"
                     Demo.w_completed in
          fst r = Ok Success
          /\ option_map photos (order_of "CLN-1000" (snd r))
             = Some (PhotoObject
                       [("after", "https://api.telegram.org/file/botTOKEN/photos/file.jpg");
                        ("before", "http://x/1.jpg")])
          /\ option_map photos (order_of "CLN-1000" (snd r))
             <> option_map photos (order_of "CLN-1000" Demo.w_completed))
      /\ orders (snd (photo Demo.rt Demo.calm Demo.TOKEN (Demo.snap 42 "до")
                        Demo.w_completed))
         = orders Demo.w_completed).
Proof.
  vm_compute. repeat split; try reflexivity. discriminate.
Qed.

(** Counterexample to C4 as stated: on a taken order the upload-photo
    endpoint with stage [after] stores the photo and leaves the order taken;
    the photo handler completes the order but records no [completedAt]. *)
Lemma after_photo_without_completion :
  (option_map status (order_of "CLN-1000" Demo.w_taken_inline) = Some taken
   /\ let r := upload_photo Demo.rt Demo.calm "CLN-1000" "after" "http://x/1.jpg"
                 Demo.w_taken_inline in
      fst r = Ok Success
      /\ option_map photos (order_of "CLN-1000" (snd r))
         = Some (PhotoObject [("after", "http://x/1.jpg")])
      /\ option_map status (order_of "CLN-1000" (snd r)) = Some taken
      /\ option_map completedAt (order_of "CLN-1000" (snd r)) = Some None)
  /\ (let r := photo Demo.rt Demo.calm Demo.TOKEN (Demo.snap 42 "после")
                 Demo.w_taken_inline in
      fst r = Ok tt
      /\ option_map status (order_of "CLN-1000" (snd r)) = Some completed
      /\ option_map completedAt (order_of "CLN-1000" (snd r)) = Some None).
Proof.
  vm_compute. repeat split; reflexivity.
Qed.

(** C4, amended.  When the photo handler runs to its end on a caption
    classified [after], the order it found for the sender (the first taken
    order, in insertion order, whose [masterId] is the sender's numeric
    identity) has the status completed, set in that run, and the completion
    time it had before.  Unless [order.photos] is a truthy primitive that
    came with the body of the order, the address of the photo is stored
    under [after] in the same run; such a primitive stays as it is. *)
Theorem after_photo_completion
  (rt : JsRuntime) (oracle : nat -> Reply) (token : string)
  (msg : PhotoMessage) (key : string) (o : Order) (w w' : World) :
  NoDup (map fst (orders w)) ->
  classify (caption_text msg) = Some After ->
  find_entry (assigned_taken (pm_from msg)) (orders w) = Some (key, o) ->
  photo rt oracle token msg w = (Ok tt, w') ->
  status o = taken
  /\ exists o', order_of key w' = Some o'
       /\ status o' = completed
       /\ completedAt o' = completedAt o
       /\ (photos o <> PrimitivePhotos ->
           exists entries,
             photos o' = PhotoObject entries
             /\ obj_get "after" entries
                = Some (photo_url token (file_path (oracle (calls w)))))
       /\ (photos o = PrimitivePhotos -> photos o' = PrimitivePhotos).
Proof.
  intros Hnd Hc Hf Hrun. split.
  - apply find_entry_In in Hf. destruct Hf as [_ Hp].
    unfold assigned_taken in Hp. apply andb_prop in Hp. destruct Hp as [_ Hp].
    destruct (status o); try discriminate; reflexivity.
  - pose proof (find_entry_get _ _ _ _ Hnd Hf) as Hget.
    exists (with_status completed
              (with_photo "after" (photo_url token (file_path (oracle (calls w)))) o)).
    split.
    + unfold order_of.
      rewrite (photo_after_store rt oracle token msg key o w w' Hc Hf Hrun).
      rewrite !map_get_update_same, Hget. reflexivity.
    + split; [reflexivity|]. split; [reflexivity|].
      cbn [photos with_status with_photo]. split.
      * intros Hp. apply record_photo_stored; [discriminate | exact Hp].
      * intros ->. reflexivity.
Qed.

Lemma after_photo_completion_witness :
  NoDup (map fst (orders Demo.w_taken_inline))
  /\ classify (caption_text (Demo.snap 42 "после")) = Some After
  /\ exists o',
       order_of "CLN-1000" Demo.w_completed = Some o'
       /\ status o' = completed
       /\ exists entries,
            photos o' = PhotoObject entries
            /\ obj_get "after" entries
               = Some "https://api.telegram.org/file/botTOKEN/photos/file.jpg".
Proof.
  assert (Hnd : NoDup (map fst (orders Demo.w_taken_inline))).
  { vm_compute. constructor; [intros [] | constructor]. }
  assert (Hc : classify (caption_text (Demo.snap 42 "после")) = Some After)
    by (vm_compute; reflexivity).
  split; [exact Hnd|]. split; [exact Hc|].
  destruct (find_entry (assigned_taken 42) (orders Demo.w_taken_inline)) as [[k o]|] eqn:Hf;
    [| vm_compute in Hf; discriminate].
  assert (Hk : k = "CLN-1000") by (vm_compute in Hf; injection Hf as <- _; reflexivity).
  assert (Hp : photos o <> PrimitivePhotos)
    by (vm_compute in Hf; injection Hf as _ <-; discriminate).
  subst k.
  destruct (after_photo_completion Demo.rt Demo.calm Demo.TOKEN (Demo.snap 42 "после")
              "CLN-1000" o Demo.w_taken_inline Demo.w_completed Hnd Hc Hf)
    as [_ [o' [Ho' [Hs [_ [Hstored _]]]]]].
  - vm_compute; reflexivity.
  - exists o'. split; [exact Ho'|]. split; [exact Hs|].
    destruct (Hstored Hp) as [entries [He Hg]]. exists entries. split; [exact He|].
    rewrite Hg. vm_compute. reflexivity.
Defined.

(** ** Ledger failures *)

Lemma order_get_set_same {V : Type} (k : string) (v : V) (m : list (string * V)) :
  map_get String.eqb k (map_set String.eqb k v m) = Some v.
Proof.
  induction m as [|[k' v'] m IH]; simpl.
  - now rewrite String.eqb_refl.
  - destruct (String.eqb k' k) eqn:E; simpl; rewrite E; auto.
Qed.

Lemma order_of_set_update orderId (v : Order) (f : Order -> Order) (w : World) :
  map_get String.eqb orderId
    (map_update String.eqb orderId f (map_set String.eqb orderId v (orders w)))
  = Some (f v).
Proof. rewrite map_get_update_same, order_get_set_same. reflexivity. Qed.

Lemma bind_ok {A C : Type} (m : M A) (k : A -> M C) (w w1 : World) (a : A) :
  m w = (Ok a, w1) -> bind m k w = k a w1.
Proof. intros H. unfold bind. now rewrite H. Qed.

Lemma bind_thrown {A C : Type} (m : M A) (k : A -> M C) (w w1 : World) (e : Err) :
  m w = (Throw e, w1) -> bind m k w = (Throw e, w1).
Proof. intros H. unfold bind. now rewrite H. Qed.

Lemma await_ok oracle c w :
  rejects (oracle (calls w)) = false ->
  await oracle c w = (Ok (oracle (calls w)), answered (latency (oracle (calls w))) w).
Proof. intros H. unfold await. now rewrite H. Qed.

Lemma await_rejected oracle c w :
  rejects (oracle (calls w)) = true ->
  await oracle c w = (Throw (Rejected c), answered (latency (oracle (calls w))) w).
Proof. intros H. unfold await. now rewrite H. Qed.

Lemma bot_sendMessage_ok oracle target m w :
  rejects (oracle (calls w)) = false ->
  bot_sendMessage oracle target m w
  = (Ok (oracle (calls w)),
     log (Sent target m) (answered (latency (oracle (calls w))) w)).
Proof.
  intros H. unfold bot_sendMessage. rewrite (bind_ok _ _ _ _ _ (await_ok oracle _ w H)).
  reflexivity.
Qed.

Lemma bot_sendMessage_rejected oracle target m w :
  rejects (oracle (calls w)) = true ->
  bot_sendMessage oracle target m w
  = (Throw (Rejected BotSendMessage), answered (latency (oracle (calls w))) w).
Proof.
  intros H. unfold bot_sendMessage.
  now rewrite (bind_thrown _ _ _ _ _ (await_rejected oracle _ w H)).
Qed.

(** The row that create-order appends. *)
Lemma saveToGoogleSheets_ok rt oracle orderData orderId st w :
  rejects (oracle (calls w)) = false ->
  exists row,
    saveToGoogleSheets rt oracle orderData orderId st w
    = (Ok tt, set_sheet (fun sh => (sh ++ [row])%list)
                (answered (latency (oracle (calls w))) w))
    /\ nth_error row 1 = Some orderId
    /\ nth_error row COL_K = Some (status_str st).
Proof.
  intros H. unfold saveToGoogleSheets. rewrite bind_get.
  rewrite (bind_ok _ _ _ _ _ (await_ok oracle _ w H)).
  eexists. split; [reflexivity|]. split; reflexivity.
Qed.

Lemma saveToGoogleSheets_rejected rt oracle orderData orderId st w :
  rejects (oracle (calls w)) = true ->
  saveToGoogleSheets rt oracle orderData orderId st w
  = (Throw (Rejected SheetsAppend), answered (latency (oracle (calls w))) w).
Proof.
  intros H. unfold saveToGoogleSheets. rewrite bind_get.
  now rewrite (bind_thrown _ _ _ _ _ (await_rejected oracle _ w H)).
Qed.

Lemma bot_getFile_run (oracle : nat -> Reply) file_id w :
  bot_getFile oracle file_id w
  = (if rejects (oracle (calls w)) then Throw (Rejected BotGetFile)
     else Ok (file_path (oracle (calls w))),
     answered (latency (oracle (calls w))) w).
Proof.
  unfold bot_getFile, bind, await. destruct (rejects (oracle (calls w))); reflexivity.
Qed.

Lemma preserves_run_eq {A B : Type} (f : World -> B) (m : M A) (w w' : World) (r : Res A) :
  preserves f m -> m w = (r, w') -> f w' = f w.
Proof. intros H E. specialize (H w). now rewrite E in H. Qed.

Lemma created_pending_data orderId orderData t :
  data_invariant (created_pending orderId orderData t).
Proof. intros w w' Ho _. unfold created_pending. now rewrite Ho. Qed.

Ltac write_created :=
  idtac;
  match goal with
  | H : created_pending _ _ _ _ |- _ =>
      let o := fresh "o" in
      let Ho := fresh "Ho" in
      destruct H as (o & Ho & [-> | (? & ? & ->)]);
      unfold created_pending, freshly_created; cbn [orders set_orders];
      rewrite map_get_update_same, Ho; cbn [option_map];
      eexists; (split; [reflexivity|]); right; do 2 eexists; reflexivity
  end.

(** Create-order stores the new order first; whatever happens next, the
    map holds it as it was written, with or without the ids of the offer. *)
Lemma create_order_stores rt oracle orderData w :
  created_pending ("CLN-" ++ num_toString (now w)) orderData (now w)
    (snd (create_order rt oracle orderData w)).
Proof.
  unfold create_order. rewrite snd_try_catch, bind_get, bind_modify.
  match goal with
  | |- created_pending ?k ?d ?t (snd (?rest ?w1)) =>
      assert (H : maintains (created_pending k d t) rest); [| apply H]
  end.
  - unfold saveToGoogleSheets.
    invariant_with (created_pending_data ("CLN-" ++ num_toString (now w)) orderData (now w))
      write_created.
  - unfold created_pending. cbn [orders set_orders]. rewrite order_get_set_same.
    eexists. split; [reflexivity|]. now left.
Qed.






(** ** Reminders *)

(** Counterexample to C5 as stated: a worker who is not in the directory
    claims through the API; the claim succeeds and no timer is armed. *)
Lemma claim_by_unregistered_worker_arms_nothing :
  masters Demo.w_pending = []
  /\ let r := take_order Demo.rt Demo.calm "CLN-1000" (JStr "42") "Petr" Demo.w_pending in
     fst r = Ok Success
     /\ option_map status (order_of "CLN-1000" (snd r)) = Some taken
     /\ timers (snd r) = [].
Proof.
  vm_compute. repeat split; reflexivity.
Qed.

(** C5, amended.  [scheduleNotifications], for an order with a parsed job
    time [T], looks the order's [masterId] up in the directory.  With a
    non-zero address it arms exactly two timers for that address, with
    delays [T - 24h - now] and [T - 2h - now]; a timer whose time is not
    after the present fires 1 ms after arming, and one whose delay is within
    the 32-bit timer range fires at [T - 24h], respectively [T - 2h].
    Without an address it arms nothing. *)
Theorem scheduleNotifications_arms_two
  (rt : JsRuntime) (orderId date time : string) (o : Order) (T : Z) (w : World) :
  order_of orderId w = Some o ->
  Date_parse rt (date ++ "T" ++ time) = Some T ->
  match map_get js_eqb (masterId o) (masters w) with
  | Some chat =>
      if truthy chat then
        exists t24 t2,
          scheduleNotifications rt orderId date time w
          = (Ok tt, add_timer t2 (add_timer t24 w))
          /\ (t_chat t24 = chat /\ t_kind t24 = Reminder24h /\ t_order t24 = orderId)
          /\ (t_chat t2 = chat /\ t_kind t2 = Reminder2h /\ t_order t2 = orderId)
          /\ t_delay t24 = Some (T - 24 * 60 * 60 * 1000 - now w)
          /\ t_delay t2 = Some (T - 2 * 60 * 60 * 1000 - now w)
          /\ (T - 24 * 60 * 60 * 1000 <= now w -> fires_at t24 = now w + 1)
          /\ (T - 2 * 60 * 60 * 1000 <= now w -> fires_at t2 = now w + 1)
          /\ (now w < T - 24 * 60 * 60 * 1000 <= now w + TIMEOUT_MAX ->
              fires_at t24 = T - 24 * 60 * 60 * 1000)
          /\ (now w < T - 2 * 60 * 60 * 1000 <= now w + TIMEOUT_MAX ->
              fires_at t2 = T - 2 * 60 * 60 * 1000)
      else scheduleNotifications rt orderId date time w = (Ok tt, w)
  | None => scheduleNotifications rt orderId date time w = (Ok tt, w)
  end.
Proof.
  unfold order_of. intros Ho HT.
  destruct (map_get js_eqb (masterId o) (masters w)) as [chat|] eqn:Hm.
  - destruct (truthy chat) eqn:Ht.
    + exists {| t_chat := chat; t_kind := Reminder24h; t_order := orderId;
                t_delay := Some (T - 24 * 60 * 60 * 1000 - now w); t_armedAt := now w |},
             {| t_chat := chat; t_kind := Reminder2h; t_order := orderId;
                t_delay := Some (T - 2 * 60 * 60 * 1000 - now w); t_armedAt := now w |}.
      split.
      * unfold scheduleNotifications. rewrite bind_get, Ho, Hm, Ht, HT. reflexivity.
      * unfold fires_at, node_delay, TIMEOUT_MAX. cbn [t_chat t_kind t_order t_delay t_armedAt].
        repeat split.
        -- intros H.
           destruct (T - 24 * 60 * 60 * 1000 - now w <? 1) eqn:E; simpl; [lia|].
           apply Z.ltb_ge in E. lia.
        -- intros H.
           destruct (T - 2 * 60 * 60 * 1000 - now w <? 1) eqn:E; simpl; [lia|].
           apply Z.ltb_ge in E. lia.
        -- intros H.
           destruct (T - 24 * 60 * 60 * 1000 - now w <? 1) eqn:E1;
             [apply Z.ltb_lt in E1; lia|].
           destruct (2147483647 <? T - 24 * 60 * 60 * 1000 - now w) eqn:E2;
             [apply Z.ltb_lt in E2; lia|].
           simpl. lia.
        -- intros H.
           destruct (T - 2 * 60 * 60 * 1000 - now w <? 1) eqn:E1;
             [apply Z.ltb_lt in E1; lia|].
           destruct (2147483647 <? T - 2 * 60 * 60 * 1000 - now w) eqn:E2;
             [apply Z.ltb_lt in E2; lia|].
           simpl. lia.
    + unfold scheduleNotifications. rewrite bind_get, Ho, Hm, Ht. reflexivity.
  - unfold scheduleNotifications. rewrite bind_get, Ho, Hm. reflexivity.
Qed.

Lemma scheduleNotifications_arms_two_witness :
  Date_parse Demo.rt ("2030-01-10" ++ "T" ++ "12:00") = Some 1000000000
  /\ map_get js_eqb (JStr "42") (masters Demo.w_claim_written) = Some 55
  /\ exists t24 t2,
       timers (snd (scheduleNotifications Demo.rt "CLN-1000" "2030-01-10" "12:00"
                      Demo.w_claim_written))
       = [t24; t2]
       /\ t_delay t24 = Some (1000000000 - 24 * 60 * 60 * 1000 - 1010)
       /\ t_delay t2 = Some (1000000000 - 2 * 60 * 60 * 1000 - 1010).
Proof.
  split; [reflexivity|]. split; [reflexivity|].
  pose proof (scheduleNotifications_arms_two Demo.rt "CLN-1000" "2030-01-10" "12:00"
                (with_claim (JStr "42") "Petr" 1010
                   {| body := Demo.job; id := "CLN-1000"; status := pending;
                      createdAt := 1000; telegramMessageId := Some 700;
                      telegramChatId := Some (-100); masterId := JUndef;
                      masterName := None; takenAt := None; completedAt := None;
                      photos := NoPhotos |})
                1000000000 Demo.w_claim_written eq_refl eq_refl) as H.
  change (map_get js_eqb _ (masters Demo.w_claim_written)) with (Some 55) in H.
  change (truthy 55) with true in H. cbv iota in H.
  destruct H as (t24 & t2 & Hrun & _ & _ & H24 & H2 & _).
  exists t24, t2. rewrite Hrun. split; [reflexivity|]. split; [exact H24 | exact H2].
Defined.

(** ** The ledger *)

Lemma findIndex_nil_or_nonneg {A : Type} (p : A -> bool) (l : list A) :
  findIndex p l = -1 \/ 0 <= findIndex p l.
Proof.
  induction l as [|x l IH]; simpl; [now left|].
  destruct (p x); [right; lia|].
  destruct (findIndex p l <? 0) eqn:E; [now left|].
  apply Z.ltb_ge in E. right. lia.
Qed.

Lemma nth_error_put_at (col : nat) (vs row : list string) (j : nat) :
  (j < List.length vs)%nat ->
  nth_error (put_at col vs row) (col + j) = nth_error vs j.
Proof.
  intros Hj. revert row. induction col as [|col IH]; intros row; simpl.
  - now apply nth_error_app1.
  - destruct row; simpl; apply IH.
Qed.

Lemma cell_write_row (r col : nat) (vs : list string) (sh : list (list string)) (j : nat) :
  (j < List.length vs)%nat ->
  cell (write_row r col vs sh) r (col + j) = nth_error vs j.
Proof.
  intros Hj. unfold cell. revert sh. induction r as [|r IH]; intros sh.
  - destruct sh; simpl; now apply nth_error_put_at.
  - destruct sh; simpl; apply IH.
Qed.

(** The ledger routine when the order's row is found and both sheet calls
    resolve. *)
Lemma updateGoogleSheet_writes oracle orderId updates w :
  0 <= findIndex (row_has_id orderId) (map (firstn 2) (sheet w)) ->
  rejects (oracle (calls w)) = false ->
  rejects (oracle (S (calls w))) = false ->
  (List.length updates <= 10)%nat ->
  exists w',
    updateGoogleSheet oracle orderId updates w = (Ok tt, w')
    /\ sheet w'
       = write_row (Z.to_nat (findIndex (row_has_id orderId) (map (firstn 2) (sheet w))))
           COL_K (map snd updates) (sheet w).
Proof.
  intros Hi H1 H2 Hlen.
  unfold updateGoogleSheet, bind, await. rewrite H1.
  cbn [get calls answered sheet].
  destruct (sheet w) as [|row rest] eqn:Hs.
  - simpl in Hi. lia.
  - set (i := findIndex (row_has_id orderId) (map (firstn 2) (row :: rest))) in *.
    replace (0 <? i + 1) with true by (symmetry; apply Z.ltb_lt; lia).
    cbv beta. cbn [calls answered]. rewrite H2.
    rewrite length_map.
    replace (10 <? List.length updates)%nat with false
      by (symmetry; apply Nat.ltb_ge; lia).
    eexists. split; [reflexivity|].
    cbn [modify set_sheet sheet answered]. rewrite Hs.
    replace (i + 1 - 1) with i by lia. reflexivity.
Qed.

(** The row that create-order appends has the status in column K. *)
Lemma saveToGoogleSheets_status_column rt oracle orderData orderId st w :
  rejects (oracle (calls w)) = false ->
  cell (sheet (snd (saveToGoogleSheets rt oracle orderData orderId st w)))
    (List.length (sheet w)) COL_K
  = Some (status_str st).
Proof.
  intros H. unfold saveToGoogleSheets, bind, await, get. rewrite H.
  cbn [modify set_sheet sheet answered snd]. unfold cell.
  rewrite nth_error_app2 by lia. rewrite Nat.sub_diag. reflexivity.
Qed.

(** The sheet after an upload whose ledger calls resolve. *)
Lemma upload_photo_sheet rt oracle orderId type photoUrl o w :
  order_of orderId w = Some o ->
  0 <= findIndex (row_has_id orderId) (map (firstn 2) (sheet w)) ->
  rejects (oracle (calls w)) = false ->
  rejects (oracle (S (calls w))) = false ->
  sheet (snd (upload_photo rt oracle orderId type photoUrl w))
  = write_row (Z.to_nat (findIndex (row_has_id orderId) (map (firstn 2) (sheet w))))
      COL_K [photoUrl; toISOString rt (now w)] (sheet w).
Proof.
  unfold order_of. intros Ho Hi H1 H2. unfold upload_photo.
  rewrite snd_try_catch, bind_get, Ho, bind_modify.
  set (w1 := set_orders (map_update String.eqb orderId (with_photo type photoUrl)) w).
  destruct (updateGoogleSheet_writes oracle orderId
              [ ("photo_" ++ type, photoUrl); (type ++ "_at", toISOString rt (now w)) ]
              w1 Hi H1 H2) as (w2 & Hrun & Hsheet); [simpl; lia|].
  unfold bind at 1. rewrite Hrun.
  match goal with
  | |- sheet (snd (?rest w2)) = _ =>
      assert (H : preserves sheet rest); [| rewrite H]
  end.
  - frame.
  - exact Hsheet.
Qed.

(** C9.  [updateGoogleSheet] writes the values of [updates], in the order
    of its entries, into the cells K, L, ... of the order's row; the keys
    play no part.  For the update issued by the upload-photo endpoint, whose
    first entry is the photo field, the photo address lands in column K,
    the column where create-order wrote the status, and the upload time in
    column L. *)
Theorem ledger_update_is_positional
  (rt : JsRuntime) (oracle : nat -> Reply) (orderId type photoUrl : string)
  (o : Order) (w : World) :
  let row := Z.to_nat (findIndex (row_has_id orderId) (map (firstn 2) (sheet w))) in
  order_of orderId w = Some o ->
  0 <= findIndex (row_has_id orderId) (map (firstn 2) (sheet w)) ->
  rejects (oracle (calls w)) = false ->
  rejects (oracle (S (calls w))) = false ->
  (forall updates j v,
      (List.length updates <= 10)%nat ->
      nth_error (map snd updates) j = Some v ->
      cell (sheet (snd (updateGoogleSheet oracle orderId updates w))) row (COL_K + j)
      = Some v)
  /\ (forall updates updates',
        (List.length updates <= 10)%nat ->
        map snd updates' = map snd updates ->
        sheet (snd (updateGoogleSheet oracle orderId updates' w))
        = sheet (snd (updateGoogleSheet oracle orderId updates w)))
  /\ cell (sheet (snd (upload_photo rt oracle orderId type photoUrl w))) row COL_K
     = Some photoUrl
  /\ cell (sheet (snd (upload_photo rt oracle orderId type photoUrl w))) row (COL_K + 1)
     = Some (toISOString rt (now w))
  /\ (forall orderData st w0,
        rejects (oracle (calls w0)) = false ->
        cell (sheet (snd (saveToGoogleSheets rt oracle orderData orderId st w0)))
          (List.length (sheet w0)) COL_K
        = Some (status_str st)).
Proof.
  intros row Ho Hi H1 H2.
  assert (Hgen : forall updates j v,
      (List.length updates <= 10)%nat ->
      nth_error (map snd updates) j = Some v ->
      cell (sheet (snd (updateGoogleSheet oracle orderId updates w))) row (COL_K + j)
      = Some v).
  { intros updates j v Hlen Hj.
    destruct (updateGoogleSheet_writes oracle orderId updates w Hi H1 H2 Hlen)
      as (w' & Hrun & Hsheet).
    rewrite Hrun. cbn [snd]. rewrite Hsheet. fold row.
    rewrite cell_write_row; [exact Hj|].
    apply nth_error_Some. congruence. }
  split; [exact Hgen|]. split; [|split; [|split]].
  - intros updates updates' Hlen Heq.
    assert (Hlen' : (List.length updates' <= 10)%nat).
    { rewrite <- (length_map snd), Heq, length_map. exact Hlen. }
    destruct (updateGoogleSheet_writes oracle orderId updates w Hi H1 H2 Hlen)
      as (w1 & Hrun1 & Hs1).
    destruct (updateGoogleSheet_writes oracle orderId updates' w Hi H1 H2 Hlen')
      as (w2 & Hrun2 & Hs2).
    rewrite Hrun1, Hrun2. cbn [snd]. rewrite Hs1, Hs2, Heq. reflexivity.
  - rewrite (upload_photo_sheet rt oracle orderId type photoUrl o w Ho Hi H1 H2).
    fold row.
    pose proof (cell_write_row row COL_K [photoUrl; toISOString rt (now w)] (sheet w) 0)
      as Hc.
    rewrite Nat.add_0_r in Hc. apply Hc. simpl; lia.
  - rewrite (upload_photo_sheet rt oracle orderId type photoUrl o w Ho Hi H1 H2).
    fold row. rewrite cell_write_row; [reflexivity | simpl; lia].
  - intros orderData st w0 H0. now apply saveToGoogleSheets_status_column.
Qed.

Lemma ledger_update_is_positional_witness :
  order_of "CLN-1000" Demo.w_taken_api <> None
  /\ cell (sheet Demo.w_taken_api) 1 COL_K = Some "taken"
  /\ cell (sheet (snd (upload_photo Demo.rt Demo.calm "CLN-1000" "before" "http://x/1.jpg"
                         Demo.w_taken_api))) 1 COL_K
     = Some "http://x/1.jpg".
Proof.
  split; [vm_compute; discriminate|]. split; [vm_compute; reflexivity|].
  destruct (ledger_update_is_positional Demo.rt Demo.calm "CLN-1000" "before"
              "http://x/1.jpg"
              (with_claim (JStr "42") "Petr" 1010
                 {| body := Demo.job; id := "CLN-1000"; status := pending;
                    createdAt := 1000; telegramMessageId := Some 700;
                    telegramChatId := Some (-100); masterId := JUndef;
                    masterName := None; takenAt := None; completedAt := None;
                    photos := NoPhotos |})
              Demo.w_taken_api) as (_ & _ & H & _).
  - vm_compute; reflexivity.
  - vm_compute; discriminate.
  - reflexivity.
  - reflexivity.
  - exact H.
Defined.

(** ** The directory key and the inline claim *)

Lemma store_part_core : store_part core.
Proof. split; reflexivity. Qed.

#[local] Hint Resolve store_part_core : frame.

Lemma bind_core {A C : Type} (m : M A) (k : A -> M C) (w : World) :
  preserves core m ->
  (forall a w1, core w1 = core w -> core (snd (k a w1)) = core w1) ->
  core (snd (bind m k w)) = core w.
Proof.
  intros Hm Hk. unfold bind. specialize (Hm w).
  destruct (m w) as [[a|e] w1]; simpl in *; [|exact Hm].
  rewrite (Hk a w1 Hm). exact Hm.
Qed.

Lemma bind_pointwise {A C B : Type} (g : World -> B) (m : M A) (k : A -> M C) (w : World) :
  g (snd (m w)) = g w -> (forall a, preserves g (k a)) -> g (snd (bind m k w)) = g w.
Proof.
  intros Hm Hk. unfold bind.
  destruct (m w) as [[a|e] w1]; simpl in *; [|exact Hm].
  rewrite Hk. exact Hm.
Qed.

Lemma js_eqb_refl (k : jsval) : js_eqb k k = true.
Proof.
  destruct k; simpl; [reflexivity | apply Z.eqb_refl | apply String.eqb_refl].
Qed.

Lemma map_get_set_same {V : Type} (k : jsval) (v : V) (m : list (jsval * V)) :
  map_get js_eqb k (map_set js_eqb k v m) = Some v.
Proof.
  induction m as [|[k' v'] m IH]; simpl.
  - now rewrite js_eqb_refl.
  - destruct (js_eqb k' k) eqn:E; simpl; rewrite E; auto.
Qed.

(** With a numeric [masterId] on the order and a directory keyed by
    strings, the lookup fails and nothing is armed. *)
Lemma scheduleNotifications_numeric_id rt orderId date time o n w :
  string_keys (masters w) ->
  order_of orderId w = Some o ->
  masterId o = JNum n ->
  scheduleNotifications rt orderId date time w = (Ok tt, w).
Proof.
  unfold order_of. intros Hk Ho Hn. unfold scheduleNotifications.
  rewrite bind_get, Ho, Hn, (string_keys_no_number n _ Hk). reflexivity.
Qed.

Lemma callback_query_timers rt oracle q w :
  string_keys (masters w) ->
  timers (snd (callback_query rt oracle q w)) = timers w.
Proof.
  intros Hk. unfold callback_query. cbv zeta.
  apply bind_pointwise; [| intros a; frame].
  destruct (JsString.startsWith (cq_data q) "take_"); [|reflexivity].
  set (orderId := JsString.replace_prefix "take_" (cq_data q)).
  rewrite bind_get.
  destruct (map_get String.eqb orderId (orders w)) as [o|] eqn:Ho.
  2:{ assert (H : preserves timers
                    (bot_answerCallbackQuery oracle (cq_id q) TextAlreadyTaken)) by frame.
      apply H. }
  destruct (status_eqb (status o) pending).
  2:{ assert (H : preserves timers
                    (bot_answerCallbackQuery oracle (cq_id q) TextAlreadyTaken)) by frame.
      apply H. }
  rewrite bind_modify.
  set (w0 := set_orders (map_update String.eqb orderId
                (with_claim (JNum (cq_from q)) (cq_first_name q) (now w))) w).
  assert (Hcore : forall (m : M unit), 
            core (snd (m w0)) = core w0 -> timers (snd (m w0)) = timers w).
  { intros m H. unfold core in H. inversion H. reflexivity. }
  apply Hcore.
  apply bind_core; [frame|]. intros _ w1 H1.
  apply bind_core; [frame|]. intros _ w2 H2.
  apply bind_core; [unfold updateGoogleSheet; frame|]. intros _ w3 H3.
  apply bind_core; [frame|]. intros _ w4 H4.
  assert (H : core w4 = core w0) by congruence.
  unfold core in H. inversion H as [[Ho4 Hm4 Ht4]].
  rewrite (scheduleNotifications_numeric_id rt orderId _ _
             (with_claim (JNum (cq_from q)) (cq_first_name q) (now w) o)
             (cq_from q) w4); try reflexivity.
  - rewrite Hm4. exact Hk.
  - unfold order_of. rewrite Ho4. unfold w0. simpl.
    rewrite map_get_update_same, Ho. reflexivity.
Qed.

(** C10.  [/start] files the worker under the string form of the identity,
    so after any history the directory has string keys only.  The inline
    claim writes the numeric identity on the order; the lookup of that
    identity finds nothing, and the claim arms no timer. *)
Theorem inline_claim_arms_no_reminder
  (rt : JsRuntime) (oracle : nat -> Reply) (token : string)
  (es : list Event) (sh : list (list string)) (t : Z) (q : CallbackQuery) :
  let w := run rt oracle token es (boot sh t) in
  let w' := snd (callback_query rt oracle q w) in
  (forall chatId userId userName w0,
      map_get js_eqb (JStr (num_toString userId))
        (masters (snd (start chatId userId userName w0))) = Some chatId)
  /\ (forall orderId o,
        cq_data q = "take_" ++ orderId ->
        order_of orderId w = Some o ->
        status o = pending ->
        exists o', order_of orderId w' = Some o'
                   /\ status o' = taken
                   /\ masterId o' = JNum (cq_from q)
                   /\ map_get js_eqb (masterId o') (masters w') = None)
  /\ timers w' = timers w.
Proof.
  intros w w'.
  destruct (reachable_invariants rt oracle token es sh t) as (_ & _ & Hk).
  fold w in Hk. unfold directory_by_string in Hk.
  split; [|split].
  - intros chatId userId userName w0. unfold start.
    rewrite bind_modify. simpl. apply map_get_set_same.
  - intros orderId o Hd Ho Hs.
    exists (with_claim (JNum (cq_from q)) (cq_first_name q) (now w) o).
    split; [|split; [reflexivity | split; [reflexivity|]]].
    + unfold order_of, w'.
      rewrite (callback_query_claims rt oracle q orderId o w Hd Ho Hs).
      rewrite order_of_update_same, Ho. reflexivity.
    + assert (Hm : preserves masters (callback_query rt oracle q))
        by (unfold callback_query; frame).
      unfold w'. rewrite Hm. simpl. now apply string_keys_no_number.
  - now apply callback_query_timers.
Qed.

Lemma inline_claim_arms_no_reminder_witness :
  masters Demo.w_registered = [(JStr "42", 55)]
  /\ option_map masterId (order_of "CLN-1000" Demo.w_taken_inline) = Some (JNum 42)
  /\ timers Demo.w_taken_inline = timers Demo.w_registered.
Proof.
  split; [reflexivity|]. split; [vm_compute; reflexivity|].
  destruct (inline_claim_arms_no_reminder Demo.rt Demo.calm Demo.TOKEN
              [CreateOrder Demo.job; Start 55 42 "Petr"] [Demo.header] 1000
              (Demo.tap 42 "Petr")) as (_ & _ & H).
  exact H.
Defined.

(** *** The directory mismatch and the column shift on the running example *)

(** The photo handler sends the same kind of update: after a [до] photo
    the status cell of the order's row holds the download address, and the
    stats endpoint no longer counts the order as taken. *)
Lemma photo_overwrites_status_cell :
  let w' := snd (photo Demo.rt Demo.calm Demo.TOKEN (Demo.snap 42 "до")
                   Demo.w_taken_inline) in
  cell (sheet Demo.w_taken_inline) 1 COL_K = Some "taken"
  /\ cell (sheet w') 1 COL_K
     = Some "https://api.telegram.org/file/botTOKEN/photos/file.jpg"
  /\ count_status taken (sheet Demo.w_taken_inline) = 1%nat
  /\ count_status taken (sheet w') = 0%nat
  /\ option_map status (order_of "CLN-1000" w') = Some taken.
Proof.
  vm_compute. repeat split; reflexivity.
Qed.

(** The same worker claiming through the API under the string identity is
    found in the directory, and both reminders are armed. *)
Lemma api_claim_by_registered_worker_arms_two :
  let r := take_order Demo.rt Demo.calm "CLN-1000" (JStr "42") "Petr" Demo.w_registered in
  fst r = Ok Success
  /\ map (fun t => (t_chat t, t_kind t, t_delay t)) (timers (snd r))
     = [ (55, Reminder24h, Some (1000000000 - 24 * 60 * 60 * 1000 - 1030));
         (55, Reminder2h, Some (1000000000 - 2 * 60 * 60 * 1000 - 1030)) ].
Proof.
  vm_compute. repeat split; reflexivity.
Qed.

(** * Further properties *)

(** ** The ledger routine in closed form *)

Lemma updateGoogleSheet_run oracle orderId updates w :
  let r0 := oracle (calls w) in
  let w0 := answered (latency r0) w in
  let r1 := oracle (S (calls w)) in
  let w1 := answered (latency r1) w0 in
  let i := ledger_row orderId (sheet w) in
  updateGoogleSheet oracle orderId updates w
  = if rejects r0 then (Throw (Rejected SheetsGet), w0)
    else match sheet w with
         | [] => (Throw TypeError, w0)
         | _ :: _ =>
             if 0 <=? i then
               if rejects r1 then (Throw (Rejected SheetsUpdate), w1)
               else if (10 <? List.length updates)%nat
                    then (Throw (Rejected SheetsUpdate), w1)
                    else (Ok tt, set_sheet (write_row (Z.to_nat i) COL_K (map snd updates)) w1)
             else (Ok tt, w0)
         end.
Proof.
  intros r0 w0 r1 w1 i. subst r0 w0 r1 w1 i.
  unfold updateGoogleSheet, bind, await, ledger_row.
  destruct (rejects (oracle (calls w))); [reflexivity|].
  cbn [get calls answered sheet].
  destruct (sheet w) as [|row rest] eqn:Hs; [reflexivity|].
  set (i := findIndex (row_has_id orderId) (map (firstn 2) (row :: rest))).
  destruct (0 <=? i) eqn:Hi.
  - apply Z.leb_le in Hi.
    replace (0 <? i + 1) with true by (symmetry; apply Z.ltb_lt; lia).
    cbv beta. cbn [calls answered].
    destruct (rejects (oracle (S (calls w)))); [reflexivity|].
    rewrite length_map.
    destruct (10 <? List.length updates)%nat; [reflexivity|].
    unfold modify. replace (i + 1 - 1) with i by lia. reflexivity.
  - apply Z.leb_gt in Hi.
    replace (0 <? i + 1) with false by (symmetry; apply Z.ltb_ge; lia).
    reflexivity.
Qed.

Lemma findIndex_found {A : Type} (p : A -> bool) (l : list A) :
  0 <= findIndex p l ->
  exists x, nth_error l (Z.to_nat (findIndex p l)) = Some x /\ p x = true.
Proof.
  induction l as [|a l IH]; simpl; [lia|].
  destruct (p a) eqn:Ea.
  - intros _. exists a. now split.
  - destruct (findIndex p l <? 0) eqn:E; [lia|].
    apply Z.ltb_ge in E. intros _. destruct (IH E) as (x & Hx & Hp).
    exists x. split; [|exact Hp].
    replace (Z.to_nat (findIndex p l + 1)) with (S (Z.to_nat (findIndex p l))) by lia.
    exact Hx.
Qed.

Lemma findIndex_none {A : Type} (p : A -> bool) (l : list A) :
  Forall (fun x => p x = false) l -> findIndex p l = -1.
Proof.
  induction 1 as [|a l Ha Hl IH]; simpl; [reflexivity|].
  rewrite Ha, IH. reflexivity.
Qed.

Lemma findIndex_first {A : Type} (p : A -> bool) (l1 l2 : list A) (x : A) :
  Forall (fun y => p y = false) l1 -> p x = true ->
  findIndex p (l1 ++ x :: l2) = Z.of_nat (List.length l1).
Proof.
  induction 1 as [|a l Ha Hl IH]; intros Hx; simpl.
  - now rewrite Hx.
  - rewrite Ha, (IH Hx).
    destruct (Z.of_nat (List.length l) <? 0) eqn:E; [apply Z.ltb_lt in E; lia | lia].
Qed.

Lemma row_has_id_firstn orderId row :
  row_has_id orderId (firstn 2 row) = row_has_id orderId row.
Proof.
  unfold row_has_id. destruct row as [|a [|b row]]; reflexivity.
Qed.

Lemma row_has_id_iff orderId row :
  row_has_id orderId row = true <-> nth_error row 1 = Some orderId.
Proof.
  unfold row_has_id. destruct (nth_error row 1) as [c|].
  - rewrite String.eqb_eq. split; congruence.
  - split; discriminate.
Qed.

Lemma no_ledger_row_index orderId sh :
  no_ledger_row orderId sh -> ledger_row orderId sh = -1.
Proof.
  intros H. unfold ledger_row. apply findIndex_none.
  apply Forall_map. revert H. apply Forall_impl. intros row Hrow.
  rewrite row_has_id_firstn. destruct (row_has_id orderId row) eqn:E; [|reflexivity].
  apply row_has_id_iff in E. contradiction.
Qed.

(** X1.  When the sheet has rows but none carries the order id in column
    B, [updateGoogleSheet] reads the sheet and stops: it returns normally
    after that single call, sends no update and leaves the sheet as it is,
    so it never creates a row. *)
Theorem updateGoogleSheet_without_row
  (oracle : nat -> Reply) (orderId : string) (updates : list (string * string))
  (w : World) :
  sheet w <> [] ->
  no_ledger_row orderId (sheet w) ->
  rejects (oracle (calls w)) = false ->
  updateGoogleSheet oracle orderId updates w
  = (Ok tt, answered (latency (oracle (calls w))) w)
  /\ sheet (snd (updateGoogleSheet oracle orderId updates w)) = sheet w
  /\ calls (snd (updateGoogleSheet oracle orderId updates w)) = S (calls w).
Proof.
  intros Hne Hno Hr.
  assert (E : updateGoogleSheet oracle orderId updates w
              = (Ok tt, answered (latency (oracle (calls w))) w)).
  { rewrite updateGoogleSheet_run. cbv zeta. rewrite Hr.
    rewrite (no_ledger_row_index _ _ Hno).
    destruct (sheet w); [contradiction | reflexivity]. }
  rewrite E. repeat split.
Qed.

Lemma updateGoogleSheet_without_row_witness :
  no_ledger_row "CLN-7" (sheet Demo.w_pending)
  /\ sheet (snd (updateGoogleSheet Demo.calm "CLN-7" [("status", "taken")] Demo.w_pending))
     = sheet Demo.w_pending.
Proof.
  assert (H : no_ledger_row "CLN-7" (sheet Demo.w_pending)).
  { vm_compute. repeat constructor; discriminate. }
  split; [exact H|].
  apply (updateGoogleSheet_without_row Demo.calm "CLN-7" [("status", "taken")]
           Demo.w_pending); [vm_compute; discriminate | exact H | reflexivity].
Defined.

(** ** What the ledger routine leaves alone *)

Lemma put_at_before (col : nat) (vs row : list string) (c : nat) :
  (c < col)%nat ->
  nth_error (put_at col vs row) c
  = Some (match nth_error row c with Some s => s | None => "" end).
Proof.
  revert row c. induction col as [|col IH]; intros row c Hc; [lia|].
  destruct row as [|x row]; destruct c as [|c]; simpl; try reflexivity.
  - rewrite IH by lia. now destruct c.
  - apply IH. lia.
Qed.

Lemma put_at_after (col : nat) (vs row : list string) (c : nat) :
  (col + List.length vs <= c)%nat ->
  match nth_error (put_at col vs row) c with Some s => s | None => "" end
  = match nth_error row c with Some s => s | None => "" end.
Proof.
  revert row c. induction col as [|col IH]; intros row c Hc.
  - simpl in *. rewrite nth_error_app2 by lia. rewrite nth_error_skipn.
    replace (List.length vs + (c - List.length vs))%nat with c by lia. reflexivity.
  - destruct c as [|c]; [lia|]. destruct row as [|x row]; simpl.
    + rewrite IH by lia. now destruct c.
    + apply IH. lia.
Qed.

Lemma write_row_length r col vs sh :
  (r < List.length sh)%nat -> List.length (write_row r col vs sh) = List.length sh.
Proof.
  revert sh. induction r as [|r IH]; intros [|row sh] H; simpl in *; try lia.
  rewrite IH by lia. reflexivity.
Qed.

Lemma write_row_other r col vs sh r' :
  (r < List.length sh)%nat -> r' <> r ->
  nth_error (write_row r col vs sh) r' = nth_error sh r'.
Proof.
  revert sh r'. induction r as [|r IH]; intros [|row sh] r' H Hne; simpl in *; try lia.
  - destruct r'; [congruence | reflexivity].
  - destruct r'; [reflexivity|]. simpl. apply IH; [lia | congruence].
Qed.

Lemma write_row_same r col vs sh row :
  nth_error sh r = Some row ->
  nth_error (write_row r col vs sh) r = Some (put_at col vs row).
Proof.
  revert sh. induction r as [|r IH]; intros [|x sh] H; simpl in *; try discriminate.
  - now inversion H.
  - now apply IH.
Qed.

Lemma ledger_row_found orderId sh :
  0 <= ledger_row orderId sh ->
  exists row, nth_error sh (Z.to_nat (ledger_row orderId sh)) = Some row
              /\ nth_error row 1 = Some orderId.
Proof.
  intros H. unfold ledger_row in *.
  destruct (findIndex_found _ _ H) as (x & Hx & Hp).
  rewrite nth_error_map in Hx.
  destruct (nth_error sh (Z.to_nat (findIndex (row_has_id orderId) (map (firstn 2) sh))))
    as [row|]; [|discriminate].
  change (option_map (firstn 2) (Some row)) with (Some (firstn 2 row)) in Hx.
  assert (Ex : x = firstn 2 row) by congruence. rewrite Ex in Hp.
  exists row. split; [reflexivity|].
  rewrite row_has_id_firstn in Hp. now apply row_has_id_iff.
Qed.

(** The sheet after the routine: as before, or with the values written
    into the located row. *)
Lemma updateGoogleSheet_sheet oracle orderId updates w :
  sheet (snd (updateGoogleSheet oracle orderId updates w)) = sheet w
  \/ (0 <= ledger_row orderId (sheet w)
      /\ sheet (snd (updateGoogleSheet oracle orderId updates w))
         = write_row (Z.to_nat (ledger_row orderId (sheet w))) COL_K
             (map snd updates) (sheet w)).
Proof.
  rewrite updateGoogleSheet_run. cbv zeta.
  destruct (rejects (oracle (calls w))); [now left|].
  destruct (sheet w) as [|row rest] eqn:Hs; [left; simpl; now rewrite Hs|].
  destruct (0 <=? ledger_row orderId (row :: rest)) eqn:Hi;
    [|left; simpl; now rewrite Hs].
  destruct (rejects (oracle (S (calls w)))); [left; simpl; now rewrite Hs|].
  destruct (10 <? List.length updates)%nat; [left; simpl; now rewrite Hs|].
  right. split; [now apply Z.leb_le|]. simpl. now rewrite Hs.
Qed.

(** X2.  Whatever its outcome, [updateGoogleSheet] adds and removes no
    row, leaves every row whose column B is not the order id exactly as it
    was, and in every row leaves the cells of columns A to J, and those
    after the last value written, reading as before. *)
Theorem updateGoogleSheet_touches_one_range
  (oracle : nat -> Reply) (orderId : string) (updates : list (string * string))
  (w : World) :
  let sh' := sheet (snd (updateGoogleSheet oracle orderId updates w)) in
  List.length sh' = List.length (sheet w)
  /\ (forall r row,
        nth_error (sheet w) r = Some row -> nth_error row 1 <> Some orderId ->
        nth_error sh' r = Some row)
  /\ (forall r c, (c < COL_K)%nat -> cell_text sh' r c = cell_text (sheet w) r c)
  /\ (forall r c, (COL_K + List.length updates <= c)%nat ->
        cell_text sh' r c = cell_text (sheet w) r c).
Proof.
  intros sh'. subst sh'.
  destruct (updateGoogleSheet_sheet oracle orderId updates w) as [E|[Hi E]];
    rewrite E; [repeat split; auto|].
  destruct (ledger_row_found _ _ Hi) as (row0 & Hrow0 & Hid).
  set (i := Z.to_nat (ledger_row orderId (sheet w))) in *.
  assert (Hlt : (i < List.length (sheet w))%nat)
    by (apply nth_error_Some; congruence).
  split; [now apply write_row_length|]. split; [|split].
  - intros r row Hr Hne. rewrite write_row_other; [exact Hr | exact Hlt |].
    intros ->. congruence.
  - intros r c Hc. unfold cell_text, cell.
    destruct (Nat.eq_dec r i) as [->|Hne].
    + rewrite (write_row_same _ _ _ _ _ Hrow0), Hrow0.
      rewrite put_at_before by exact Hc. reflexivity.
    + rewrite write_row_other by assumption. reflexivity.
  - intros r c Hc. unfold cell_text, cell.
    destruct (Nat.eq_dec r i) as [->|Hne].
    + rewrite (write_row_same _ _ _ _ _ Hrow0), Hrow0.
      apply put_at_after. now rewrite length_map.
    + rewrite write_row_other by assumption. reflexivity.
Qed.

(** ** Relations that every step of a handler respects *)

Section Progress.
Context (R : World -> World -> Prop).
Context (Rrefl : forall w, R w w).
Context (Rtrans : forall a b c, R a b -> R b c -> R a c).

Lemma advances_ret {A : Type} (a : A) : advances R (ret a).
Proof. intros w. apply Rrefl. Qed.

Lemma advances_throw {A : Type} (e : Err) : advances R (@throw A e).
Proof. intros w. apply Rrefl. Qed.

Lemma advances_get : advances R get.
Proof. intros w. apply Rrefl. Qed.

Lemma advances_modify (g : World -> World) :
  (forall w, R w (g w)) -> advances R (modify g).
Proof. intros H w. apply H. Qed.

Lemma advances_bind {A C : Type} (m : M A) (k : A -> M C) :
  advances R m -> (forall a, advances R (k a)) -> advances R (bind m k).
Proof.
  intros Hm Hk w. unfold bind. specialize (Hm w).
  destruct (m w) as [[a|e] w']; simpl in *; [|exact Hm].
  exact (Rtrans _ _ _ Hm (Hk a w')).
Qed.

Lemma advances_try_catch {A : Type} (m : M A) (g : Err -> A) :
  advances R m -> advances R (try_catch m (fun e => ret (g e))).
Proof. intros Hm w. rewrite snd_try_catch. apply Hm. Qed.

Lemma advances_await (oracle : nat -> Reply) (c : Call) :
  (forall l w, R w (answered l w)) -> advances R (await oracle c).
Proof.
  intros H w. unfold await. destruct (rejects (oracle (calls w))); apply H.
Qed.

Lemma advances_run rt oracle token :
  (forall e w, R w (handle rt oracle token e w)) ->
  forall es w, R w (run rt oracle token es w).
Proof.
  intros Hstep es. unfold run. induction es as [|e es IH]; intros w; simpl.
  - apply Rrefl.
  - exact (Rtrans _ _ _ (Hstep e w) (IH _)).
Qed.

End Progress.

(** Decomposes a computation along its binds and branches; [step] deals
    with the single writes. *)
Ltac advance Rrefl Rtrans step :=
  repeat first
    [ apply (advances_ret _ Rrefl)
    | apply (advances_throw _ Rrefl)
    | apply (advances_get _ Rrefl)
    | apply advances_await; intros ? ?; step
    | apply advances_modify; intros ?; step
    | apply advances_try_catch
    | apply (advances_bind _ Rtrans); [|intros ?]
    | match goal with
      | |- advances _ (match ?x with _ => _ end) => destruct x
      | |- advances _ (let _ := _ in _) => cbv zeta
      end ].

(** Turns a goal about [handle] into one about the handler it runs. *)
Ltac as_advances w :=
  revert w;
  match goal with
  | |- forall w, ?R w (snd (?m w)) => change (advances R m)
  end;
  unfold create_order, take_order, upload_photo, start, callback_query, photo.

Lemma extends_refl {A : Type} (l : list A) : extends l l.
Proof. exists []. now rewrite app_nil_r. Qed.

Lemma extends_trans {A : Type} (a b c : list A) :
  extends a b -> extends b c -> extends a c.
Proof.
  intros [m1 ->] [m2 ->]. exists (m1 ++ m2)%list. now rewrite app_assoc.
Qed.

Lemma timers_extended_refl w : timers_extended w w.
Proof. apply extends_refl. Qed.

Lemma timers_extended_trans a b c :
  timers_extended a b -> timers_extended b c -> timers_extended a c.
Proof. apply extends_trans. Qed.

Ltac step_timers_extended :=
  unfold timers_extended; simpl;
  first [ apply extends_refl | eexists; reflexivity ].

(** No request and no Telegram update removes a timer. *)
Lemma handle_timers_extended rt oracle token e w :
  (forall i, e <> TimerFires i) -> timers_extended w (handle rt oracle token e w).
Proof.
  intros He. destruct e; cbn [handle];
    [ as_advances w; unfold scheduleNotifications, setTimeout;
      advance timers_extended_refl timers_extended_trans step_timers_extended ..
    | step_timers_extended
    | now elim (He i) ].
Qed.

Lemma timers_kept_refl w : timers_kept w w.
Proof. split; [lia | intros t H; now left]. Qed.

Lemma timers_kept_trans a b c : timers_kept a b -> timers_kept b c -> timers_kept a c.
Proof.
  intros [Hab Kab] [Hbc Kbc]. split; [lia|].
  intros t Ht. destruct (Kab t Ht) as [H|H]; [exact (Kbc t H) | right; lia].
Qed.

Lemma remove_nth_In {A : Type} (i : nat) (l : list A) (x : A) :
  In x l -> In x (remove_nth i l) \/ nth_error l i = Some x.
Proof.
  revert i. induction l as [|y l IH]; intros i H; [destruct H|].
  destruct i as [|i]; cbn [remove_nth nth_error].
  - destruct H as [->|H]; [now right | now left].
  - destruct H as [->|H]; [left; now left|].
    destruct (IH i H) as [H1|H1]; [left; now right | now right].
Qed.

(** A timer callback runs one due timer and leaves the others armed. *)
Lemma fire_timers_kept i w : timers_kept w (fire i w).
Proof.
  unfold fire. destruct (nth_error (timers w) i) as [t0|] eqn:Hn;
    [|apply timers_kept_refl].
  destruct (fires_at t0 <=? now w) eqn:Hd; [|apply timers_kept_refl].
  apply Z.leb_le in Hd.
  assert (E : now (reminder t0 (set_timers (remove_nth i) w)) = now w
              /\ timers (reminder t0 (set_timers (remove_nth i) w))
                 = remove_nth i (timers w)).
  { unfold reminder. cbn [orders set_timers].
    destruct (map_get String.eqb (t_order t0) (orders w)); now split. }
  destruct E as [En Et]. unfold timers_kept. rewrite En, Et. split; [lia|].
  intros t Ht. destruct (remove_nth_In i _ _ Ht) as [H|H]; [now left|].
  right. rewrite Hn in H. injection H as <-. exact Hd.
Qed.

Ltac step_timers :=
  unfold timers_kept;
  cbn [now timers set_orders set_masters set_sheet add_timer log answered];
  split; [lia | intros ? ?; left; first [assumption | apply in_or_app; now left]].

Lemma handle_timers_kept rt oracle token e w :
  timers_kept w (handle rt oracle token e w).
Proof.
  destruct e; cbn [handle];
    [ as_advances w; unfold scheduleNotifications, setTimeout;
      advance timers_kept_refl timers_kept_trans step_timers ..
    | step_timers
    | apply fire_timers_kept ].
Qed.

(** The reminders of the running example: the worker registered under the
    string identity claims through the API and two timers are armed.  A
    callback does not run before its time; once the first fire time has
    passed, the callback of the first timer sends its reminder to the
    worker's chat and the timer is gone, and the second stays armed. *)
Lemma reminder_fires_once :
  let w1 := snd (take_order Demo.rt Demo.calm "CLN-1000" (JStr "42") "Petr"
                   Demo.w_registered) in
  let w2 := run Demo.rt Demo.calm Demo.TOKEN [TimerFires 0] w1 in
  let w3 := run Demo.rt Demo.calm Demo.TOKEN
              [Idle 913600000; TimerFires 1; TimerFires 0; TimerFires 0] w1 in
  map (fun t => (t_kind t, fires_at t)) (timers w1)
  = [(Reminder24h, 913600000); (Reminder2h, 992800000)]
  /\ w2 = w1
  /\ map (fun t => (t_kind t, fires_at t)) (timers w3) = [(Reminder2h, 992800000)]
  /\ outbox w3
     = (outbox w1 ++ [Sent (JNum 55) (MsgReminder Reminder24h "CLN-1000")])%list.
Proof.
  vm_compute. repeat split; reflexivity.
Qed.

(** X3.  No request and no Telegram update cancels or changes an armed
    reminder: each of them leaves the armed timers in place, unchanged and
    in the same order, and only adds new ones at the end.  A timer leaves
    the list only when its callback runs, and that happens only when its
    time has come: across every sequence of requests, updates and turns of
    the event loop, a timer that was armed is still armed unless it is due.
    Completing or re-claiming an order leaves its reminders in place. *)
Theorem reminders_are_never_cancelled
  (rt : JsRuntime) (oracle : nat -> Reply) (token : string) :
  (forall e w,
      (forall i, e <> TimerFires i) ->
      exists armed_later,
        timers (handle rt oracle token e w) = (timers w ++ armed_later)%list)
  /\ (forall es w t,
        In t (timers w) ->
        In t (timers (run rt oracle token es w))
        \/ fires_at t <= now (run rt oracle token es w)).
Proof.
  split.
  - intros e w He. exact (handle_timers_extended rt oracle token e w He).
  - intros es w.
    exact (proj2 (advances_run timers_kept timers_kept_refl timers_kept_trans rt oracle
                    token (handle_timers_kept rt oracle token) es w)).
Qed.

Lemma map_set_keys_extends {V : Type} (k : string) (v : V) (m : list (string * V)) :
  extends (map fst m) (map fst (map_set String.eqb k v m)).
Proof.
  induction m as [|[k' v'] m IH]; simpl.
  - now exists [k].
  - destruct (String.eqb k' k); simpl.
    + apply extends_refl.
    + destruct IH as [more ->]. now exists more.
Qed.

Lemma keys_kept_refl w : keys_kept w w.
Proof. apply extends_refl. Qed.

Lemma keys_kept_trans a b c : keys_kept a b -> keys_kept b c -> keys_kept a c.
Proof. apply extends_trans. Qed.

Ltac step_keys :=
  unfold keys_kept; cbn [orders set_orders set_masters set_sheet add_timer log answered];
  first [ apply extends_refl
        | rewrite map_update_keys; apply extends_refl
        | apply map_set_keys_extends ].

Lemma handle_keys_kept rt oracle token e w :
  keys_kept w (handle rt oracle token e w).
Proof.
  destruct e; cbn [handle];
    [ as_advances w; unfold scheduleNotifications, setTimeout;
      advance keys_kept_refl keys_kept_trans step_keys ..
    | step_keys
    | unfold keys_kept; rewrite (proj1 (fire_data _ _)); apply extends_refl ].
Qed.

Lemma extends_In {A : Type} (l l' : list A) (x : A) : extends l l' -> In x l -> In x l'.
Proof. intros [more ->] H. apply in_or_app. now left. Qed.

Lemma map_get_In_key {V : Type} (k : string) (m : list (string * V)) :
  In k (map fst m) <-> exists v, map_get String.eqb k m = Some v.
Proof.
  induction m as [|[k' v'] m IH]; simpl.
  - split; [intros [] | intros [v H]; discriminate].
  - destruct (String.eqb k' k) eqn:E.
    + apply String.eqb_eq in E. split; [intros _; now exists v' | intros _; now left].
    + apply String.eqb_neq in E. rewrite <- IH. split; [intros [H|H]; [contradiction|exact H] | now right].
Qed.

(** X4.  The order map only grows: across every sequence of requests and
    Telegram events no order is ever removed and the ids keep their
    insertion order, new ids being added at the end.  An id that is stored
    therefore stays stored, whatever happens to the order. *)
Theorem orders_are_never_removed
  (rt : JsRuntime) (oracle : nat -> Reply) (token : string)
  (es : list Event) (w : World) :
  (exists later, map fst (orders (run rt oracle token es w))
                 = (map fst (orders w) ++ later)%list)
  /\ (forall orderId o,
        order_of orderId w = Some o ->
        exists o', order_of orderId (run rt oracle token es w) = Some o').
Proof.
  pose proof (advances_run keys_kept keys_kept_refl keys_kept_trans rt oracle token
                (handle_keys_kept rt oracle token) es w) as H.
  split; [exact H|].
  intros orderId o Ho. unfold order_of in *.
  apply map_get_In_key. apply (extends_In _ _ _ H).
  apply map_get_In_key. now exists o.
Qed.

(** ** Invariants of the stored orders *)

(** The order map after the photo handler, whatever the outcome: as
    before, or with the photo stored in the order found for the sender, or
    with that order also completed after an [after] photo. *)
Lemma photo_orders_of rt oracle token msg w os' :
  os' = orders (snd (photo rt oracle token msg w)) ->
  os' = orders w
  \/ exists key o stage url,
       find_entry (assigned_taken (pm_from msg)) (orders w) = Some (key, o)
       /\ (os' = map_update String.eqb key (with_photo (stage_key stage) url) (orders w)
           \/ (stage = After
               /\ os' = map_update String.eqb key (with_status completed)
                          (map_update String.eqb key (with_photo "after" url)
                             (orders w)))).
Proof.
  intros H. unfold photo in H.
  destruct (classify (caption_text msg)) as [stage|]; [|now left].
  cbv zeta in H. unfold bind at 1 in H.
  destruct (bot_getFile oracle (pm_file_id msg) w) as [[path|e] w1] eqn:Eg;
    pose proof (preserves_run_eq orders _ _ _ _
                  (bot_getFile_store oracle orders _ store_part_orders) Eg) as Ho1.
  2:{ left. cbn [snd] in H. now rewrite H. }
  rewrite bind_get, Ho1 in H.
  destruct (find_entry (assigned_taken (pm_from msg)) (orders w)) as [[key o]|] eqn:Ef;
    [|left; cbn [ret snd] in H; now rewrite H].
  right. exists key, o, stage, (photo_url token path). split; [reflexivity|].
  rewrite bind_modify in H.
  set (w2 := set_orders (map_update String.eqb key
                           (with_photo (stage_key stage) (photo_url token path))) w1) in *.
  assert (Ho2 : orders w2
                = map_update String.eqb key
                    (with_photo (stage_key stage) (photo_url token path)) (orders w))
    by (unfold w2; simpl; now rewrite Ho1).
  unfold bind at 1 in H.
  match type of H with
  | context [updateGoogleSheet oracle ?i ?u w2] =>
      destruct (updateGoogleSheet oracle i u w2) as [[[]|e] w3] eqn:Eu;
      pose proof (preserves_run_eq orders _ _ _ _
                    (updateGoogleSheet_orders oracle i u) Eu) as Ho3
  end.
  2:{ left. cbn [snd] in H. now rewrite H, Ho3. }
  unfold bind at 1 in H. unfold bot_sendMessage_detached at 1, modify at 1 in H.
  destruct (String.eqb (stage_key stage) "after") eqn:Ea.
  - right.
    assert (Hst : forall s, String.eqb (stage_key s) "after" = true -> s = After)
      by (intros []; simpl; congruence).
    pose proof (Hst stage Ea) as Es. split; [exact Es|].
    rewrite photo_after_branch_store in H. cbn [orders log] in H.
    rewrite H, Ho3, Ho2, Es. reflexivity.
  - left. cbn [ret snd orders log] in H. now rewrite H, Ho3.
Qed.

Lemma photo_orders rt oracle token msg w :
  orders (snd (photo rt oracle token msg w)) = orders w
  \/ exists key o stage url,
       find_entry (assigned_taken (pm_from msg)) (orders w) = Some (key, o)
       /\ (orders (snd (photo rt oracle token msg w))
           = map_update String.eqb key (with_photo (stage_key stage) url) (orders w)
           \/ (stage = After
               /\ orders (snd (photo rt oracle token msg w))
                  = map_update String.eqb key (with_status completed)
                      (map_update String.eqb key (with_photo "after" url) (orders w)))).
Proof. exact (photo_orders_of rt oracle token msg w _ eq_refl). Qed.

Lemma Forall_map_update_at {V : Type} (P : string * V -> Prop) k (f : V -> V) m :
  Forall P m ->
  (forall v, map_get String.eqb k m = Some v -> P (k, v) -> P (k, f v)) ->
  Forall P (map_update String.eqb k f m).
Proof.
  induction 1 as [|[k' v] m Hx Hm IH]; intros Hf; simpl; [constructor|].
  destruct (String.eqb k' k) eqn:E.
  - apply String.eqb_eq in E. subst k'. constructor; [|exact Hm].
    apply Hf; [simpl; now rewrite String.eqb_refl | exact Hx].
  - constructor; [exact Hx|]. apply IH. intros v0 Hv. apply Hf. simpl. now rewrite E.
Qed.

Lemma filed_under_id_data : data_invariant filed_under_id.
Proof. intros w w' Ho _. unfold filed_under_id. now rewrite Ho. Qed.

Lemma lifecycle_consistent_data : data_invariant lifecycle_consistent.
Proof. intros w w' Ho _. unfold lifecycle_consistent. now rewrite Ho. Qed.

Lemma completed_with_photo_data : data_invariant completed_with_photo.
Proof. intros w w' Ho _. unfold completed_with_photo. now rewrite Ho. Qed.

Lemma Forall_map_set_at {V : Type} (P : string * V -> Prop) k (v : V) m :
  P (k, v) -> Forall P m -> Forall P (map_set String.eqb k v m).
Proof.
  intros Hv. induction 1 as [|[k' v'] m Hx Hm IH]; simpl.
  - constructor; [exact Hv | constructor].
  - destruct (String.eqb k' k) eqn:E.
    + apply String.eqb_eq in E. subst k'. constructor; assumption.
    + constructor; assumption.
Qed.

Lemma has_after_with_photo type photoUrl o :
  has_after_photo o -> has_after_photo (with_photo type photoUrl o).
Proof.
  unfold has_after_photo. cbn [photos with_photo]. intros (entries & url & -> & H).
  cbn [record_photo]. destruct (assign_keeps type "after" photoUrl entries url H) as [v Hv].
  now exists (assign type photoUrl entries), v.
Qed.

Lemma photos_recorded_with_photo type photoUrl o :
  photos_recorded o -> photos_recorded (with_photo type photoUrl o).
Proof.
  intros [Hp Hc]. split.
  - cbn [photos body with_photo]. intros H. apply Hp.
    destruct (photos o); [discriminate | reflexivity | discriminate].
  - cbn [status with_photo]. intros Hs. destruct (Hc Hs) as [H | [H Hb]].
    + left. now apply has_after_with_photo.
    + right. split; [cbn [photos with_photo]; now rewrite H | exact Hb].
Qed.

Lemma photos_recorded_completed photoUrl o :
  photos_recorded o ->
  photos_recorded (with_status completed (with_photo "after" photoUrl o)).
Proof.
  intros [Hp _]. unfold photos_recorded, has_after_photo, primitive_photos.
  cbn [photos body status with_status with_photo]. split.
  - intros H. apply Hp. destruct (photos o); [discriminate | reflexivity | discriminate].
  - intros _. destruct (photos o) as [| |entries] eqn:E; cbn [record_photo].
    + left. exists (assign "after" photoUrl []), photoUrl. split; reflexivity.
    + right. split; [reflexivity | now apply Hp].
    + left. exists (assign "after" photoUrl entries), photoUrl. split; [reflexivity|].
      rewrite assign_plain by discriminate. apply obj_get_set_same.
Qed.

Ltac write_filed :=
  unfold filed_under_id in *; simpl;
  first [ apply Forall_map_update; [intros ? ? Hx; exact Hx | assumption]
        | apply Forall_map_set_at; [reflexivity | assumption] ].

Ltac write_lifecycle :=
  unfold lifecycle_consistent in *; simpl;
  first [ apply Forall_map_update;
          [ intros ? ? Hx;
            first [ exact Hx
                  | unfold claim_recorded; cbn [snd status takenAt body with_claim];
                    split; [intros _; discriminate | intros; discriminate] ]
          | assumption ]
        | apply Forall_map_set_at;
          [ unfold claim_recorded; cbn [snd status takenAt body new_order];
            split; [let Hp := fresh in intros Hp; now elim Hp | intros _; reflexivity]
          | assumption ] ].

Ltac write_completed :=
  unfold completed_with_photo in *; simpl;
  first [ apply Forall_map_update;
          [ intros ? ? Hx;
            first [ exact Hx
                  | apply photos_recorded_with_photo; exact Hx
                  | destruct Hx as [Hx _]; unfold photos_recorded;
                    cbn [snd status photos body with_claim];
                    split; [exact Hx | intros; discriminate] ]
          | assumption ]
        | apply Forall_map_set_at;
          [ unfold photos_recorded; cbn [snd status photos body new_order];
            split; [let Hp := fresh in intros Hp; exact Hp | intros; discriminate]
          | assumption ] ].

Section StoredOrders.
Context (rt : JsRuntime) (oracle : nat -> Reply) (token : string).

Lemma handle_filed_under_id e w :
  filed_under_id w -> filed_under_id (handle rt oracle token e w).
Proof.
  destruct e; cbn [handle]; try (intros H; exact H);
    try (apply maintains_fire; exact filed_under_id_data); as_maintains w;
    invariant_with filed_under_id_data write_filed.
Qed.

(** The order that the photo handler found is stored under its key, taken. *)
Lemma found_order_is_taken (m : list (string * Order)) from key o :
  NoDup (map fst m) ->
  find_entry (assigned_taken from) m = Some (key, o) ->
  map_get String.eqb key m = Some o /\ status o = taken.
Proof.
  intros Hnd Hf. split; [exact (find_entry_get _ _ _ _ Hnd Hf)|].
  apply find_entry_In in Hf. destruct Hf as [_ Hp].
  unfold assigned_taken in Hp. apply andb_prop in Hp. destruct Hp as [_ Hp].
  destruct (status o); try discriminate; reflexivity.
Qed.

Lemma map_get_Forall {V : Type} (P : string * V -> Prop) k v (m : list (string * V)) :
  Forall P m -> map_get String.eqb k m = Some v -> P (k, v).
Proof.
  induction 1 as [|[k' v'] m Hx Hm IH]; simpl; [discriminate|].
  destruct (String.eqb k' k) eqn:E; [|exact IH].
  apply String.eqb_eq in E. subst k'. intros H. inversion H; subst. exact Hx.
Qed.

Lemma handle_lifecycle_consistent e w :
  unique_keys w -> lifecycle_consistent w ->
  lifecycle_consistent (handle rt oracle token e w).
Proof.
  intros Hu. destruct e; cbn [handle]; try (intros H; exact H);
    try (apply maintains_fire; exact lifecycle_consistent_data).
  1-4: clear Hu; as_maintains w;
    invariant_with lifecycle_consistent_data write_lifecycle.
  intros Hl. unfold lifecycle_consistent in *.
  destruct (photo_orders rt oracle token msg w)
    as [E|(key & o & stage & url & Hf & [E|[-> E]])]; rewrite E.
  - exact Hl.
  - apply Forall_map_update; [intros ? ? Hx; exact Hx | exact Hl].
  - destruct (found_order_is_taken _ _ _ _ Hu Hf) as [Hget Hst].
    pose proof (map_get_Forall _ _ _ _ Hl Hget) as Ho. simpl in Ho.
    apply Forall_map_update_at.
    + apply Forall_map_update; [intros ? ? Hx; exact Hx | exact Hl].
    + intros v Hv _. rewrite map_get_update_same, Hget in Hv.
      inversion Hv; subst v. destruct Ho as [Ho _].
      split; cbn [status takenAt with_status with_photo]; [intros _|discriminate].
      apply Ho. rewrite Hst. discriminate.
Qed.

Lemma handle_completed_with_photo e w :
  completed_with_photo w -> completed_with_photo (handle rt oracle token e w).
Proof.
  destruct e; cbn [handle]; try (intros H; exact H);
    try (apply maintains_fire; exact completed_with_photo_data).
  1-4: as_maintains w; invariant_with completed_with_photo_data write_completed.
  intros Hc. unfold completed_with_photo in *.
  destruct (photo_orders rt oracle token msg w)
    as [E|(key & o & stage & url & Hf & [E|[-> E]])]; rewrite E.
  - exact Hc.
  - apply Forall_map_update; [|exact Hc].
    intros ? ? Hx. now apply photos_recorded_with_photo.
  - apply Forall_map_update_at.
    + apply Forall_map_update; [|exact Hc].
      intros ? ? Hx. now apply photos_recorded_with_photo.
    + intros v Hv _.
      rewrite map_get_update_same in Hv.
      destruct (map_get String.eqb key (orders w)) as [o0|] eqn:Hget; [|discriminate].
      inversion Hv; subst v.
      pose proof (map_get_Forall _ _ _ _ Hc Hget) as Ho0.
      now apply photos_recorded_completed.
Qed.

End StoredOrders.

(** X5.  From start-up on, after any sequence of requests, Telegram
    updates and timer callbacks, an order that is taken or completed has a
    [takenAt], and a pending order has the [takenAt] that its create-order
    body carried: both claim paths write status and time together, and the
    completion only ever applies to an order that was taken.  So an order
    made from a body without [takenAt] is pending exactly when it has no
    [takenAt]. *)
Theorem pending_iff_never_taken
  (rt : JsRuntime) (oracle : nat -> Reply) (token : string)
  (es : list Event) (sh : list (list string)) (t : Z) (orderId : string) (o : Order) :
  order_of orderId (run rt oracle token es (boot sh t)) = Some o ->
  (status o <> pending -> takenAt o <> None)
  /\ (status o = pending -> takenAt o = body_takenAt (body o))
  /\ (body_takenAt (body o) = None -> (status o = pending <-> takenAt o = None)).
Proof.
  intros Ho.
  assert (H : unique_keys (run rt oracle token es (boot sh t))
              /\ lifecycle_consistent (run rt oracle token es (boot sh t))).
  { apply (run_invariant rt oracle token
             (fun w => unique_keys w /\ lifecycle_consistent w)).
    - intros e w [Hu Hl]. split.
      + now apply handle_unique_keys.
      + now apply handle_lifecycle_consistent.
    - split; constructor. }
  destruct H as [_ Hl].
  destruct (map_get_Forall _ _ _ _ Hl Ho) as [H1 H2]. cbn [snd] in H1, H2.
  split; [exact H1|]. split; [exact H2|].
  intros Hb. split.
  - intros Hs. rewrite (H2 Hs). exact Hb.
  - intros Ht. destruct (status o) eqn:Hs; [reflexivity| |];
      exfalso; apply H1; [discriminate | exact Ht | discriminate | exact Ht].
Qed.

Lemma pending_iff_never_taken_witness :
  order_of "CLN-1000"
    (run Demo.rt Demo.calm Demo.TOKEN
       [CreateOrder Demo.job; Start 55 42 "Petr"; Callback (Demo.tap 42 "Petr");
        Photo (Demo.snap 42 "после")]
       (boot [Demo.header] 1000))
  = Some {| body := Demo.job; id := "CLN-1000"; status := completed; createdAt := 1000;
        telegramMessageId := Some 700; telegramChatId := Some (-100);
        masterId := JNum 42; masterName := Some "Petr"; takenAt := Some 1010;
        completedAt := None;
        photos := PhotoObject [("after",
                         "https://api.telegram.org/file/botTOKEN/photos/file.jpg")] |}
  /\ (completed <> pending -> Some 1010 <> @None Z).
Proof.
  assert (Ho : order_of "CLN-1000"
                 (run Demo.rt Demo.calm Demo.TOKEN
                    [CreateOrder Demo.job; Start 55 42 "Petr"; Callback (Demo.tap 42 "Petr");
        Photo (Demo.snap 42 "после")]
                    (boot [Demo.header] 1000))
               = Some {| body := Demo.job; id := "CLN-1000"; status := completed; createdAt := 1000;
        telegramMessageId := Some 700; telegramChatId := Some (-100);
        masterId := JNum 42; masterName := Some "Petr"; takenAt := Some 1010;
        completedAt := None;
        photos := PhotoObject [("after",
                         "https://api.telegram.org/file/botTOKEN/photos/file.jpg")] |})
    by (vm_compute; reflexivity).
  split; [exact Ho|].
  exact (proj1 (pending_iff_never_taken Demo.rt Demo.calm Demo.TOKEN _ _ _ _ _ Ho)).
Defined.

(** A create-order body that carries [takenAt] makes a pending order with
    a [takenAt]; one that carries a string as [photos] makes an order that
    the worker's [после] photo completes without storing the photo. *)
Lemma body_fields_reach_the_order :
  let sent := {| manager := "Anna"; customerName := "Ivan";
                 customerPhone := "+70000000000";
                 customerAddress := Some "Казань, ул. Баумана 1"; customerFlat := "1";
                 area := "40"; cleaningType := "general"; difficulty := "1";
                 orderDate := "2030-01-10"; orderTime := "12:00"; orderTotal := "5000";
                 masterPay := "2000"; pets := "no"; equipment := ""; chemistry := "";
                 worksDescription := "";
                 body_telegramMessageId := None; body_telegramChatId := None;
                 body_masterId := JUndef; body_masterName := None;
                 body_takenAt := Some 5; body_completedAt := None;
                 body_photos := PrimitivePhotos |} in
  let w1 := run Demo.rt Demo.calm Demo.TOKEN [CreateOrder sent] Demo.w0 in
  let w2 := run Demo.rt Demo.calm Demo.TOKEN
              [Callback (Demo.tap 42 "Petr"); Photo (Demo.snap 42 "после")] w1 in
  option_map status (order_of "CLN-1000" w1) = Some pending
  /\ option_map takenAt (order_of "CLN-1000" w1) = Some (Some 5)
  /\ option_map status (order_of "CLN-1000" w2) = Some completed
  /\ option_map photos (order_of "CLN-1000" w2) = Some PrimitivePhotos.
Proof.
  vm_compute. repeat split; reflexivity.
Qed.

(** X6.  From start-up on, after any sequence of requests, Telegram
    updates and timer callbacks, every order whose status is completed has
    an entry under [after] in its photos, unless its photos are a truthy
    primitive that came with its create-order body: the status is only set
    right after the assignment of that photo, which stores the entry on
    everything but a primitive, and later assignments overwrite an entry or
    add one but never remove one. *)
Theorem completed_orders_have_after_photo
  (rt : JsRuntime) (oracle : nat -> Reply) (token : string)
  (es : list Event) (sh : list (list string)) (t : Z) (orderId : string) (o : Order) :
  order_of orderId (run rt oracle token es (boot sh t)) = Some o ->
  status o = completed ->
  (exists entries url, photos o = PhotoObject entries /\ obj_get "after" entries = Some url)
  \/ (photos o = PrimitivePhotos /\ body_photos (body o) = PrimitivePhotos).
Proof.
  intros Ho Hs.
  assert (H : completed_with_photo (run rt oracle token es (boot sh t))).
  { apply (run_invariant rt oracle token completed_with_photo).
    - intros e w. apply handle_completed_with_photo.
    - constructor. }
  destruct (map_get_Forall _ _ _ _ H Ho) as [_ Hp]. cbn [snd] in Hp.
  exact (Hp Hs).
Qed.

Lemma completed_orders_have_after_photo_witness :
  order_of "CLN-1000"
    (run Demo.rt Demo.calm Demo.TOKEN
       [CreateOrder Demo.job; Start 55 42 "Petr"; Callback (Demo.tap 42 "Petr");
        Photo (Demo.snap 42 "после")]
       (boot [Demo.header] 1000))
  = Some {| body := Demo.job; id := "CLN-1000"; status := completed; createdAt := 1000;
        telegramMessageId := Some 700; telegramChatId := Some (-100);
        masterId := JNum 42; masterName := Some "Petr"; takenAt := Some 1010;
        completedAt := None;
        photos := PhotoObject [("after",
                         "https://api.telegram.org/file/botTOKEN/photos/file.jpg")] |}
  /\ ((exists entries url,
         PhotoObject [("after", "https://api.telegram.org/file/botTOKEN/photos/file.jpg")]
         = PhotoObject entries
         /\ obj_get "after" entries = Some url)
      \/ (PhotoObject [("after", "https://api.telegram.org/file/botTOKEN/photos/file.jpg")]
          = PrimitivePhotos
          /\ body_photos Demo.job = PrimitivePhotos)).
Proof.
  assert (Ho : order_of "CLN-1000"
                 (run Demo.rt Demo.calm Demo.TOKEN
                    [CreateOrder Demo.job; Start 55 42 "Petr"; Callback (Demo.tap 42 "Petr");
        Photo (Demo.snap 42 "после")]
                    (boot [Demo.header] 1000))
               = Some {| body := Demo.job; id := "CLN-1000"; status := completed; createdAt := 1000;
        telegramMessageId := Some 700; telegramChatId := Some (-100);
        masterId := JNum 42; masterName := Some "Petr"; takenAt := Some 1010;
        completedAt := None;
        photos := PhotoObject [("after",
                         "https://api.telegram.org/file/botTOKEN/photos/file.jpg")] |})
    by (vm_compute; reflexivity).
  split; [exact Ho|].
  exact (completed_orders_have_after_photo Demo.rt Demo.calm Demo.TOKEN _ _ _ _ _ Ho
           eq_refl).
Defined.

(** X7.  From start-up on, every order is stored under its own [id], so
    the ledger updates of the photo handler, which are addressed by
    [order.id], always name the order that was found. *)
Theorem orders_are_filed_under_their_id
  (rt : JsRuntime) (oracle : nat -> Reply) (token : string)
  (es : list Event) (sh : list (list string)) (t : Z) (orderId : string) (o : Order) :
  order_of orderId (run rt oracle token es (boot sh t)) = Some o ->
  id o = orderId.
Proof.
  intros Ho.
  assert (H : filed_under_id (run rt oracle token es (boot sh t))).
  { apply (run_invariant rt oracle token filed_under_id).
    - intros e w. apply handle_filed_under_id.
    - constructor. }
  exact (map_get_Forall _ _ _ _ H Ho).
Qed.

Lemma orders_are_filed_under_their_id_witness :
  order_of "CLN-1000"
    (run Demo.rt Demo.calm Demo.TOKEN
       [CreateOrder Demo.job; Start 55 42 "Petr"; Callback (Demo.tap 42 "Petr");
        Photo (Demo.snap 42 "после")]
       (boot [Demo.header] 1000))
  = Some {| body := Demo.job; id := "CLN-1000"; status := completed; createdAt := 1000;
        telegramMessageId := Some 700; telegramChatId := Some (-100);
        masterId := JNum 42; masterName := Some "Petr"; takenAt := Some 1010;
        completedAt := None;
        photos := PhotoObject [("after",
                         "https://api.telegram.org/file/botTOKEN/photos/file.jpg")] |}
  /\ "CLN-1000" = "CLN-1000".
Proof.
  assert (Ho : order_of "CLN-1000"
                 (run Demo.rt Demo.calm Demo.TOKEN
                    [CreateOrder Demo.job; Start 55 42 "Petr"; Callback (Demo.tap 42 "Petr");
        Photo (Demo.snap 42 "после")]
                    (boot [Demo.header] 1000))
               = Some {| body := Demo.job; id := "CLN-1000"; status := completed; createdAt := 1000;
        telegramMessageId := Some 700; telegramChatId := Some (-100);
        masterId := JNum 42; masterName := Some "Petr"; takenAt := Some 1010;
        completedAt := None;
        photos := PhotoObject [("after",
                         "https://api.telegram.org/file/botTOKEN/photos/file.jpg")] |})
    by (vm_compute; reflexivity).
  split; [exact Ho|].
  exact (orders_are_filed_under_their_id Demo.rt Demo.calm Demo.TOKEN _ _ _ _ _ Ho).
Defined.

(** ** The ledger row of an order *)

Lemma no_ledger_row_false orderId sh :
  no_ledger_row orderId sh ->
  Forall (fun row => row_has_id orderId row = false) (map (firstn 2) sh).
Proof.
  intros H. apply Forall_map. revert H. apply Forall_impl. intros row Hrow.
  rewrite row_has_id_firstn. destruct (row_has_id orderId row) eqn:E; [|reflexivity].
  apply row_has_id_iff in E. contradiction.
Qed.

Lemma ledger_row_appended orderId sh row :
  no_ledger_row orderId sh ->
  nth_error row 1 = Some orderId ->
  ledger_row orderId (sh ++ [row]) = Z.of_nat (List.length sh).
Proof.
  intros Hno Hrow. unfold ledger_row. rewrite map_app.
  change (map (firstn 2) [row]) with [firstn 2 row].
  rewrite findIndex_first.
  - now rewrite length_map.
  - now apply no_ledger_row_false.
  - rewrite row_has_id_firstn. now apply row_has_id_iff.
Qed.

(** X8.  The row that [saveToGoogleSheets] appends is the row that
    [updateGoogleSheet] later locates: on a sheet where no row carried the
    order id, the lookup after the append returns the index of the new
    row, and an update whose sheet calls resolve writes its first value
    into column K of that very row. *)
Theorem appended_row_is_the_one_updated
  (rt : JsRuntime) (oracle : nat -> Reply) (orderData : OrderData)
  (orderId : string) (st : Status) (updates : list (string * string))
  (value : string) (w : World) :
  no_ledger_row orderId (sheet w) ->
  rejects (oracle (calls w)) = false ->
  rejects (oracle (S (calls w))) = false ->
  rejects (oracle (S (S (calls w)))) = false ->
  nth_error (map snd updates) 0 = Some value ->
  (List.length updates <= 10)%nat ->
  let w1 := snd (saveToGoogleSheets rt oracle orderData orderId st w) in
  let w2 := snd (updateGoogleSheet oracle orderId updates w1) in
  ledger_row orderId (sheet w1) = Z.of_nat (List.length (sheet w))
  /\ cell (sheet w1) (List.length (sheet w)) COL_K = Some (status_str st)
  /\ cell (sheet w2) (List.length (sheet w)) COL_K = Some value
  /\ List.length (sheet w2) = S (List.length (sheet w)).
Proof.
  intros Hno H0 H1 H2 Hv Hlen w1 w2.
  assert (Hs1 : exists row, sheet w1 = (sheet w ++ [row])%list
                            /\ nth_error row 1 = Some orderId
                            /\ calls w1 = S (calls w)).
  { unfold w1, saveToGoogleSheets, bind, await, get. rewrite H0.
    cbn [modify set_sheet sheet calls answered snd]. eexists. split; [reflexivity|].
    split; reflexivity. }
  destruct Hs1 as (row & Hs1 & Hrow & Hc1).
  assert (Hidx : ledger_row orderId (sheet w1) = Z.of_nat (List.length (sheet w)))
    by (rewrite Hs1; now apply ledger_row_appended).
  split; [exact Hidx|]. split.
  { unfold w1. now apply saveToGoogleSheets_status_column. }
  assert (Hrun : exists w', updateGoogleSheet oracle orderId updates w1 = (Ok tt, w')
            /\ sheet w' = write_row (Z.to_nat (ledger_row orderId (sheet w1))) COL_K
                            (map snd updates) (sheet w1)).
  { apply updateGoogleSheet_writes.
    - fold (ledger_row orderId (sheet w1)). rewrite Hidx. lia.
    - now rewrite Hc1.
    - now rewrite Hc1.
    - exact Hlen. }
  destruct Hrun as (w' & Hrun & Hs2). unfold w2. rewrite Hrun. cbn [snd].
  rewrite Hs2, Hidx, Nat2Z.id. split.
  - pose proof (cell_write_row (List.length (sheet w)) COL_K (map snd updates)
                  (sheet w1) 0) as Hc.
    rewrite Nat.add_0_r in Hc. rewrite Hc; [exact Hv|].
    apply nth_error_Some. congruence.
  - rewrite write_row_length; rewrite Hs1, length_app; simpl; lia.
Qed.

Lemma appended_row_is_the_one_updated_witness :
  no_ledger_row "CLN-7" (sheet Demo.w_pending)
  /\ cell (sheet (snd (updateGoogleSheet Demo.calm "CLN-7" [("status", "taken")]
                         (snd (saveToGoogleSheets Demo.rt Demo.calm Demo.job "CLN-7"
                                 pending Demo.w_pending)))))
       2 COL_K
     = Some "taken".
Proof.
  assert (H : no_ledger_row "CLN-7" (sheet Demo.w_pending)).
  { vm_compute. repeat constructor; discriminate. }
  split; [exact H|].
  assert (Hlen : (List.length [("status", "taken")] <= 10)%nat) by (simpl; lia).
  destruct (appended_row_is_the_one_updated Demo.rt Demo.calm Demo.job "CLN-7" pending
              [("status", "taken")] "taken" Demo.w_pending H
              eq_refl eq_refl eq_refl eq_refl Hlen)
    as (_ & _ & Hc & _).
  exact Hc.
Defined.

Lemma updateGoogleSheet_ok_inv oracle orderId updates w w' :
  updateGoogleSheet oracle orderId updates w = (Ok tt, w') ->
  0 <= ledger_row orderId (sheet w) ->
  sheet w'
  = write_row (Z.to_nat (ledger_row orderId (sheet w))) COL_K (map snd updates) (sheet w).
Proof.
  rewrite updateGoogleSheet_run. cbv zeta. intros H Hi.
  destruct (rejects (oracle (calls w))); [discriminate|].
  destruct (sheet w) as [|row rest] eqn:Hs; [discriminate|].
  apply Z.leb_le in Hi. rewrite Hi in H.
  destruct (rejects (oracle (S (calls w)))); [discriminate|].
  destruct (10 <? List.length updates)%nat; [discriminate|].
  inversion H. simpl. now rewrite Hs.
Qed.

Lemma scheduleNotifications_sheet rt orderId date time :
  preserves sheet (scheduleNotifications rt orderId date time).
Proof. unfold scheduleNotifications, setTimeout. frame. Qed.

(** The sheet after a take-order request that answered success. *)
Lemma take_order_success_sheet rt oracle orderId m n o w w' :
  order_of orderId w = Some o ->
  take_order rt oracle orderId m n w = (Ok Success, w') ->
  0 <= ledger_row orderId (sheet w) ->
  sheet w'
  = write_row (Z.to_nat (ledger_row orderId (sheet w))) COL_K
      [ "taken"; n; toISOString rt (now w) ] (sheet w).
Proof.
  unfold order_of. intros Ho Hrun Hi.
  unfold take_order, try_catch in Hrun. rewrite bind_get, Ho, bind_modify in Hrun.
  match type of Hrun with
  | context [match ?X with _ => _ end] => destruct X as [[a|e] w1] eqn:E
  end; [|discriminate].
  inversion Hrun; subst a w1. clear Hrun.
  apply bind_ok_inv in E. destruct E as ([] & w1 & E1 & E).
  apply bind_ok_inv in E. destruct E as ([] & w2 & E2 & E).
  apply bind_ok_inv in E. destruct E as ([] & w3 & E3 & E).
  apply bind_ok_inv in E. destruct E as ([] & w4 & E4 & E).
  inversion E; subst w4. clear E.
  pose proof (preserves_run_eq sheet _ _ _ _
                (bot_deleteMessage_store oracle sheet _ _ store_part_sheet) E1) as S1.
  assert (S2 : sheet w2 = sheet w1).
  { refine (preserves_run_eq sheet _ _ _ _ _ E2). frame. }
  pose proof (preserves_run_eq sheet _ _ _ _
                (scheduleNotifications_sheet rt _ _ _) E4) as S4.
  assert (Hs2 : sheet w2 = sheet w) by (rewrite S2, S1; reflexivity).
  rewrite S4. rewrite (updateGoogleSheet_ok_inv _ _ _ _ _ E3); rewrite Hs2; auto.
Qed.

(** X9.  A take-order request that answers success has written, in the
    order's ledger row, ['taken'] into column K, the worker's name into
    column L and the claim time into column M, and has left the columns
    from N on as they were.  L and M are the cells where create-order puts
    the job date and the job time; the cell it reserves for the worker's
    name, column T, stays empty. *)
Theorem api_claim_overwrites_job_date_and_time
  (rt : JsRuntime) (oracle : nat -> Reply) (orderId : string) (m : jsval)
  (n : string) (o : Order) (w w' : World) :
  order_of orderId w = Some o ->
  take_order rt oracle orderId m n w = (Ok Success, w') ->
  0 <= ledger_row orderId (sheet w) ->
  let r := Z.to_nat (ledger_row orderId (sheet w)) in
  cell (sheet w') r 10 = Some "taken"
  /\ cell (sheet w') r 11 = Some n
  /\ cell (sheet w') r 12 = Some (toISOString rt (now w))
  /\ (forall c, (13 <= c)%nat -> cell_text (sheet w') r c = cell_text (sheet w) r c)
  /\ (forall orderData st w0,
        rejects (oracle (calls w0)) = false ->
        let w1 := snd (saveToGoogleSheets rt oracle orderData orderId st w0) in
        let r0 := List.length (sheet w0) in
        cell (sheet w1) r0 11 = Some (orderDate orderData)
        /\ cell (sheet w1) r0 12 = Some (orderTime orderData)
        /\ cell (sheet w1) r0 19 = Some "").
Proof.
  intros Ho Hrun Hi r.
  rewrite (take_order_success_sheet rt oracle orderId m n o w w' Ho Hrun Hi). fold r.
  split; [|split; [|split; [|split]]].
  - exact (cell_write_row r COL_K [ "taken"; n; toISOString rt (now w) ] (sheet w) 0
             ltac:(simpl; lia)).
  - exact (cell_write_row r COL_K [ "taken"; n; toISOString rt (now w) ] (sheet w) 1
             ltac:(simpl; lia)).
  - exact (cell_write_row r COL_K [ "taken"; n; toISOString rt (now w) ] (sheet w) 2
             ltac:(simpl; lia)).
  - intros c Hc. destruct (ledger_row_found _ _ Hi) as (row0 & Hrow0 & _). fold r in Hrow0.
    unfold cell_text, cell. rewrite (write_row_same _ _ _ _ _ Hrow0), Hrow0.
    apply put_at_after. unfold COL_K. simpl. lia.
  - intros orderData st w0 H0 w1 r0. subst w1 r0.
    unfold saveToGoogleSheets, bind, await, get. rewrite H0.
    cbn [modify set_sheet sheet answered snd]. unfold cell.
    rewrite nth_error_app2 by lia. rewrite Nat.sub_diag. repeat split.
Qed.

Lemma api_claim_overwrites_job_date_and_time_witness :
  cell (sheet Demo.w_pending) 1 11 = Some "2030-01-10"
  /\ cell (sheet Demo.w_taken_api) 1 11 = Some "Petr"
  /\ cell (sheet Demo.w_taken_api) 1 19 = Some "".
Proof.
  split; [vm_compute; reflexivity|].
  assert (Ho : order_of "CLN-1000" Demo.w_pending
               = Some {| body := Demo.job; id := "CLN-1000"; status := pending;
                         createdAt := 1000; telegramMessageId := Some 700;
                         telegramChatId := Some (-100); masterId := JUndef;
                         masterName := None; takenAt := None; completedAt := None;
                         photos := NoPhotos |}) by (vm_compute; reflexivity).
  assert (Hrun : take_order Demo.rt Demo.calm "CLN-1000" (JStr "42") "Petr" Demo.w_pending
                 = (Ok Success, Demo.w_taken_api)) by (vm_compute; reflexivity).
  assert (Hi : 0 <= ledger_row "CLN-1000" (sheet Demo.w_pending))
    by (vm_compute; discriminate).
  destruct (api_claim_overwrites_job_date_and_time Demo.rt Demo.calm "CLN-1000"
              (JStr "42") "Petr" _ Demo.w_pending Demo.w_taken_api Ho Hrun Hi)
    as (_ & H11 & _).
  split; [exact H11 | vm_compute; reflexivity].
Defined.

(** ** Creating orders *)

(** X10.  A create-order request with an address, whose broadcast and
    ledger append both resolve, answers with the id [CLN-<now>] and the link
    to the offer; the order is stored pending under that id with the
    message and chat ids of the broadcast; exactly one offer was sent, to the
    channel of the region of the address; and the ledger has one more row,
    with the id in column B and [pending] in column K. *)
Theorem create_order_success
  (rt : JsRuntime) (oracle : nat -> Reply) (orderData : OrderData)
  (address : string) (w : World) :
  customerAddress orderData = Some address ->
  rejects (oracle (calls w)) = false ->
  rejects (oracle (S (calls w))) = false ->
  let orderId := "CLN-" ++ num_toString (now w) in
  let message := oracle (calls w) in
  let channel := channel_for (extractCityFromAddress rt address) in
  let r := create_order rt oracle orderData w in
  fst r = Ok (Created orderId
                ("https://t.me/" ++ JsString.replace_prefix "@" channel ++ "/"
                   ++ num_toString (message_id message)))
  /\ order_of orderId (snd r)
     = Some (with_telegram (message_id message) (chat_id message)
               (new_order orderData orderId (now w)))
  /\ outbox (snd r) = (outbox w ++ [Sent (JStr channel) (MsgOffer orderId)])%list
  /\ List.length (sheet (snd r)) = S (List.length (sheet w))
  /\ cell (sheet (snd r)) (List.length (sheet w)) 1 = Some orderId
  /\ cell (sheet (snd r)) (List.length (sheet w)) COL_K = Some "pending"
  /\ timers (snd r) = timers w.
Proof.
  intros Ha H0 H1 orderId message channel r. subst r.
  unfold create_order, try_catch.
  rewrite bind_get, bind_modify, Ha.
  rewrite (bind_ok _ _ _ _ _ (eq_refl : ret _ _ = (Ok _, _))).
  erewrite bind_ok by (apply bot_sendMessage_ok; exact H0).
  rewrite bind_modify.
  destruct (saveToGoogleSheets_ok rt oracle orderData orderId pending
              (set_orders (map_update String.eqb orderId
                             (with_telegram (message_id message) (chat_id message)))
                 (log (Sent (JStr channel) (MsgOffer orderId))
                    (answered (latency message)
                       (set_orders (map_set String.eqb orderId
                                      (new_order orderData orderId (now w))) w)))) H1)
    as (row & Hsave & Hb & Hk).
  erewrite bind_ok by exact Hsave.
  cbn [ret snd fst orders outbox sheet timers set_sheet set_orders answered log].
  split; [reflexivity|]. split; [apply order_of_set_update|].
  split; [reflexivity|]. split; [rewrite length_app; simpl; lia|].
  unfold cell. rewrite nth_error_app2 by lia. rewrite Nat.sub_diag.
  cbn [nth_error]. split; [exact Hb|]. split; [exact Hk | reflexivity].
Qed.

Lemma create_order_success_witness :
  Demo.w_pending = snd (create_order Demo.rt Demo.calm Demo.job Demo.w0)
  /\ fst (create_order Demo.rt Demo.calm Demo.job Demo.w0)
     = Ok (Created "CLN-1000" "https://t.me/apexclean_moscow/700")
  /\ cell (sheet Demo.w_pending) 1 1 = Some "CLN-1000".
Proof.
  split; [reflexivity|].
  destruct (create_order_success Demo.rt Demo.calm Demo.job "МОСКВА, ул. Ленина 5"
              Demo.w0 eq_refl eq_refl eq_refl) as (Hr & _ & _ & _ & Hb & _).
  split; [exact Hr | exact Hb].
Defined.

(** X11.  A create-order request that fails before the offer is out, for
    lack of an address in the body or because the broadcast rejects,
    answers 500 and yet leaves the order in the map: pending, every other
    field as the body gave it, so with the message and chat id that the
    body carried and with none when it carried none.  Nothing was sent and
    the sheet is as it was. *)
Theorem create_order_failure_leaves_order
  (rt : JsRuntime) (oracle : nat -> Reply) (orderData : OrderData) (w : World) :
  customerAddress orderData = None \/ rejects (oracle (calls w)) = true ->
  let orderId := "CLN-" ++ num_toString (now w) in
  let r := create_order rt oracle orderData w in
  (exists e, fst r = Ok (ServerError e))
  /\ order_of orderId (snd r) = Some (new_order orderData orderId (now w))
  /\ status (new_order orderData orderId (now w)) = pending
  /\ telegramMessageId (new_order orderData orderId (now w))
     = body_telegramMessageId orderData
  /\ telegramChatId (new_order orderData orderId (now w)) = body_telegramChatId orderData
  /\ outbox (snd r) = outbox w
  /\ sheet (snd r) = sheet w.
Proof.
  intros H orderId r. subst r.
  unfold create_order, try_catch. rewrite bind_get, bind_modify.
  destruct (customerAddress orderData) as [address|] eqn:Ha.
  - destruct H as [H|H]; [discriminate|].
    rewrite (bind_ok _ _ _ _ _ (eq_refl : ret _ _ = (Ok _, _))).
    erewrite bind_thrown by (apply bot_sendMessage_rejected; exact H).
    cbn [ret snd fst orders outbox sheet answered set_orders].
    split; [eexists; reflexivity|]. split; [apply order_get_set_same|].
    repeat split.
  - rewrite (bind_thrown _ _ _ _ _ (eq_refl : throw _ _ = (Throw _, _))).
    cbn [ret snd fst orders outbox sheet set_orders].
    split; [eexists; reflexivity|]. split; [apply order_get_set_same|].
    repeat split.
Qed.

Lemma create_order_failure_leaves_order_witness :
  rejects (Demo.failing 0 (calls Demo.w0)) = true
  /\ fst (create_order Demo.rt (Demo.failing 0) Demo.job Demo.w0)
     = Ok (ServerError (Rejected BotSendMessage))
  /\ option_map status
       (order_of "CLN-1000" (snd (create_order Demo.rt (Demo.failing 0) Demo.job Demo.w0)))
     = Some pending.
Proof.
  split; [reflexivity|]. split; [vm_compute; reflexivity|].
  destruct (create_order_failure_leaves_order Demo.rt (Demo.failing 0) Demo.job Demo.w0
              (or_intror eq_refl)) as (_ & Ho & _).
  change (order_of "CLN-1000"
            (snd (create_order Demo.rt (Demo.failing 0) Demo.job Demo.w0))
          = Some (new_order Demo.job "CLN-1000" 1000)) in Ho.
  rewrite Ho. reflexivity.
Defined.

(** X12.  When the broadcast resolves and the ledger append rejects,
    create-order answers 500 although the offer is out in the channel and
    the order is stored, pending, with its message id; the ledger has no row
    for it, so that every later ledger update for this order finds nothing
    to write to. *)
Theorem create_order_without_ledger_row
  (rt : JsRuntime) (oracle : nat -> Reply) (orderData : OrderData)
  (address : string) (w : World) :
  customerAddress orderData = Some address ->
  rejects (oracle (calls w)) = false ->
  rejects (oracle (S (calls w))) = true ->
  let orderId := "CLN-" ++ num_toString (now w) in
  let message := oracle (calls w) in
  let r := create_order rt oracle orderData w in
  fst r = Ok (ServerError (Rejected SheetsAppend))
  /\ order_of orderId (snd r)
     = Some (with_telegram (message_id message) (chat_id message)
               (new_order orderData orderId (now w)))
  /\ outbox (snd r)
     = (outbox w ++ [Sent (JStr (channel_for (extractCityFromAddress rt address)))
                       (MsgOffer orderId)])%list
  /\ sheet (snd r) = sheet w
  /\ (no_ledger_row orderId (sheet w) -> ledger_row orderId (sheet (snd r)) = -1).
Proof.
  intros Ha H0 H1 orderId message r. subst r.
  unfold create_order, try_catch.
  rewrite bind_get, bind_modify, Ha.
  rewrite (bind_ok _ _ _ _ _ (eq_refl : ret _ _ = (Ok _, _))).
  erewrite bind_ok by (apply bot_sendMessage_ok; exact H0).
  rewrite bind_modify.
  erewrite bind_thrown by (apply saveToGoogleSheets_rejected; exact H1).
  cbn [ret snd fst orders outbox sheet timers set_sheet set_orders answered log].
  split; [reflexivity|]. split; [apply order_of_set_update|].
  split; [reflexivity|]. split; [reflexivity|].
  apply no_ledger_row_index.
Qed.

Lemma create_order_without_ledger_row_witness :
  rejects (Demo.failing 1 1) = true
  /\ fst (create_order Demo.rt (Demo.failing 1) Demo.job Demo.w0)
     = Ok (ServerError (Rejected SheetsAppend))
  /\ sheet (snd (create_order Demo.rt (Demo.failing 1) Demo.job Demo.w0)) = [Demo.header].
Proof.
  split; [reflexivity|].
  destruct (create_order_without_ledger_row Demo.rt (Demo.failing 1) Demo.job
              "МОСКВА, ул. Ленина 5" Demo.w0 eq_refl eq_refl eq_refl)
    as (Hr & _ & _ & Hs & _).
  split; [exact Hr | exact Hs].
Defined.

(** *** Order ids *)

Lemma norm_not_nil d :
  Decimal.norm d <> Decimal.Pos Decimal.Nil /\ Decimal.norm d <> Decimal.Neg Decimal.Nil.
Proof.
  destruct d as [u|u]; simpl.
  - split; [|discriminate]. intros H. injection H as H. exact (DecimalFacts.unorm_nonnil u H).
  - destruct (Decimal.nzhead u); split; discriminate.
Qed.

Lemma to_int_not_nil z :
  Z.to_int z <> Decimal.Pos Decimal.Nil /\ Z.to_int z <> Decimal.Neg Decimal.Nil.
Proof.
  assert (E : Z.to_int z = Decimal.norm (Z.to_int z)).
  { rewrite <- DecimalZ.to_of. now rewrite DecimalZ.of_to. }
  rewrite E. apply norm_not_nil.
Qed.

Lemma num_toString_inj a b : num_toString a = num_toString b -> a = b.
Proof.
  unfold num_toString. intros H.
  apply (f_equal NilZero.int_of_string) in H.
  destruct (to_int_not_nil a) as [Ha1 Ha2]. destruct (to_int_not_nil b) as [Hb1 Hb2].
  rewrite !NilZero.isi in H by assumption.
  injection H as H. now apply DecimalZ.to_int_inj.
Qed.

Lemma order_id_inj a b : "CLN-" ++ num_toString a = "CLN-" ++ num_toString b -> a = b.
Proof. simpl. intros H. injection H as H. now apply num_toString_inj. Qed.

Lemma map_get_set_other {V : Type} (k k2 : string) (v : V) (m : list (string * V)) :
  k2 <> k ->
  map_get String.eqb k2 (map_set String.eqb k v m) = map_get String.eqb k2 m.
Proof.
  intros Hne. induction m as [|[k' v'] m IH]; simpl.
  - destruct (String.eqb k k2) eqn:E; [|reflexivity].
    apply String.eqb_eq in E. congruence.
  - destruct (String.eqb k' k) eqn:E; simpl.
    + apply String.eqb_eq in E. subst k'.
      destruct (String.eqb k k2) eqn:E2; [|reflexivity].
      apply String.eqb_eq in E2. congruence.
    + destruct (String.eqb k' k2); auto.
Qed.

Lemma map_set_keys_same {V : Type} (k : string) (v o : V) (m : list (string * V)) :
  map_get String.eqb k m = Some o -> map fst (map_set String.eqb k v m) = map fst m.
Proof.
  induction m as [|[k' v'] m IH]; simpl; [discriminate|].
  destruct (String.eqb k' k); simpl; [reflexivity|].
  intros H. now rewrite IH.
Qed.

(** What create-order does to the order map after storing the new order:
    it only writes to the order under the new id. *)
Lemma create_order_orders rt oracle orderData w :
  let orderId := "CLN-" ++ num_toString (now w) in
  map fst (orders (snd (create_order rt oracle orderData w)))
  = map fst (map_set String.eqb orderId (new_order orderData orderId (now w)) (orders w))
  /\ forall other, other <> orderId ->
       order_of other (snd (create_order rt oracle orderData w)) = order_of other w.
Proof.
  intros orderId. unfold create_order. rewrite snd_try_catch, bind_get, bind_modify.
  fold orderId. split.
  - match goal with
    | |- map fst (orders (snd (?rest ?w1))) = _ =>
        assert (H : advances (fun a b => map fst (orders b) = map fst (orders a)) rest);
        [| exact (H w1)]
    end.
    unfold saveToGoogleSheets.
    advance (fun a : World => @eq_refl _ (map fst (orders a)))
            (fun (a b c : World)
                 (H1 : map fst (orders b) = map fst (orders a))
                 (H2 : map fst (orders c) = map fst (orders b)) => eq_trans H2 H1)
            ltac:(cbn [orders set_orders set_sheet log answered];
                  first [reflexivity | apply map_update_keys]).
  - intros other Hne.
    match goal with
    | |- order_of other (snd (?rest ?w1)) = _ =>
        assert (H : advances (fun a b => order_of other b = order_of other a) rest);
        [| rewrite (H w1)]
    end.
    + unfold saveToGoogleSheets.
      advance (fun a : World => @eq_refl _ (order_of other a))
              (fun (a b c : World)
                   (H1 : order_of other b = order_of other a)
                   (H2 : order_of other c = order_of other b) => eq_trans H2 H1)
              ltac:(unfold order_of; cbn [orders set_orders set_sheet log answered];
                    first [reflexivity | now apply map_get_update_other]).
    + unfold order_of. cbn [orders set_orders]. now apply map_get_set_other.
Qed.

(** X13.  The id is [CLN-] followed by the creation instant, so a second
    create-order request in the same millisecond gets the id of the first
    and replaces its record: whatever that order was, taken or completed,
    the id now names a pending order made from the new body, whose worker,
    claim time and photos are those that the new body carries, none when it
    carries none; and the number of stored orders has not grown. *)
Theorem create_order_same_millisecond_replaces
  (rt : JsRuntime) (oracle : nat -> Reply) (orderData : OrderData)
  (o : Order) (w : World) :
  order_of ("CLN-" ++ num_toString (now w)) w = Some o ->
  let r := create_order rt oracle orderData w in
  (exists o', order_of ("CLN-" ++ num_toString (now w)) (snd r) = Some o'
              /\ status o' = pending /\ body o' = orderData
              /\ masterId o' = body_masterId orderData
              /\ masterName o' = body_masterName orderData
              /\ takenAt o' = body_takenAt orderData
              /\ photos o' = body_photos orderData)
  /\ map fst (orders (snd r)) = map fst (orders w).
Proof.
  intros Ho r. subst r. split.
  - destruct (create_order_stores rt oracle orderData w)
      as (o' & Ho' & [-> | (mid & cid & ->)]);
      eexists; (split; [exact Ho'|]); repeat split.
  - destruct (create_order_orders rt oracle orderData w) as [Hk _].
    rewrite Hk. exact (map_set_keys_same _ _ _ _ Ho).
Qed.

Lemma create_order_same_millisecond_replaces_witness :
  exists o,
    order_of "CLN-1000" w_same_millisecond = Some o /\ status o = taken
    /\ (exists o',
          order_of "CLN-1000"
            (snd (create_order Demo.rt instant_replies Demo.job w_same_millisecond))
          = Some o'
          /\ status o' = pending /\ body o' = Demo.job
          /\ masterId o' = body_masterId Demo.job
          /\ masterName o' = body_masterName Demo.job
          /\ takenAt o' = body_takenAt Demo.job
          /\ photos o' = body_photos Demo.job)
    /\ map fst (orders (snd (create_order Demo.rt instant_replies Demo.job
                               w_same_millisecond)))
       = map fst (orders w_same_millisecond).
Proof.
  destruct (order_of "CLN-1000" w_same_millisecond) as [o|] eqn:Ho;
    [| vm_compute in Ho; discriminate].
  exists o. split; [reflexivity|].
  split; [vm_compute in Ho; injection Ho as <-; reflexivity|].
  exact (create_order_same_millisecond_replaces Demo.rt instant_replies Demo.job o
           w_same_millisecond Ho).
Defined.

(** X14.  Orders created at different instants have different ids, and
    create-order writes only to the order under the new id: an order filed
    under [CLN-t] for an instant [t] other than the present one is exactly
    as it was when the request ends, whatever the outcome of the request. *)
Theorem create_order_keeps_earlier_orders
  (rt : JsRuntime) (oracle : nat -> Reply) (orderData : OrderData) (t : Z) (w : World) :
  t <> now w ->
  order_of ("CLN-" ++ num_toString t) (snd (create_order rt oracle orderData w))
  = order_of ("CLN-" ++ num_toString t) w.
Proof.
  intros Ht. destruct (create_order_orders rt oracle orderData w) as [_ H].
  apply H. intros E. apply Ht. exact (order_id_inj _ _ E).
Qed.

Lemma create_order_keeps_earlier_orders_witness :
  1000 <> now (handle Demo.rt Demo.calm Demo.TOKEN (Idle 1) Demo.w_taken_api)
  /\ order_of "CLN-1000"
       (snd (create_order Demo.rt Demo.calm Demo.job
               (handle Demo.rt Demo.calm Demo.TOKEN (Idle 1) Demo.w_taken_api)))
     = order_of "CLN-1000" (handle Demo.rt Demo.calm Demo.TOKEN (Idle 1) Demo.w_taken_api).
Proof.
  assert (Ht : 1000 <> now (handle Demo.rt Demo.calm Demo.TOKEN (Idle 1) Demo.w_taken_api))
    by (vm_compute; discriminate).
  split; [exact Ht|].
  exact (create_order_keeps_earlier_orders Demo.rt Demo.calm Demo.job 1000 _ Ht).
Defined.

(** *** Registration *)

Lemma js_eqb_eq a b : js_eqb a b = true -> a = b.
Proof.
  destruct a, b; simpl; try discriminate; intros H.
  - reflexivity.
  - apply Z.eqb_eq in H. now subst.
  - apply String.eqb_eq in H. now subst.
Qed.

Lemma directory_get_set_other {V : Type} (k k2 : jsval) (v : V) (m : list (jsval * V)) :
  k2 <> k ->
  map_get js_eqb k2 (map_set js_eqb k v m) = map_get js_eqb k2 m.
Proof.
  intros Hne. induction m as [|[k' v'] m IH]; simpl.
  - destruct (js_eqb k k2) eqn:E; [|reflexivity].
    apply js_eqb_eq in E. congruence.
  - destruct (js_eqb k' k) eqn:E; simpl.
    + apply js_eqb_eq in E. subst k'.
      destruct (js_eqb k k2) eqn:E2; [|reflexivity].
      apply js_eqb_eq in E2. congruence.
    + destruct (js_eqb k' k2); auto.
Qed.

(** X15.  [/start] files the sender's chat under the decimal rendering of
    the sender's id, replacing an earlier registration of the same worker;
    the entry of every other worker and every numeric key are as before,
    and neither the orders, nor the sheet, nor the armed reminders change:
    registering after a claim does not arm the reminders that the claim
    left out.  The only effect besides is the welcome message, sent without
    waiting for its outcome. *)
Theorem start_registers_worker (chatId userId : Z) (userName : string) (w : World) :
  let w' := snd (start chatId userId userName w) in
  map_get js_eqb (JStr (num_toString userId)) (masters w') = Some chatId
  /\ (forall other, other <> userId ->
        map_get js_eqb (JStr (num_toString other)) (masters w')
        = map_get js_eqb (JStr (num_toString other)) (masters w))
  /\ (forall n, map_get js_eqb (JNum n) (masters w') = map_get js_eqb (JNum n) (masters w))
  /\ orders w' = orders w /\ timers w' = timers w /\ sheet w' = sheet w
  /\ outbox w' = (outbox w ++ [Sent (JNum chatId) (MsgWelcome userName)])%list
  /\ calls w' = calls w.
Proof.
  unfold start, bot_sendMessage_detached. rewrite bind_modify. unfold modify.
  cbn [snd masters orders timers sheet outbox calls log set_masters].
  split; [apply map_get_set_same|].
  split.
  { intros other Hne. apply directory_get_set_other.
    intros E. injection E as E. apply Hne. now apply num_toString_inj. }
  split.
  { intros n. apply directory_get_set_other. discriminate. }
  repeat split.
Qed.

(** *** Callback buttons other than "take" *)

(** X16.  A callback whose data does not start with [take_] writes nothing:
    orders, directory, reminders and sheet are as before.  With data that
    starts with [reject_] the handler makes one call, the answer to the
    callback, and the order named in the data stays as it was, so a pending
    order is still on offer; with any other data the handler does nothing
    at all. *)
Theorem callback_without_take_writes_nothing
  (rt : JsRuntime) (oracle : nat -> Reply) (q : CallbackQuery) (w : World) :
  JsString.startsWith (cq_data q) "take_" = false ->
  let r := callback_query rt oracle q w in
  orders (snd r) = orders w /\ masters (snd r) = masters w
  /\ timers (snd r) = timers w /\ sheet (snd r) = sheet w
  /\ (if JsString.startsWith (cq_data q) "reject_"
      then calls (snd r) = S (calls w)
           /\ (rejects (oracle (calls w)) = false ->
               fst r = Ok tt
               /\ outbox (snd r) = (outbox w ++ [Answered (cq_id q) TextRejected])%list)
           /\ (rejects (oracle (calls w)) = true ->
               fst r = Throw (Rejected BotAnswerCallbackQuery) /\ outbox (snd r) = outbox w)
      else r = (Ok tt, w)).
Proof.
  intros Ht. unfold callback_query. cbv zeta. rewrite Ht.
  change (bind (ret tt) ?k w) with (k tt w). cbv beta.
  destruct (JsString.startsWith (cq_data q) "reject_").
  - unfold bot_answerCallbackQuery, bind, await, modify.
    destruct (rejects (oracle (calls w))); cbn; repeat split; intros; congruence.
  - cbn. repeat split.
Qed.

Lemma callback_without_take_writes_nothing_witness :
  let q := {| cq_id := "q"; cq_chat := -100; cq_message_id := 700;
              cq_data := "reject_CLN-1000"; cq_from := 42; cq_first_name := "Petr" |} in
  let r := callback_query Demo.rt Demo.calm q Demo.w_pending in
  JsString.startsWith (cq_data q) "take_" = false
  /\ orders (snd r) = orders Demo.w_pending
  /\ option_map status (order_of "CLN-1000" (snd r)) = Some pending.
Proof.
  intros q r.
  assert (Ht : JsString.startsWith (cq_data q) "take_" = false) by reflexivity.
  split; [exact Ht|].
  split;
    [exact (proj1 (callback_without_take_writes_nothing Demo.rt Demo.calm q Demo.w_pending Ht))|].
  unfold order_of. subst r.
  rewrite (proj1 (callback_without_take_writes_nothing Demo.rt Demo.calm q Demo.w_pending Ht)).
  vm_compute. reflexivity.
Defined.

(** *** Concurrent taps *)

(** X17.  Of any number of taps on the "take" button of a pending order,
    the first one claims the order and the later ones change nothing: after
    all of them the order carries the first sender's identity, name and the
    instant of the first tap, and every other order is as before.  This
    holds whatever the collaborator calls do; a first handler that stopped
    at a rejected call has still claimed the order. *)
Theorem first_tap_wins
  (rt : JsRuntime) (oracle : nat -> Reply) (token : string)
  (q : CallbackQuery) (qs : list CallbackQuery) (orderId : string) (o : Order)
  (w : World) :
  Forall (fun q' => cq_data q' = "take_" ++ orderId) (q :: qs) ->
  order_of orderId w = Some o ->
  status o = pending ->
  let w' := run rt oracle token (map Callback (q :: qs)) w in
  order_of orderId w'
  = Some (with_claim (JNum (cq_from q)) (cq_first_name q) (now w) o)
  /\ forall other, other <> orderId -> order_of other w' = order_of other w.
Proof.
  intros Hall Ho Hs w'. subst w'.
  pose proof (inline_claims_exactly_once rt oracle token q qs orderId o w Hall Ho Hs) as H.
  split.
  - unfold order_of at 1. rewrite H, order_of_update_same, Ho. reflexivity.
  - intros other Hne. unfold order_of. rewrite H. now apply map_get_update_other.
Qed.

Lemma first_tap_wins_witness :
  exists o,
    order_of "CLN-1000" Demo.w_pending = Some o
    /\ status o = pending
    /\ order_of "CLN-1000"
         (run Demo.rt (Demo.failing 3) Demo.TOKEN
            (map Callback [Demo.tap 42 "Petr"; Demo.tap 43 "Oleg"; Demo.tap 44 "Ivan"])
            Demo.w_pending)
       = Some (with_claim (JNum 42) "Petr" (now Demo.w_pending) o).
Proof.
  destruct (order_of "CLN-1000" Demo.w_pending) as [o|] eqn:Ho;
    [| vm_compute in Ho; discriminate].
  assert (Hs : status o = pending)
    by (vm_compute in Ho; injection Ho as <-; reflexivity).
  exists o. split; [reflexivity|]. split; [exact Hs|].
  refine (proj1 (first_tap_wins Demo.rt (Demo.failing 3) Demo.TOKEN
                   (Demo.tap 42 "Petr") [Demo.tap 43 "Oleg"; Demo.tap 44 "Ivan"]
                   "CLN-1000" o Demo.w_pending _ Ho Hs)).
  repeat constructor.
Defined.

(** *** Photos from a sender without a claimed order *)

Lemma find_entry_none {V : Type} (p : V -> bool) (m : list (string * V)) :
  (forall k v, In (k, v) m -> p v = false) -> find_entry p m = None.
Proof.
  induction m as [|[k v] m IH]; intros H; simpl; [reflexivity|].
  rewrite (H k v (or_introl eq_refl)). apply IH.
  intros k' v' Hin. apply (H k' v'). now right.
Qed.

Lemma assigned_taken_false from o :
  (status o = taken -> masterId o <> JNum from) -> assigned_taken from o = false.
Proof.
  intros H. unfold assigned_taken.
  destruct (status_eqb (status o) taken) eqn:Es; [|apply andb_false_r].
  destruct (js_eqb (masterId o) (JNum from)) eqn:Em; [|reflexivity].
  apply js_eqb_eq in Em. destruct (status o); try discriminate. now elim H.
Qed.

(** X18.  The photo handler looks for a taken order whose [masterId] is
    strictly equal to the sender's numeric id.  When no taken order has that
    number as its [masterId] (the sender has claimed nothing, or has claimed
    through the API with the id given as a string), a photo with a
    recognised caption is fetched and then dropped: one [getFile] call is
    made, and no order, no sheet cell and no reminder changes and no message
    is sent, not even a refusal. *)
Theorem photo_without_assigned_order
  (rt : JsRuntime) (oracle : nat -> Reply) (token : string)
  (msg : PhotoMessage) (stage : Stage) (w : World) :
  classify (caption_text msg) = Some stage ->
  (forall k o, In (k, o) (orders w) -> status o = taken ->
               masterId o <> JNum (pm_from msg)) ->
  let r := photo rt oracle token msg w in
  orders (snd r) = orders w /\ masters (snd r) = masters w
  /\ timers (snd r) = timers w /\ sheet (snd r) = sheet w
  /\ outbox (snd r) = outbox w /\ calls (snd r) = S (calls w).
Proof.
  intros Hc Hn r.
  assert (E : exists res, r = (res, answered (latency (oracle (calls w))) w)).
  { subst r. unfold photo. rewrite Hc. cbv zeta.
    assert (Hf : find_entry (assigned_taken (pm_from msg)) (orders w) = None).
    { apply find_entry_none. intros k o Hin. apply assigned_taken_false.
      now apply (Hn k). }
    unfold bind at 1. rewrite bot_getFile_run.
    destruct (rejects (oracle (calls w))); [eexists; reflexivity|].
    rewrite bind_get. cbn [orders answered]. rewrite Hf. eexists. reflexivity. }
  destruct E as [res ->]. cbn. repeat split.
Qed.

Lemma photo_without_assigned_order_witness :
  let msg := Demo.snap 42 "после" in
  let r := photo Demo.rt Demo.calm Demo.TOKEN msg Demo.w_taken_api in
  option_map masterId (order_of "CLN-1000" Demo.w_taken_api) = Some (JStr "42")
  /\ orders (snd r) = orders Demo.w_taken_api
  /\ outbox (snd r) = outbox Demo.w_taken_api.
Proof.
  intros msg r.
  assert (Hc : classify (caption_text msg) = Some After) by (vm_compute; reflexivity).
  assert (Hn : forall k o, In (k, o) (orders Demo.w_taken_api) -> status o = taken ->
                           masterId o <> JNum (pm_from msg)).
  { intros k o Hin _. vm_compute in Hin. destruct Hin as [Hin|[]].
    injection Hin as _ <-. discriminate. }
  pose proof (photo_without_assigned_order Demo.rt Demo.calm Demo.TOKEN msg After
                Demo.w_taken_api Hc Hn) as H.
  split; [vm_compute; reflexivity|].
  split; [exact (proj1 H) | exact (proj1 (proj2 (proj2 (proj2 (proj2 H)))))].
Defined.

(** *** Photos of the earlier stages *)

Lemma photo_stage_store rt oracle token msg stage key o w :
  classify (caption_text msg) = Some stage ->
  stage <> After ->
  find_entry (assigned_taken (pm_from msg)) (orders w) = Some (key, o) ->
  rejects (oracle (calls w)) = false ->
  orders (snd (photo rt oracle token msg w))
  = map_update String.eqb key
      (with_photo (stage_key stage) (photo_url token (file_path (oracle (calls w)))))
      (orders w).
Proof.
  intros Hc Hs Hf Hr. unfold photo. rewrite Hc. cbv zeta.
  unfold bind at 1. rewrite bot_getFile_run, Hr.
  rewrite bind_get. cbn [orders answered]. rewrite Hf, bind_modify.
  assert (Ea : String.eqb (stage_key stage) "after" = false)
    by (destruct stage; try reflexivity; congruence).
  rewrite Ea.
  match goal with
  | |- orders (snd (?rest ?w1)) = _ =>
      assert (H : preserves orders rest); [| now rewrite H]
  end.
  frame.
Qed.

(** X19.  A photo whose caption is classified as one of the three earlier
    stages, sent by a worker with a taken order: once the file has been
    fetched, the assignment of its address under the stage key is made on
    that order, also when the sheet call that follows rejects.  The address
    is stored unless the photos of the order are a truthy primitive that
    came with its body, which stays as it is.  The order stays taken and no
    other order changes. *)
Theorem photo_of_earlier_stage_keeps_order_taken
  (rt : JsRuntime) (oracle : nat -> Reply) (token : string)
  (msg : PhotoMessage) (stage : Stage) (key : string) (o : Order) (w : World) :
  NoDup (map fst (orders w)) ->
  classify (caption_text msg) = Some stage ->
  stage <> After ->
  find_entry (assigned_taken (pm_from msg)) (orders w) = Some (key, o) ->
  rejects (oracle (calls w)) = false ->
  let w' := snd (photo rt oracle token msg w) in
  (exists o', order_of key w' = Some o'
     /\ o' = with_photo (stage_key stage)
               (photo_url token (file_path (oracle (calls w)))) o
     /\ status o' = taken
     /\ (photos o <> PrimitivePhotos ->
         obj_get (stage_key stage) (photos_of o')
         = Some (photo_url token (file_path (oracle (calls w)))))
     /\ (photos o = PrimitivePhotos -> photos o' = PrimitivePhotos))
  /\ forall other, other <> key -> order_of other w' = order_of other w.
Proof.
  intros Hnd Hc Hs Hf Hr w'. subst w'.
  pose proof (photo_stage_store rt oracle token msg stage key o w Hc Hs Hf Hr) as H.
  destruct (found_order_is_taken _ _ _ _ Hnd Hf) as [Hget Hst].
  split.
  - eexists. split; [|split; [reflexivity|split; [|split]]].
    + unfold order_of. rewrite H, map_get_update_same, Hget. reflexivity.
    + exact Hst.
    + intros Hp. unfold photos_of. cbn [photos with_photo].
      destruct (record_photo_stored (stage_key stage)
                  (photo_url token (file_path (oracle (calls w)))) (photos o))
        as (entries & -> & Hg); [destruct stage; discriminate | exact Hp | exact Hg].
    + cbn [photos with_photo]. intros ->. reflexivity.
  - intros other Hne. unfold order_of. rewrite H. now apply map_get_update_other.
Qed.

Lemma photo_of_earlier_stage_keeps_order_taken_witness :
  let w' := snd (photo Demo.rt (Demo.failing 8) Demo.TOKEN (Demo.snap 42 "фото до уборки")
                   Demo.w_taken_inline) in
  exists o o',
    find_entry (assigned_taken 42) (orders Demo.w_taken_inline) = Some ("CLN-1000", o)
    /\ photos o <> PrimitivePhotos
    /\ order_of "CLN-1000" w' = Some o'
    /\ status o' = taken
    /\ obj_get "before" (photos_of o')
       = Some "https://api.telegram.org/file/botTOKEN/photos/file.jpg".
Proof.
  intros w'.
  destruct (find_entry (assigned_taken 42) (orders Demo.w_taken_inline)) as [[k o]|] eqn:Hf;
    [| vm_compute in Hf; discriminate].
  assert (Hk : k = "CLN-1000") by (vm_compute in Hf; injection Hf as <- _; reflexivity).
  assert (Hp : photos o <> PrimitivePhotos)
    by (vm_compute in Hf; injection Hf as _ <-; discriminate).
  subst k.
  assert (Hnd : NoDup (map fst (orders Demo.w_taken_inline)))
    by (vm_compute; repeat constructor; intros []).
  assert (Hc : classify (caption_text (Demo.snap 42 "фото до уборки")) = Some Before)
    by (vm_compute; reflexivity).
  assert (Hs : Before <> After) by discriminate.
  assert (Hr : rejects (Demo.failing 8 (calls Demo.w_taken_inline)) = false)
    by (vm_compute; reflexivity).
  destruct (photo_of_earlier_stage_keeps_order_taken Demo.rt (Demo.failing 8) Demo.TOKEN
              (Demo.snap 42 "фото до уборки") Before "CLN-1000" o Demo.w_taken_inline
              Hnd Hc Hs Hf Hr) as [(o' & Ho' & _ & Hst & Hstored & _) _].
  exists o, o'. split; [reflexivity|]. split; [exact Hp|]. split; [exact Ho'|].
  split; [exact Hst|]. exact (Hstored Hp).
Defined.

(** *** Orders that do not exist *)

(** X20.  For an id under which no order is stored, both endpoints answer
    "not found" without calling any collaborator and without writing
    anything, and the inline "take" button answers that the order is already
    taken, which is its answer for every order it cannot claim. *)
Theorem unknown_order_is_refused
  (rt : JsRuntime) (oracle : nat -> Reply) (orderId : string) (w : World) :
  order_of orderId w = None ->
  (forall m n, take_order rt oracle orderId m n w = (Ok NotFound, w))
  /\ (forall type photoUrl,
        upload_photo rt oracle orderId type photoUrl w = (Ok NotFound, w))
  /\ (forall q, cq_data q = "take_" ++ orderId ->
        let r := callback_query rt oracle q w in
        orders (snd r) = orders w /\ sheet (snd r) = sheet w
        /\ timers (snd r) = timers w /\ calls (snd r) = S (calls w)
        /\ (rejects (oracle (calls w)) = false ->
            outbox (snd r) = (outbox w ++ [Answered (cq_id q) TextAlreadyTaken])%list)).
Proof.
  intros Ho. split; [|split].
  - intros m n. now apply take_order_missing.
  - intros type photoUrl. now apply upload_photo_missing.
  - intros q Hd r. subst r.
    rewrite (callback_query_conflict rt oracle q orderId w Hd)
      by (intros o Ho'; congruence).
    unfold bot_answerCallbackQuery, bind, await, modify.
    destruct (rejects (oracle (calls w))); cbn; repeat split; intros; congruence.
Qed.

Lemma unknown_order_is_refused_witness :
  order_of "CLN-7" Demo.w_pending = None
  /\ take_order Demo.rt Demo.calm "CLN-7" (JStr "42") "Petr" Demo.w_pending
     = (Ok NotFound, Demo.w_pending)
  /\ upload_photo Demo.rt Demo.calm "CLN-7" "after" "http://x/1.jpg" Demo.w_pending
     = (Ok NotFound, Demo.w_pending).
Proof.
  assert (Ho : order_of "CLN-7" Demo.w_pending = None) by (vm_compute; reflexivity).
  pose proof (unknown_order_is_refused Demo.rt Demo.calm "CLN-7" Demo.w_pending Ho)
    as (Ht & Hu & _).
  split; [exact Ho|]. split; [apply Ht | apply Hu].
Defined.

(** *** Claims through the API under a numeric identity *)

Lemma take_order_numeric_timers rt oracle orderId n name w :
  string_keys (masters w) ->
  timers (snd (take_order rt oracle orderId (JNum n) name w)) = timers w.
Proof.
  intros Hk. unfold take_order. rewrite snd_try_catch, bind_get.
  destruct (map_get String.eqb orderId (orders w)) as [o|] eqn:Ho; [|reflexivity].
  rewrite bind_modify.
  set (w0 := set_orders (map_update String.eqb orderId (with_claim (JNum n) name (now w))) w).
  assert (Hcore : forall (m : M Response),
            core (snd (m w0)) = core w0 -> timers (snd (m w0)) = timers w).
  { intros m H. unfold core in H. inversion H. reflexivity. }
  apply Hcore.
  apply bind_core; [frame|]. intros _ w1 H1.
  apply bind_core; [frame|]. intros _ w2 H2.
  apply bind_core; [unfold updateGoogleSheet; frame|]. intros _ w3 H3.
  assert (H : core w3 = core w0) by congruence.
  unfold core in H. inversion H as [[Ho3 Hm3 Ht3]].
  unfold bind.
  rewrite (scheduleNotifications_numeric_id rt orderId _ _
             (with_claim (JNum n) name (now w) o) n w3); try reflexivity.
  - rewrite Hm3. exact Hk.
  - unfold order_of. rewrite Ho3. unfold w0. simpl.
    rewrite map_get_update_same, Ho. reflexivity.
Qed.

(** X21.  The directory is keyed by the decimal string of the worker's id.
    A claim through the API that gives [masterId] as a number therefore
    finds no chat for the worker, registered or not: after any history, such
    a claim is written on the order, and it arms no reminder. *)
Theorem api_claim_under_numeric_id_arms_no_reminder
  (rt : JsRuntime) (oracle : nat -> Reply) (token : string)
  (es : list Event) (sh : list (list string)) (t : Z)
  (orderId : string) (n : Z) (name : string) :
  let w := run rt oracle token es (boot sh t) in
  let w' := snd (take_order rt oracle orderId (JNum n) name w) in
  timers w' = timers w
  /\ forall o, order_of orderId w = Some o ->
       exists o', order_of orderId w' = Some o'
                  /\ status o' = taken /\ masterId o' = JNum n
                  /\ map_get js_eqb (masterId o') (masters w') = None.
Proof.
  intros w w'.
  destruct (reachable_invariants rt oracle token es sh t) as (_ & _ & Hk).
  fold w in Hk. unfold directory_by_string in Hk.
  split; [now apply take_order_numeric_timers|].
  intros o Ho. exists (with_claim (JNum n) name (now w) o).
  split; [|split; [reflexivity | split; [reflexivity|]]].
  - unfold w'. now apply take_order_overwrites.
  - assert (Hm : preserves masters (take_order rt oracle orderId (JNum n) name))
      by (unfold take_order, updateGoogleSheet, scheduleNotifications, setTimeout; frame).
    unfold w'. rewrite Hm. simpl. now apply string_keys_no_number.
Qed.

Lemma api_claim_under_numeric_id_arms_no_reminder_witness :
  masters Demo.w_registered = [(JStr "42", 55)]
  /\ option_map masterId
       (order_of "CLN-1000"
          (snd (take_order Demo.rt Demo.calm "CLN-1000" (JNum 42) "Petr" Demo.w_registered)))
     = Some (JNum 42)
  /\ timers (snd (take_order Demo.rt Demo.calm "CLN-1000" (JNum 42) "Petr" Demo.w_registered))
     = timers Demo.w_registered.
Proof.
  split; [reflexivity|]. split; [vm_compute; reflexivity|].
  exact (proj1 (api_claim_under_numeric_id_arms_no_reminder Demo.rt Demo.calm Demo.TOKEN
                  [CreateOrder Demo.job; Start 55 42 "Petr"] [Demo.header] 1000
                  "CLN-1000" 42 "Petr")).
Defined.

(** *** Reminders outside the timer range *)

(** X22.  For a registered worker both reminders are armed whatever the job
    time is.  When date and time do not parse, both delays are NaN; when the
    job lies more than [TIMEOUT_MAX] ms plus 24 hours ahead, both delays
    exceed the 32-bit range of [setTimeout].  In both cases Node replaces
    the delay by 1 ms, so the two reminders fire right after the claim. *)
Theorem reminders_out_of_range_fire_at_once
  (rt : JsRuntime) (orderId date time : string) (o : Order) (chat : Z) (w : World) :
  order_of orderId w = Some o ->
  map_get js_eqb (masterId o) (masters w) = Some chat ->
  truthy chat = true ->
  (Date_parse rt (date ++ "T" ++ time) = None
   \/ exists T, Date_parse rt (date ++ "T" ++ time) = Some T
                /\ now w + TIMEOUT_MAX < T - 24 * 60 * 60 * 1000) ->
  exists t24 t2,
    scheduleNotifications rt orderId date time w = (Ok tt, add_timer t2 (add_timer t24 w))
    /\ (t_chat t24 = chat /\ t_kind t24 = Reminder24h /\ t_order t24 = orderId)
    /\ (t_chat t2 = chat /\ t_kind t2 = Reminder2h /\ t_order t2 = orderId)
    /\ fires_at t24 = now w + 1
    /\ fires_at t2 = now w + 1.
Proof.
  unfold order_of. intros Ho Hm Ht [Hp | (T & Hp & Hfar)].
  - do 2 eexists. split.
    + unfold scheduleNotifications. rewrite bind_get, Ho, Hm, Ht, Hp. reflexivity.
    + cbn. repeat split.
  - do 2 eexists. split.
    + unfold scheduleNotifications. rewrite bind_get, Ho, Hm, Ht, Hp. reflexivity.
    + unfold fires_at, node_delay, TIMEOUT_MAX in *.
      cbn [t_chat t_kind t_order t_delay t_armedAt option_map].
      repeat split.
      * destruct (T - 24 * 60 * 60 * 1000 - now w <? 1) eqn:E1; [reflexivity|].
        destruct (2147483647 <? T - 24 * 60 * 60 * 1000 - now w) eqn:E2; [reflexivity|].
        apply Z.ltb_ge in E2. lia.
      * destruct (T - 2 * 60 * 60 * 1000 - now w <? 1) eqn:E1; [reflexivity|].
        destruct (2147483647 <? T - 2 * 60 * 60 * 1000 - now w) eqn:E2; [reflexivity|].
        apply Z.ltb_ge in E2. lia.
Qed.

Lemma reminders_out_of_range_fire_at_once_witness :
  exists o t24 t2,
    order_of "CLN-1000" Demo.w_claim_written = Some o
    /\ map_get js_eqb (masterId o) (masters Demo.w_claim_written) = Some 55
    /\ Date_parse Demo.rt ("завтра" ++ "T" ++ "12:00") = None
    /\ scheduleNotifications Demo.rt "CLN-1000" "завтра" "12:00" Demo.w_claim_written
       = (Ok tt, add_timer t2 (add_timer t24 Demo.w_claim_written))
    /\ fires_at t24 = now Demo.w_claim_written + 1
    /\ fires_at t2 = now Demo.w_claim_written + 1.
Proof.
  destruct (order_of "CLN-1000" Demo.w_claim_written) as [o|] eqn:Ho;
    [| vm_compute in Ho; discriminate].
  assert (Hm : map_get js_eqb (masterId o) (masters Demo.w_claim_written) = Some 55)
    by (vm_compute in Ho; injection Ho as <-; vm_compute; reflexivity).
  assert (Hp : Date_parse Demo.rt ("завтра" ++ "T" ++ "12:00") = None)
    by (vm_compute; reflexivity).
  destruct (reminders_out_of_range_fire_at_once Demo.rt "CLN-1000" "завтра" "12:00" o 55
              Demo.w_claim_written Ho Hm eq_refl (or_introl Hp))
    as (t24 & t2 & Hrun & _ & _ & H24 & H2).
  exists o, t24, t2. repeat split; assumption.
Defined.

(** *** The statistics endpoint *)

Lemma count_status_columns (s : Status) (sh : list (list string)) :
  count_status s (map (firstn 26) sh) = count_status s sh.
Proof.
  unfold count_status. induction sh as [|row sh IH]; [reflexivity|].
  cbn [map filter]. rewrite nth_error_firstn.
  change (COL_K <? 26)%nat with true. cbv iota.
  destruct (nth_error row COL_K) as [c|]; [|exact IH].
  destruct (String.eqb c (status_str s)); cbn [List.length]; now rewrite IH.
Qed.

Lemma count_status_app (s : Status) (sh sh' : list (list string)) :
  count_status s (sh ++ sh') = (count_status s sh + count_status s sh')%nat.
Proof. unfold count_status. now rewrite filter_app, length_app. Qed.

Lemma count_status_partition (sh : list (list string)) :
  (count_status pending sh + count_status taken sh + count_status completed sh)%nat
  = List.length (filter counted_row sh).
Proof.
  induction sh as [|row sh IH]; [reflexivity|].
  unfold count_status in *. cbn [filter]. unfold counted_row at 1, status_word.
  cbn [status_str] in IH |- *.
  destruct (nth_error row COL_K) as [c|]; [|exact IH].
  destruct (String.eqb c "pending") eqn:Ep.
  - apply String.eqb_eq in Ep. subst c.
    change (String.eqb "pending" "taken") with false.
    change (String.eqb "pending" "completed") with false.
    cbn [orb List.length]. lia.
  - destruct (String.eqb c "taken") eqn:Et.
    + apply String.eqb_eq in Et. subst c.
      change (String.eqb "taken" "completed") with false.
      cbn [orb List.length]. lia.
    + destruct (String.eqb c "completed"); cbn [orb List.length]; lia.
Qed.

Lemma get_stats_run oracle w :
  get_stats oracle w
  = (if rejects (oracle (calls w)) then Ok (StatsError (Rejected SheetsGet))
     else match sheet w with
          | [] => Ok (StatsError TypeError)
          | sh => Ok (StatsOk {| total := Z.of_nat (List.length sh) - 1;
                                 stats_pending := count_status pending sh;
                                 stats_taken := count_status taken sh;
                                 stats_completed := count_status completed sh |})
          end,
     answered (latency (oracle (calls w))) w).
Proof.
  unfold get_stats, try_catch, bind, await.
  destruct (rejects (oracle (calls w))); [reflexivity|].
  cbn [get fst snd sheet answered].
  destruct (sheet w) as [|row sh] eqn:Es; [reflexivity|].
  cbn [ret]. rewrite length_map, !count_status_columns. reflexivity.
Qed.

(** X23.  The statistics endpoint only reads: orders, directory, reminders
    and sheet are as before.  When the read rejects it answers 500 with that
    error.  Otherwise [total] is the number of rows less the header, and
    the three counters count the rows by the exact text of column K: their
    sum is the number of rows whose column K holds one of the three status
    words, so a row whose column K was overwritten with something else is
    in [total] and in none of the counters. *)
Theorem stats_counts_rows_by_status_cell (oracle : nat -> Reply) (w : World) :
  let r := get_stats oracle w in
  (orders (snd r) = orders w /\ masters (snd r) = masters w
   /\ timers (snd r) = timers w /\ sheet (snd r) = sheet w)
  /\ (rejects (oracle (calls w)) = true -> fst r = Ok (StatsError (Rejected SheetsGet)))
  /\ (rejects (oracle (calls w)) = false -> sheet w <> [] ->
      exists st,
        fst r = Ok (StatsOk st)
        /\ total st = Z.of_nat (List.length (sheet w)) - 1
        /\ stats_pending st = count_status pending (sheet w)
        /\ stats_taken st = count_status taken (sheet w)
        /\ stats_completed st = count_status completed (sheet w)
        /\ (stats_pending st + stats_taken st + stats_completed st)%nat
           = List.length (filter counted_row (sheet w))
        /\ Z.of_nat (stats_pending st + stats_taken st + stats_completed st)
           <= total st + 1).
Proof.
  intros r. subst r. rewrite get_stats_run. cbn [fst snd].
  split; [repeat split|]. split.
  - intros ->. reflexivity.
  - intros -> Hne. destruct (sheet w) as [|row sh] eqn:Es; [congruence|].
    eexists. split; [reflexivity|]. cbn [total stats_pending stats_taken stats_completed].
    repeat split.
    + apply count_status_partition.
    + rewrite count_status_partition.
      pose proof (filter_length_le counted_row (row :: sh)). lia.
Qed.

Lemma create_order_sheet rt oracle orderData address w :
  customerAddress orderData = Some address ->
  rejects (oracle (calls w)) = false ->
  rejects (oracle (S (calls w))) = false ->
  exists row,
    sheet (snd (create_order rt oracle orderData w)) = (sheet w ++ [row])%list
    /\ nth_error row COL_K = Some "pending"
    /\ calls (snd (create_order rt oracle orderData w)) = S (S (calls w)).
Proof.
  intros Ha H0 H1. unfold create_order, try_catch.
  rewrite bind_get, bind_modify, Ha.
  rewrite (bind_ok _ _ _ _ _ (eq_refl : ret _ _ = (Ok _, _))).
  erewrite bind_ok by (apply bot_sendMessage_ok; exact H0).
  rewrite bind_modify.
  match goal with
  | |- context [bind (saveToGoogleSheets rt oracle ?d ?i ?s) _ ?w1] =>
      destruct (saveToGoogleSheets_ok rt oracle d i s w1 H1) as (row & Hsave & _ & Hk)
  end.
  erewrite bind_ok by exact Hsave.
  exists row. cbn. auto.
Qed.

(** X24.  Creation and statistics compose: right after a create-order
    request that succeeded, the statistics endpoint reports one more order
    in [total] and one more in [pending] than the sheet had rows and pending
    rows before, and the same [taken] and [completed]. *)
Theorem stats_after_create_order
  (rt : JsRuntime) (oracle : nat -> Reply) (orderData : OrderData)
  (address : string) (w : World) :
  customerAddress orderData = Some address ->
  rejects (oracle (calls w)) = false ->
  rejects (oracle (S (calls w))) = false ->
  rejects (oracle (S (S (calls w)))) = false ->
  exists st,
    fst (get_stats oracle (snd (create_order rt oracle orderData w))) = Ok (StatsOk st)
    /\ total st = Z.of_nat (List.length (sheet w))
    /\ stats_pending st = S (count_status pending (sheet w))
    /\ stats_taken st = count_status taken (sheet w)
    /\ stats_completed st = count_status completed (sheet w).
Proof.
  intros Ha H0 H1 H2.
  destruct (create_order_sheet rt oracle orderData address w Ha H0 H1)
    as (row & Hs & Hk & Hc).
  rewrite get_stats_run, Hc, H2, Hs. cbn [fst].
  assert (Hone : forall s, count_status s [row]
                           = if String.eqb "pending" (status_str s) then 1%nat else 0%nat).
  { intros s. unfold count_status. cbn [filter]. rewrite Hk.
    destruct (String.eqb "pending" (status_str s)); reflexivity. }
  destruct (sheet w ++ [row])%list as [|r0 rest] eqn:E.
  { destruct (sheet w); discriminate. }
  eexists. split; [reflexivity|].
  cbn [total stats_pending stats_taken stats_completed]. rewrite <- E.
  rewrite !count_status_app, !Hone, length_app. cbn. repeat split; lia.
Qed.

Lemma stats_after_create_order_witness :
  exists st,
    fst (get_stats Demo.calm (snd (create_order Demo.rt Demo.calm Demo.job Demo.w0)))
    = Ok (StatsOk st)
    /\ total st = 1 /\ stats_pending st = 1%nat.
Proof.
  destruct (stats_after_create_order Demo.rt Demo.calm Demo.job "МОСКВА, ул. Ленина 5"
              Demo.w0 eq_refl eq_refl eq_refl eq_refl) as (st & Hr & Ht & Hp & _).
  exists st. split; [exact Hr|]. split; [exact Ht | exact Hp].
Defined.

Lemma filter_write_row (f : list string -> bool) r col vs sh row :
  nth_error sh r = Some row ->
  (List.length (filter f (write_row r col vs sh)) + (if f row then 1 else 0))%nat
  = (List.length (filter f sh) + (if f (put_at col vs row) then 1 else 0))%nat.
Proof.
  revert sh. induction r as [|r IH]; intros [|x sh] H; simpl in H; try discriminate.
  - injection H as ->. cbn [write_row filter].
    destruct (f row), (f (put_at col vs row)); cbn [List.length]; lia.
  - cbn [write_row filter]. specialize (IH sh H).
    destruct (f x); cbn [List.length]; lia.
Qed.

(** X25.  The upload-photo endpoint writes the photo address into column K
    of the order's row, the column that the statistics endpoint reads as
    the status.  So when its ledger calls resolve, a row that was counted
    under its status is counted under no status any more: the sum of the
    three counters over the sheet falls by one while the number of rows
    stays. *)
Theorem upload_photo_takes_order_out_of_counters
  (rt : JsRuntime) (oracle : nat -> Reply) (orderId type photoUrl : string)
  (o : Order) (c : string) (w : World) :
  order_of orderId w = Some o ->
  0 <= ledger_row orderId (sheet w) ->
  rejects (oracle (calls w)) = false ->
  rejects (oracle (S (calls w))) = false ->
  cell (sheet w) (Z.to_nat (ledger_row orderId (sheet w))) COL_K = Some c ->
  status_word c = true ->
  status_word photoUrl = false ->
  let sh' := sheet (snd (upload_photo rt oracle orderId type photoUrl w)) in
  (count_status pending sh' + count_status taken sh' + count_status completed sh' + 1)%nat
  = (count_status pending (sheet w) + count_status taken (sheet w)
     + count_status completed (sheet w))%nat
  /\ List.length sh' = List.length (sheet w).
Proof.
  intros Ho Hi H1 H2 Hc Hw Hu sh'. subst sh'.
  rewrite (upload_photo_sheet rt oracle orderId type photoUrl o w Ho Hi H1 H2).
  fold (ledger_row orderId (sheet w)).
  destruct (ledger_row_found orderId (sheet w) Hi) as (row & Hrow & _).
  unfold cell in Hc. rewrite Hrow in Hc.
  split.
  - rewrite !count_status_partition.
    pose proof (filter_write_row counted_row _ COL_K
                  [photoUrl; toISOString rt (now w)] _ _ Hrow) as H.
    assert (Hold : counted_row row = true) by (unfold counted_row; now rewrite Hc).
    assert (Hnew : counted_row (put_at COL_K [photoUrl; toISOString rt (now w)] row) = false).
    { unfold counted_row.
      pose proof (nth_error_put_at COL_K [photoUrl; toISOString rt (now w)] row 0) as Hp.
      change (COL_K + 0)%nat with COL_K in Hp. rewrite Hp by (simpl; lia). exact Hu. }
    rewrite Hold, Hnew in H. lia.
  - apply write_row_length. apply nth_error_Some. congruence.
Qed.

Lemma upload_photo_takes_order_out_of_counters_witness :
  let sh' := sheet (snd (upload_photo Demo.rt Demo.calm "CLN-1000" "before"
                           "http://x/1.jpg" Demo.w_taken_api)) in
  (count_status pending (sheet Demo.w_taken_api)
   + count_status taken (sheet Demo.w_taken_api)
   + count_status completed (sheet Demo.w_taken_api))%nat = 1%nat
  /\ (count_status pending sh' + count_status taken sh' + count_status completed sh' + 1)%nat
     = 1%nat.
Proof.
  intros sh'.
  assert (Hsum : (count_status pending (sheet Demo.w_taken_api)
                  + count_status taken (sheet Demo.w_taken_api)
                  + count_status completed (sheet Demo.w_taken_api))%nat = 1%nat)
    by (vm_compute; reflexivity).
  split; [exact Hsum|].
  destruct (order_of "CLN-1000" Demo.w_taken_api) as [o|] eqn:Ho;
    [| vm_compute in Ho; discriminate].
  assert (Hi : 0 <= ledger_row "CLN-1000" (sheet Demo.w_taken_api))
    by (vm_compute; discriminate).
  assert (Hc : cell (sheet Demo.w_taken_api)
                 (Z.to_nat (ledger_row "CLN-1000" (sheet Demo.w_taken_api))) COL_K
               = Some "taken") by (vm_compute; reflexivity).
  rewrite <- Hsum at 2.
  exact (proj1 (upload_photo_takes_order_out_of_counters Demo.rt Demo.calm "CLN-1000"
                  "before" "http://x/1.jpg" o "taken" Demo.w_taken_api
                  Ho Hi eq_refl eq_refl Hc eq_refl eq_refl)).
Defined.

(** *** The id column of the ledger *)

Lemma column_B_put_at vs row : column_B (put_at COL_K vs row) = column_B row.
Proof.
  unfold column_B. rewrite (put_at_before COL_K vs row 1) by (unfold COL_K; lia).
  reflexivity.
Qed.

Lemma write_row_column_B r vs sh :
  extends (map column_B sh) (map column_B (write_row r COL_K vs sh)).
Proof.
  revert sh. induction r as [|r IH]; intros [|row sh]; cbn [write_row map].
  - now exists [column_B (put_at COL_K vs [])].
  - rewrite column_B_put_at. apply extends_refl.
  - destruct (IH []) as [more Hm]. cbn [map] in Hm. exists (column_B [] :: more).
    cbn [app]. now rewrite Hm.
  - destruct (IH sh) as [more Hm]. exists more. cbn [app]. now rewrite Hm.
Qed.

Lemma ledger_kept_refl w : ledger_kept w w.
Proof. apply extends_refl. Qed.

Lemma ledger_kept_trans a b c : ledger_kept a b -> ledger_kept b c -> ledger_kept a c.
Proof. apply extends_trans. Qed.

Ltac step_ledger :=
  unfold ledger_kept; cbn [sheet set_orders set_masters set_sheet add_timer log answered];
  first [ apply extends_refl
        | apply write_row_column_B
        | rewrite map_app; eexists; reflexivity ].

Lemma handle_ledger_kept rt oracle token e w :
  ledger_kept w (handle rt oracle token e w).
Proof.
  destruct e; cbn [handle];
    [ as_advances w;
      unfold saveToGoogleSheets, photo_after_branch, notifyManager, updateGoogleSheet,
        scheduleNotifications, setTimeout;
      advance ledger_kept_refl ledger_kept_trans step_ledger ..
    | step_ledger
    | unfold ledger_kept; rewrite fire_sheet; apply extends_refl ].
Qed.

(** X26.  The ledger is append-only in its id column: across every
    sequence of requests and Telegram events no row is removed, the text
    read in column B of every row stays what it was, and rows are only
    added at the end. *)
Theorem ledger_ids_are_append_only
  (rt : JsRuntime) (oracle : nat -> Reply) (token : string)
  (es : list Event) (w : World) :
  (exists added,
     map column_B (sheet (run rt oracle token es w))
     = (map column_B (sheet w) ++ added)%list)
  /\ (List.length (sheet w) <= List.length (sheet (run rt oracle token es w)))%nat.
Proof.
  pose proof (advances_run ledger_kept ledger_kept_refl ledger_kept_trans rt oracle token
                (handle_ledger_kept rt oracle token) es w) as [added H].
  split; [now exists added|].
  apply (f_equal (@List.length string)) in H.
  rewrite length_app, !length_map in H. lia.
Qed.

(** *** A claim whose offer cannot be deleted *)

(** X27.  The API claim writes the order before it deletes the offer.  When
    that deletion rejects, the endpoint answers 500 and the order is
    nevertheless taken by the caller: nothing is sent to the worker, the
    sheet still shows the old status, no reminder is armed, and the inline
    button of the offer that is still in the channel now answers "already
    taken" without changing anything. *)
Theorem api_claim_survives_failed_delete
  (rt : JsRuntime) (oracle : nat -> Reply) (orderId : string) (m : jsval) (n : string)
  (o : Order) (w : World) :
  order_of orderId w = Some o ->
  rejects (oracle (calls w)) = true ->
  let r := take_order rt oracle orderId m n w in
  fst r = Ok (ServerError (Rejected BotDeleteMessage))
  /\ order_of orderId (snd r) = Some (with_claim m n (now w) o)
  /\ sheet (snd r) = sheet w /\ timers (snd r) = timers w /\ outbox (snd r) = outbox w
  /\ forall oracle' q, cq_data q = "take_" ++ orderId ->
       orders (snd (callback_query rt oracle' q (snd r))) = orders (snd r).
Proof.
  intros Ho Hr r.
  assert (E : r = (Ok (ServerError (Rejected BotDeleteMessage)),
                   answered (latency (oracle (calls w)))
                     (set_orders (map_update String.eqb orderId (with_claim m n (now w))) w))).
  { subst r. unfold take_order, try_catch. unfold order_of in Ho.
    rewrite bind_get, Ho, bind_modify.
    erewrite bind_thrown;
      [| unfold bot_deleteMessage; apply bind_thrown; apply await_rejected; exact Hr].
    reflexivity. }
  assert (Hnew : order_of orderId (snd r) = Some (with_claim m n (now w) o)).
  { rewrite E. unfold order_of. cbn [snd orders answered set_orders].
    rewrite order_of_update_same, Ho. reflexivity. }
  split; [now rewrite E|]. split; [exact Hnew|].
  split; [now rewrite E|]. split; [now rewrite E|]. split; [now rewrite E|].
  intros oracle' q Hd. apply (callback_query_guarded rt oracle' q orderId (snd r) Hd).
  intros o' Ho'. rewrite Hnew in Ho'. injection Ho' as <-. discriminate.
Qed.

Lemma api_claim_survives_failed_delete_witness :
  exists o,
    order_of "CLN-1000" Demo.w_pending = Some o
    /\ fst (take_order Demo.rt (Demo.failing 2) "CLN-1000" (JStr "42") "Petr" Demo.w_pending)
       = Ok (ServerError (Rejected BotDeleteMessage))
    /\ order_of "CLN-1000"
         (snd (take_order Demo.rt (Demo.failing 2) "CLN-1000" (JStr "42") "Petr"
                 Demo.w_pending))
       = Some (with_claim (JStr "42") "Petr" (now Demo.w_pending) o).
Proof.
  destruct (order_of "CLN-1000" Demo.w_pending) as [o|] eqn:Ho;
    [| vm_compute in Ho; discriminate].
  assert (Hr : rejects (Demo.failing 2 (calls Demo.w_pending)) = true)
    by (vm_compute; reflexivity).
  destruct (api_claim_survives_failed_delete Demo.rt (Demo.failing 2) "CLN-1000"
              (JStr "42") "Petr" o Demo.w_pending Ho Hr) as (H1 & H2 & _).
  exists o. split; [reflexivity|]. split; [exact H1 | exact H2].
Defined.

(** *** The channel of the broadcast *)

(** X28.  [extractCityFromAddress] only returns a key of [CITY_CHANNELS]:
    for every address and every lower-casing, the city it returns has a
    channel in the table, so the offer goes to the channel of that city and
    the fallback after [||] in create-order is never used. *)
Theorem extracted_city_has_a_channel (rt : JsRuntime) (address : string) :
  let city := extractCityFromAddress rt address in
  channel_of city CITY_CHANNELS = Some (channel_for city)
  /\ In (city, channel_for city) CITY_CHANNELS.
Proof.
  unfold extractCityFromAddress. cbn [CITY_CHANNELS map fst city_loop].
  destruct (JsString.includes (toLowerCase rt address) (toLowerCase rt "Москва"));
    [split; [reflexivity | cbn; auto]|].
  destruct (JsString.includes (toLowerCase rt address) (toLowerCase rt "Санкт-Петербург"));
    [split; [reflexivity | cbn; auto]|].
  destruct (JsString.includes (toLowerCase rt address) (toLowerCase rt "Казань"));
    split; first [reflexivity | cbn; auto].
Qed.

(** *** One address per photo type *)

(** The two assignments that store nothing: the key [__proto__] on an
    object that has no own property of that name, and any key on photos
    that are a truthy primitive. *)
Lemma record_photo_not_stored :
  record_photo "__proto__" "http://x/1.jpg" NoPhotos = PhotoObject []
  /\ record_photo "__proto__" "http://x/1.jpg" (PhotoObject [("before", "http://x/0.jpg")])
     = PhotoObject [("before", "http://x/0.jpg")]
  /\ record_photo "__proto__" "http://x/1.jpg" (PhotoObject [("__proto__", "x")])
     = PhotoObject [("__proto__", "http://x/1.jpg")]
  /\ record_photo "after" "http://x/1.jpg" PrimitivePhotos = PrimitivePhotos.
Proof. repeat split. Qed.

(** X29.  The upload-photo endpoint keeps one address per photo type and
    does not check the type.  On an order whose photos are absent or an
    ordinary object, for any string given as type other than [__proto__], the
    address is stored under that key, the addresses under the other keys
    stay, and a second upload of the same type replaces the first without
    adding a key.  This holds whatever the collaborator calls of the two
    requests do. *)
Theorem upload_photo_keeps_last_address_per_type
  (rt : JsRuntime) (oracle oracle' : nat -> Reply)
  (orderId type url1 url2 : string) (o : Order) (w : World) :
  order_of orderId w = Some o ->
  type <> "__proto__" ->
  photos o <> PrimitivePhotos ->
  let w1 := snd (upload_photo rt oracle orderId type url1 w) in
  let w2 := snd (upload_photo rt oracle' orderId type url2 w1) in
  exists o1 o2,
    order_of orderId w1 = Some o1 /\ order_of orderId w2 = Some o2
    /\ obj_get type (photos_of o1) = Some url1
    /\ obj_get type (photos_of o2) = Some url2
    /\ map fst (photos_of o2) = map fst (photos_of o1)
    /\ forall other, other <> type ->
         obj_get other (photos_of o2) = obj_get other (photos_of o).
Proof.
  intros Ho Ht Hp w1 w2.
  pose proof (upload_photo_result rt oracle orderId type url1 o w Ho) as H1.
  fold w1 in H1.
  pose proof (upload_photo_result rt oracle' orderId type url2 _ w1 H1) as H2.
  fold w2 in H2.
  exists (with_photo type url1 o), (with_photo type url2 (with_photo type url1 o)).
  split; [exact H1|]. split; [exact H2|].
  unfold photos_of. cbn [photos with_photo].
  destruct (photos o) as [| |entries]; [|congruence|]; cbn [record_photo];
    rewrite !(assign_plain _ _ _ Ht);
    (split; [apply obj_get_set_same|]); (split; [apply obj_get_set_same|]);
    (split; [apply obj_set_keys_same|]);
    intros other Hne; now rewrite !obj_get_set_other.
Qed.

Lemma upload_photo_keeps_last_address_per_type_witness :
  exists o o2,
    order_of "CLN-1000" Demo.w_pending = Some o
    /\ photos o <> PrimitivePhotos
    /\ order_of "CLN-1000"
         (snd (upload_photo Demo.rt Demo.calm "CLN-1000" "selfie" "http://x/2.jpg"
                 (snd (upload_photo Demo.rt Demo.calm "CLN-1000" "selfie" "http://x/1.jpg"
                         Demo.w_pending))))
       = Some o2
    /\ obj_get "selfie" (photos_of o2) = Some "http://x/2.jpg".
Proof.
  destruct (order_of "CLN-1000" Demo.w_pending) as [o|] eqn:Ho;
    [| vm_compute in Ho; discriminate].
  assert (Hp : photos o <> PrimitivePhotos)
    by (vm_compute in Ho; injection Ho as <-; discriminate).
  assert (Ht : "selfie" <> "__proto__") by discriminate.
  destruct (upload_photo_keeps_last_address_per_type Demo.rt Demo.calm Demo.calm
              "CLN-1000" "selfie" "http://x/1.jpg" "http://x/2.jpg" o Demo.w_pending
              Ho Ht Hp)
    as (o1 & o2 & _ & H2 & _ & Hg & _).
  exists o, o2. split; [reflexivity|]. split; [exact Hp|]. split; [exact H2 | exact Hg].
Defined.

(** *** The order details after an inline claim *)

Lemma details_undelivered_refl w : details_undelivered w w.
Proof. intros target o H. now left. Qed.

Lemma details_undelivered_trans a b c :
  details_undelivered a b -> details_undelivered b c -> details_undelivered a c.
Proof.
  intros Hab Hbc target o H. destruct (Hbc target o H) as [H1|H1]; [|now right].
  exact (Hab target o H1).
Qed.

Ltac step_details :=
  unfold details_undelivered;
  cbn [outbox set_orders set_masters set_sheet add_timer log answered];
  intros ? ? ?;
  first [ now left
        | match goal with
          | H : In _ (_ ++ [_])%list |- _ =>
              apply in_app_or in H; destruct H as [H|[H|[]]];
              [now left | first [discriminate H | injection H as <- _; now right]]
          end ].

Lemma outbox_kept_refl w : outbox_kept w w.
Proof. intros e H. exact H. Qed.

Lemma outbox_kept_trans a b c : outbox_kept a b -> outbox_kept b c -> outbox_kept a c.
Proof. intros Hab Hbc e H. exact (Hbc e (Hab e H)). Qed.

Ltac step_outbox :=
  unfold outbox_kept;
  cbn [outbox set_orders set_masters set_sheet add_timer log answered];
  intros ? ?; first [ assumption | apply in_or_app; now left ].

Lemma callback_query_take rt oracle q orderId o w :
  cq_data q = "take_" ++ orderId ->
  order_of orderId w = Some o ->
  status o = pending ->
  string_keys (masters w) ->
  callback_query rt oracle q w
  = ((bot_deleteMessage oracle (Some (cq_chat q)) (Some (cq_message_id q)) ;;
      bot_sendMessage oracle JUndef
        (MsgFullInfo (with_claim (JNum (cq_from q)) (cq_first_name q) (now w) o)) ;;
      updateGoogleSheet oracle orderId
        [ ("status", "taken"); ("masterName", cq_first_name q);
          ("takenAt", toISOString rt (now w)) ] ;;
      bot_answerCallbackQuery oracle (cq_id q) TextAccepted ;;
      scheduleNotifications rt orderId (orderDate (body o)) (orderTime (body o))) ;;
     ret tt)
      (set_orders (map_update String.eqb orderId
                     (with_claim (JNum (cq_from q)) (cq_first_name q) (now w))) w).
Proof.
  unfold order_of. intros Hd Ho Hs Hk. unfold callback_query.
  rewrite Hd, startsWith_take.
  change (JsString.replace_prefix "take_" ("take_" ++ orderId)) with orderId.
  change (JsString.startsWith ("take_" ++ orderId) "reject_") with false.
  cbv iota.
  match goal with
  | |- bind (bind get ?k) ?k2 w = _ =>
      change (bind (bind get k) k2 w) with (bind (k w) k2 w)
  end.
  cbv beta zeta. rewrite Ho, Hs, (string_keys_no_number (cq_from q) _ Hk).
  cbv iota beta delta [status_eqb].
  reflexivity.
Qed.

(** X30.  The inline claim looks the worker's chat up under the numeric
    id, and the directory is keyed by strings.  So, after any history, the
    handler of a callback never sends the order details to a chat: a
    details message that it adds to the traffic is addressed to
    [undefined].  And when it claims a pending order and the deletion of
    the offer and that send both resolve, this is the message sent. *)
Theorem inline_claim_sends_details_to_no_chat
  (rt : JsRuntime) (oracle : nat -> Reply) (token : string)
  (es : list Event) (sh : list (list string)) (t : Z) (q : CallbackQuery) :
  let w := run rt oracle token es (boot sh t) in
  let w' := snd (callback_query rt oracle q w) in
  (forall target o,
      In (Sent target (MsgFullInfo o)) (outbox w') ->
      In (Sent target (MsgFullInfo o)) (outbox w) \/ target = JUndef)
  /\ (forall orderId o,
        cq_data q = "take_" ++ orderId ->
        order_of orderId w = Some o ->
        status o = pending ->
        rejects (oracle (calls w)) = false ->
        rejects (oracle (S (calls w))) = false ->
        In (Sent JUndef
              (MsgFullInfo (with_claim (JNum (cq_from q)) (cq_first_name q) (now w) o)))
           (outbox w')).
Proof.
  intros w w'.
  destruct (reachable_invariants rt oracle token es sh t) as (_ & _ & Hk).
  fold w in Hk. unfold directory_by_string in Hk. clearbody w.
  split.
  - change (details_undelivered w w'). subst w'. unfold callback_query. cbv zeta.
    destruct (JsString.startsWith (cq_data q) "take_").
    2:{ change (bind (ret tt) ?k w) with (k tt w). cbv beta.
        clear Hk. revert w.
        match goal with
        | |- forall w, ?R w (snd (?m w)) => change (advances R m)
        end.
        advance details_undelivered_refl details_undelivered_trans step_details. }
    set (orderId := JsString.replace_prefix "take_" (cq_data q)).
    match goal with
    | |- details_undelivered w (snd (bind (bind get ?k) ?k2 w)) =>
        change (bind (bind get k) k2 w) with (bind (k w) k2 w)
    end.
    cbv beta. rewrite (string_keys_no_number (cq_from q) _ Hk). clear Hk.
    destruct (map_get String.eqb orderId (orders w)) as [o|];
      [destruct (status_eqb (status o) pending)|];
      try generalize (now w); intros;
      revert w;
      match goal with
      | |- forall w, ?R w (snd (?m w)) => change (advances R m)
      end;
      unfold scheduleNotifications, setTimeout;
      advance details_undelivered_refl details_undelivered_trans step_details.
  - intros orderId o Hd Ho Hs H0 H1. subst w'.
    rewrite (callback_query_take rt oracle q orderId o w Hd Ho Hs Hk).
    set (w0 := set_orders _ w).
    unfold bind at 1. unfold bind at 1.
    assert (E0 : bot_deleteMessage oracle (Some (cq_chat q)) (Some (cq_message_id q)) w0
                 = (Ok tt, log (Deleted (Some (cq_chat q)) (Some (cq_message_id q)))
                             (answered (latency (oracle (calls w))) w0))).
    { unfold bot_deleteMessage.
      erewrite bind_ok by (apply await_ok; exact H0). reflexivity. }
    rewrite E0.
    set (w1 := log _ (answered _ w0)).
    unfold bind at 1.
    rewrite (bot_sendMessage_ok oracle JUndef _ w1 H1).
    set (w2 := log _ (answered _ w1)).
    assert (Hin : In (Sent JUndef
                        (MsgFullInfo
                           (with_claim (JNum (cq_from q)) (cq_first_name q) (now w) o)))
                     (outbox w2)).
    { unfold w2. cbn [outbox log]. apply in_or_app. right. now left. }
    revert Hin. generalize (Sent JUndef
      (MsgFullInfo (with_claim (JNum (cq_from q)) (cq_first_name q) (now w) o))).
    intros e Hin.
    match goal with
    | |- In e (outbox (snd (match ?rest w2 with _ => _ end))) =>
        assert (H : advances outbox_kept rest)
    end.
    { unfold scheduleNotifications, setTimeout.
      advance outbox_kept_refl outbox_kept_trans step_outbox. }
    specialize (H w2).
    match goal with
    | |- In e (outbox (snd (match ?rest w2 with _ => _ end))) =>
        destruct (rest w2) as [[[]|err] w3]
    end; cbn [snd ret] in *; exact (H e Hin).
Qed.

(** *** The order that a reminder callback reads *)

Lemma callbacks_safe_refl w : callbacks_safe w w.
Proof.
  split; [apply keys_kept_refl|]. split; [intros t H; now left | intros e H; exact H].
Qed.

Lemma callbacks_safe_trans a b c :
  callbacks_safe a b -> callbacks_safe b c -> callbacks_safe a c.
Proof.
  intros (Kab & Tab & Uab) (Kbc & Tbc & Ubc).
  split; [exact (keys_kept_trans _ _ _ Kab Kbc)|]. split.
  - intros t Ht. destruct (Tbc t Ht) as [H|H]; [|now right].
    destruct (Tab t H) as [H1|H1]; [now left|]. right.
    exact (extends_In _ _ _ Kbc H1).
  - intros e He. exact (Uab e (Ubc e He)).
Qed.

Ltac step_callbacks :=
  unfold callbacks_safe;
  cbn [orders timers outbox set_orders set_masters set_sheet log answered];
  split; [step_keys|];
  split;
  [ intros ? ?; now left
  | intros ? ?;
    first [ assumption
          | match goal with
            | H : In _ (_ ++ [_])%list |- _ =>
                apply in_app_or in H; destruct H as [H|[H|[]]];
                [exact H | discriminate H]
            end ] ].

(** [scheduleNotifications] arms timers for an order that it has read. *)
Lemma scheduleNotifications_callbacks_safe rt orderId date time :
  advances callbacks_safe (scheduleNotifications rt orderId date time).
Proof.
  intros w. unfold scheduleNotifications. rewrite bind_get.
  destruct (map_get String.eqb orderId (orders w)) as [o|] eqn:Ho;
    [|apply callbacks_safe_refl].
  destruct (map_get js_eqb (masterId o) (masters w)) as [chat|];
    [|apply callbacks_safe_refl].
  destruct (truthy chat); [|apply callbacks_safe_refl].
  assert (Hk : In orderId (map fst (orders w)))
    by (apply map_get_In_key; now exists o).
  unfold setTimeout, bind, get, modify, callbacks_safe, keys_kept.
  cbn [snd orders timers outbox add_timer].
  split; [apply extends_refl|]. split; [|intros e H; exact H].
  intros t Ht. rewrite <- app_assoc in Ht.
  apply in_app_or in Ht. destruct Ht as [Ht|[<-|[<-|[]]]]; [now left | now right..].
Qed.

Lemma handle_callbacks_safe rt oracle token e w :
  timers_name_orders w -> callbacks_safe w (handle rt oracle token e w).
Proof.
  intros [Ht Hu]. destruct e; cbn [handle];
    [ clear Ht Hu; as_advances w;
      unfold saveToGoogleSheets, photo_after_branch, notifyManager, updateGoogleSheet;
      repeat first
        [ apply scheduleNotifications_callbacks_safe
        | apply (advances_ret _ callbacks_safe_refl)
        | apply (advances_throw _ callbacks_safe_refl)
        | apply (advances_get _ callbacks_safe_refl)
        | apply advances_await; intros ? ?; step_callbacks
        | apply advances_modify; intros ?; step_callbacks
        | apply advances_try_catch
        | apply (advances_bind _ callbacks_safe_trans); [|intros ?]
        | match goal with
          | |- advances _ (match ?x with _ => _ end) => destruct x
          | |- advances _ (let _ := _ in _) => cbv zeta
          end ] ..
    | unfold callbacks_safe, keys_kept; cbn [orders timers outbox];
      split; [apply extends_refl | split; [intros ? ?; now left | intros ? ?; assumption]]
    | ].
  unfold fire. destruct (nth_error (timers w) i) as [t|] eqn:Hn;
    [|apply callbacks_safe_refl].
  destruct (fires_at t <=? now w); [|apply callbacks_safe_refl].
  assert (Hin : In (t_order t) (map fst (orders w))).
  { apply nth_error_In in Hn. rewrite Forall_forall in Ht. exact (Ht t Hn). }
  apply map_get_In_key in Hin. destruct Hin as [o Ho].
  unfold reminder. cbn [orders set_timers]. rewrite Ho.
  unfold callbacks_safe, keys_kept. cbn [orders log set_timers].
  split; [apply extends_refl|]. split.
  - intros t' H. cbn [timers log set_timers] in H. left.
    clear - H. revert i H. induction (timers w) as [|x l IH]; intros i H; [destruct i; destruct H|].
    destruct i as [|i]; cbn [remove_nth] in H; [now right|].
    destruct H as [->|H]; [now left | right; exact (IH i H)].
  - intros e H. cbn [outbox log set_timers] in H.
    apply in_app_or in H. destruct H as [H|[H|[]]]; [exact H | discriminate H].
Qed.

(** From start-up on, every armed timer names an order of the map, since
    the timers are armed for an order that was read and no order is ever
    removed: the callback of a reminder finds its order, and no exception
    leaves a timer callback. *)
Lemma reminder_callbacks_find_their_order rt oracle token es sh t :
  let w := run rt oracle token es (boot sh t) in
  (forall tm, In tm (timers w) -> exists o, order_of (t_order tm) w = Some o)
  /\ (forall e, ~ In (Uncaught e) (outbox w)).
Proof.
  intros w.
  assert (H : timers_name_orders w).
  { subst w. apply (run_invariant rt oracle token timers_name_orders).
    - intros e w [Ht Hu].
      destruct (handle_callbacks_safe rt oracle token e w (conj Ht Hu)) as (K & T & U).
      split.
      + apply Forall_forall. intros tm Hin. destruct (T tm Hin) as [H|H]; [|exact H].
        rewrite Forall_forall in Ht. exact (extends_In _ _ _ K (Ht tm H)).
      + intros e' He'. exact (Hu e' (U e' He')).
    - split; [constructor | intros e []]. }
  destruct H as [Ht Hu]. split; [|exact Hu].
  intros tm Hin. rewrite Forall_forall in Ht. apply map_get_In_key. exact (Ht tm Hin).
Qed.
